(* ========================================================================= *)
(* K-Scope: entry store (src/routes/db.ts) and launch dispatcher             *)
(* (src/lib/logic.ts), embedded shallowly and verified.                      *)
(* ========================================================================= *)

From Stdlib Require Import ZArith NArith String Ascii List Lia.
From stdpp Require Import base option list gmap strings sorting.

Set Default Proof Using "Type".
Open Scope Z_scope.

(* ------------------------------------------------------------------------- *)
(* JavaScript strings                                                        *)
(* ------------------------------------------------------------------------- *)

(* A JavaScript string is a sequence of UTF-16 code units.  The program only
   ever compares single characters with the double quote and the space, both
   of which are one code unit that never occurs inside a surrogate pair, so
   walking a string unit by unit does what `for (const char of s)` does code
   point by code point. *)
Abbreviation jsstring := (list N) (only parsing).

(* ASCII literals. *)
Definition js (s : string) : jsstring :=
  map N_of_ascii (list_ascii_of_string s).

Definition QUOTE : N := 34%N.
Definition SPACE : N := 32%N.
Definition TAB : N := 9%N.

(* Truthiness of a string: the empty string is the only falsy one. *)
Definition truthy (s : jsstring) : bool :=
  match s with
  | [] => false
  | _ :: _ => true
  end.

(* White space and line terminators removed by String.prototype.trim. *)
Definition is_white_space (c : N) : bool :=
  ((9 <=? c) && (c <=? 13) || (c =? 32) || (c =? 160) || (c =? 5760)
   || (8192 <=? c) && (c <=? 8202) || (c =? 8232) || (c =? 8233)
   || (c =? 8239) || (c =? 8287) || (c =? 12288) || (c =? 65279))%N.

Fixpoint trimStart (s : jsstring) : jsstring :=
  match s with
  | [] => []
  | c :: s' => if is_white_space c then trimStart s' else s
  end.

Definition trimEnd (s : jsstring) : jsstring := rev (trimStart (rev s)).

Definition trim (s : jsstring) : jsstring := trimEnd (trimStart s).

(* ------------------------------------------------------------------------- *)
(* Exceptions and completions                                                *)
(* ------------------------------------------------------------------------- *)

(* What the SQL engine reports when a statement is refused. *)
Inductive sql_error :=
| NoSuchTable (table : string)
| NoSuchColumn (column : string)
| TableAlreadyExists (table : string)
| NotNullFailed (column : string)
| CheckFailed (column : string)
| UniqueFailed (column : string)
| DatatypeMismatch.

(* The values a `throw` or a rejected promise carries in this program. *)
Inductive exn :=
| Error (message : string)
| SqlError (e : sql_error)
| ShellError (program : jsstring) (args : list jsstring)
| TypeError.

Inductive completion (A : Type) :=
| Returned (a : A)
| Threw (e : exn).
Arguments Returned {A} a.
Arguments Threw {A} e.

(* ========================================================================= *)
(* src/lib/logic.ts                                                          *)
(* ========================================================================= *)

(* --- parseArgs ----------------------------------------------------------- *)

(* The three locals of parseArgs. *)
Record parser := Parser {
  args : list jsstring;
  current : jsstring;
  inQuotes : bool
}.

(* One turn of the loop body. *)
Definition parse_char (p : parser) (char : N) : parser :=
  if (char =? QUOTE)%N then
    {| args := args p; current := current p; inQuotes := negb (inQuotes p) |}
  else if (char =? SPACE)%N && negb (inQuotes p) then
    if truthy (current p) then
      {| args := args p ++ [current p]; current := []; inQuotes := inQuotes p |}
    else p
  else
    {| args := args p; current := current p ++ [char]; inQuotes := inQuotes p |}.

Definition parse_start : parser :=
  {| args := []; current := []; inQuotes := false |}.

Definition parse_finish (p : parser) : list jsstring :=
  if truthy (current p) then args p ++ [current p] else args p.

Definition parseArgs (argsString : jsstring) : list jsstring :=
  parse_finish (fold_left parse_char argsString parse_start).

(* --- the effects of the dispatcher --------------------------------------- *)

(* The callback handed to setTimeout. *)
Inductive timer_callback :=
| CallToggleWindow (isOpen : bool).

Inductive logged :=
| LoggedString (s : jsstring)
| LoggedError (e : exn).

(* Everything the module does to the outside world, in order. *)
Inductive event :=
| AudioPlay (sound : string)
| CommandExecute (program : jsstring) (argv : list jsstring)
| ConsoleError (message : string) (detail : logged)
| SetTimeout (callback : timer_callback) (ms : Z)
| WindowHide
| WindowShow
| WindowSetFocus.

(* A computation that emits events and either returns or throws. *)
Definition Action (A : Type) : Type := (list event * completion A)%type.

#[global] Instance Action_ret : MRet Action := λ A a, ([], Returned a).

#[global] Instance Action_bind : MBind Action := λ A B f m,
  match m with
  | (t, Returned a) => let '(t', r) := f a in (t ++ t', r)
  | (t, Threw e) => (t, Threw e)
  end.

Definition emit (e : event) : Action unit := ([e], Returned tt).

Definition throw {A} (e : exn) : Action A := ([], Threw e).

(* try { body } catch (error) { handler error } *)
Definition try_catch {A} (body : Action A) (handler : exn → Action A) : Action A :=
  match body with
  | (t, Returned a) => (t, Returned a)
  | (t, Threw e) => let '(t', r) := handler e in (t ++ t', r)
  end.

Definition trace {A} (m : Action A) : list event := fst m.
Definition result {A} (m : Action A) : completion A := snd m.

Definition is_command (e : event) : bool :=
  match e with
  | CommandExecute _ _ => true
  | _ => false
  end.

Definition is_timer (e : event) : bool :=
  match e with
  | SetTimeout _ _ => true
  | _ => false
  end.

(* Number of operating-system commands issued. *)
Definition commands {A} (m : Action A) : list event := filter is_command (trace m).

(* The entry as the interface declares it.  At run time launch_type is
   whatever string the row holds, so it is a string here too. *)
Record Entry := {
  id : Z;
  type : jsstring;
  name : jsstring;
  launch_type : jsstring;
  launch_data : jsstring;
  launch_args : jsstring;
  image_data : jsstring;
  deprecated : bool;
  created_at : Z
}.

Definition sounds : list string :=
  ["open"; "close"; "switch"; "hover"; "launch"]%string.

Definition playSound (sound : string) : Action unit :=
  if bool_decide (sound ∈ sounds) then emit (AudioPlay sound) else mret tt.

Definition toggleWindow (isOpen : bool) : Action bool :=
  if isOpen then
    playSound "close";; emit WindowHide;; mret false
  else
    emit WindowShow;; emit WindowSetFocus;; playSound "open";; mret true.

Definition run_callback (cb : timer_callback) : Action unit :=
  match cb with
  | CallToggleWindow isOpen => toggleWindow isOpen;; mret tt
  end.

Section Dispatch.

(* The operating system's answer to Command.create(program, argv).execute():
   true when the start request is accepted, false when the promise rejects. *)
Variable shell : jsstring → list jsstring → bool.

Definition execute (program : jsstring) (argv : list jsstring) : Action unit :=
  emit (CommandExecute program argv);;
  if shell program argv then mret tt else throw (ShellError program argv).

Definition launchSteam (appId : jsstring) : Action unit :=
  execute (js "cmd") [js "/c"; js "start"; js "steam://rungameid/" ++ appId].

Definition launchExe (exePath : jsstring) (args : jsstring) : Action unit :=
  let argList := if truthy (trim args) then parseArgs args else [] in
  execute (js "cmd") ([js "/c"; js "start"; []; exePath] ++ argList).

Definition launchUrl (url : jsstring) : Action unit :=
  execute (js "cmd") [js "/c"; js "start"; url].

Definition launchBat (batPath : jsstring) : Action unit :=
  execute (js "cmd") [js "/c"; batPath].

(* What follows the switch when a case ends in `break`. *)
Definition after_launch : Action bool :=
  emit (SetTimeout (CallToggleWindow true) 200);; mret true.

Definition launchEntry (entry : Entry) : Action bool :=
  try_catch
    (playSound "launch";;
     if bool_decide (launch_type entry = js "steam") then
       launchSteam (launch_data entry);; after_launch
     else if bool_decide (launch_type entry = js "exe") then
       launchExe (launch_data entry) (launch_args entry);; after_launch
     else if bool_decide (launch_type entry = js "url") then
       launchUrl (launch_data entry);; after_launch
     else if bool_decide (launch_type entry = js "bat") then
       launchBat (launch_data entry);; after_launch
     else
       emit (ConsoleError "Unknown launch type:" (LoggedString (launch_type entry)));;
       mret false)
    (λ error,
       emit (ConsoleError "Failed to launch:" (LoggedError error));;
       mret false).

End Dispatch.

(* ========================================================================= *)
(* The SQL engine behind @tauri-apps/plugin-sql, as far as db.ts drives it   *)
(* ========================================================================= *)

(* Stored values.  The program binds only strings and integers and the
   declarations below have only TEXT and INTEGER columns; integers are
   unbounded here (the engine's have 64 bits, JavaScript's numbers 53). *)
Inductive sqlvalue :=
| SNull
| SInt (n : Z)
| SText (s : jsstring).

#[global] Instance sqlvalue_eq_dec : EqDecision sqlvalue.
Proof. solve_decision. Defined.

Inductive affinity := INTEGER | TEXT.

Inductive default_expr :=
| NoDefault
| DefaultValue (v : sqlvalue)
| DefaultUnixepoch.

(* One column of a CREATE TABLE: name, declared type, PRIMARY KEY
   AUTOINCREMENT, NOT NULL, DEFAULT and CHECK(name IN (...)).  The declared
   type is kept as written; values are stored as they are bound, without the
   conversions the engine applies to a value of another type. *)
Record column := Column {
  c_name : string;
  c_type : affinity;
  c_primary_key : bool;
  c_not_null : bool;
  c_default : default_expr;
  c_check_in : option (list jsstring)
}.

Abbreviation row := (list sqlvalue) (only parsing).

(* A table: its declaration, its rows (one value per column, in column
   order) and the largest row id it ever held (what AUTOINCREMENT keeps in
   sqlite_sequence).  The row id is the INTEGER PRIMARY KEY column; a table
   declared without one numbers its rows by that counter alone. *)
Record table := Table {
  t_columns : list column;
  t_rows : list row;
  t_sequence : Z
}.

(* The database file: tables by name. *)
Abbreviation database := (gmap string table) (only parsing).

Inductive sql_result (A : Type) :=
| Done (a : A)
| Refused (e : sql_error).
Arguments Done {A} a.
Arguments Refused {A} e.

#[global] Instance sql_result_ret : MRet sql_result := λ A a, Done a.

#[global] Instance sql_result_bind : MBind sql_result := λ A B f m,
  match m with
  | Done a => f a
  | Refused e => Refused e
  end.

Fixpoint column_index (c : string) (cols : list column) : option nat :=
  match cols with
  | [] => None
  | col :: cols' =>
      if String.eqb (c_name col) c then Some 0%nat
      else S <$> column_index c cols'
  end.

Definition has_column (cols : list column) (c : string) : bool :=
  match column_index c cols with
  | Some _ => true
  | None => false
  end.

(* The value a row holds in a column. *)
Definition cell (cols : list column) (r : row) (c : string) : sqlvalue :=
  match column_index c cols with
  | Some i => default SNull (r !! i)
  | None => SNull
  end.

Definition set_cell (cols : list column) (r : row) (c : string) (v : sqlvalue) : row :=
  match column_index c cols with
  | Some i => <[i := v]> r
  | None => r
  end.

Definition require_columns (cols : list column) (cs : list string) : sql_result unit :=
  match find (λ c, negb (has_column cols c)) cs with
  | Some c => Refused (NoSuchColumn c)
  | None => Done tt
  end.

Definition require_table (d : database) (tbl : string) : sql_result table :=
  match d !! tbl with
  | Some t => Done t
  | None => Refused (NoSuchTable tbl)
  end.

(* PRAGMA table_info(tbl): the column names, none when there is no table. *)
Definition table_info (tbl : string) (d : database) : list string :=
  match d !! tbl with
  | Some t => c_name <$> t_columns t
  | None => []
  end.

(* ALTER TABLE old RENAME TO new *)
Definition alter_table_rename (old new : string) (d : database) : sql_result database :=
  t ← require_table d old;
  match d !! new with
  | Some _ => Refused (TableAlreadyExists new)
  | None => Done (<[new := t]> (delete old d))
  end.

(* CREATE TABLE tbl (cols) *)
Definition create_table (tbl : string) (cols : list column) (d : database) : sql_result database :=
  match d !! tbl with
  | Some _ => Refused (TableAlreadyExists tbl)
  | None => Done (<[tbl := {| t_columns := cols; t_rows := []; t_sequence := 0 |}]> d)
  end.

(* DROP TABLE tbl *)
Definition drop_table (tbl : string) (d : database) : sql_result database :=
  _ ← require_table d tbl;
  Done (delete tbl d).

(* --- constraints ---------------------------------------------------------- *)

Definition is_null (v : sqlvalue) : bool :=
  match v with
  | SNull => true
  | _ => false
  end.

(* NOT NULL, then CHECK(c IN (...)); a CHECK whose value is NULL passes. *)
Definition check_column (c : column) (v : sqlvalue) : sql_result unit :=
  if c_not_null c && is_null v then Refused (NotNullFailed (c_name c))
  else
    match c_check_in c, v with
    | None, _ => Done tt
    | Some _, SNull => Done tt
    | Some allowed, SText s =>
        if bool_decide (s ∈ allowed) then Done tt else Refused (CheckFailed (c_name c))
    | Some _, SInt _ => Refused (CheckFailed (c_name c))
    end.

Fixpoint check_row (cols : list column) (r : row) : sql_result unit :=
  match cols, r with
  | c :: cols', v :: r' => check_column c v;; check_row cols' r'
  | _, _ => Done tt
  end.

(* --- row ids --------------------------------------------------------------- *)

Definition primary_key (cols : list column) : option string :=
  c_name <$> find c_primary_key cols.

Definition rowid_of (cols : list column) (r : row) : option Z :=
  k ← primary_key cols;
  match cell cols r k with
  | SInt n => Some n
  | _ => None
  end.

Definition rowids (t : table) : list Z :=
  omap (rowid_of (t_columns t)) (t_rows t).

(* AUTOINCREMENT: one more than the largest row id the table ever held. *)
Definition next_rowid (t : table) : Z :=
  foldr Z.max (t_sequence t) (rowids t) + 1.

(* --- INSERT ---------------------------------------------------------------- *)

Definition default_value (now : Z) (c : column) : sqlvalue :=
  match c_default c with
  | NoDefault => SNull
  | DefaultValue v => v
  | DefaultUnixepoch => SInt now
  end.

Definition assigned (assignments : list (string * sqlvalue)) (c : string) : option sqlvalue :=
  snd <$> find (λ p, String.eqb (fst p) c) assignments.

(* The row id of the row about to be inserted: the bound primary key when it
   is an integer that is still free, a fresh one when it is NULL or not
   bound. *)
Definition choose_rowid (t : table) (assignments : list (string * sqlvalue)) : sql_result Z :=
  match primary_key (t_columns t) with
  | None => Done (next_rowid t)
  | Some k =>
      match assigned assignments k with
      | None | Some SNull => Done (next_rowid t)
      | Some (SInt n) =>
          if bool_decide (n ∈ rowids t) then Refused (UniqueFailed k) else Done n
      | Some (SText _) => Refused DatatypeMismatch
      end
  end.

Definition build_row (now rowid : Z) (cols : list column)
    (assignments : list (string * sqlvalue)) : row :=
  (λ c, if c_primary_key c then SInt rowid
        else default (default_value now c) (assigned assignments (c_name c))) <$> cols.

(* INSERT INTO t (c1, ..., cn) VALUES (v1, ..., vn), one row.  Gives the new
   table and the row id (lastInsertId). *)
Definition insert_row (now : Z) (t : table) (assignments : list (string * sqlvalue))
    : sql_result (table * Z) :=
  require_columns (t_columns t) (fst <$> assignments);;
  rowid ← choose_rowid t assignments;
  let r := build_row now rowid (t_columns t) assignments in
  check_row (t_columns t) r;;
  Done ({| t_columns := t_columns t;
           t_rows := t_rows t ++ [r];
           t_sequence := Z.max (t_sequence t) rowid |}, rowid).

Definition insert_values (now : Z) (tbl : string) (assignments : list (string * sqlvalue))
    (d : database) : sql_result (database * Z) :=
  t ← require_table d tbl;
  '(t', rowid) ← insert_row now t assignments;
  Done (<[tbl := t']> d, rowid).

(* One item of a SELECT list. *)
Inductive select_expr :=
| Col (c : string)
| Lit (v : sqlvalue).

Definition eval_select (cols : list column) (r : row) (e : select_expr) : sqlvalue :=
  match e with
  | Col c => cell cols r c
  | Lit v => v
  end.

Definition select_columns (es : list select_expr) : list string :=
  omap (λ e, match e with Col c => Some c | Lit _ => None end) es.

(* Rows inserted one after the other; `last` is the row id of the latest. *)
Fixpoint insert_rows (now : Z) (t : table) (last : Z) (targets : list string)
    (values : list (list sqlvalue)) : sql_result (table * Z) :=
  match values with
  | [] => Done (t, last)
  | vs :: values' =>
      '(t', rowid) ← insert_row now t (zip targets vs);
      insert_rows now t' rowid targets values'
  end.

(* INSERT INTO dest (targets) SELECT exprs FROM src.  The statement is
   atomic: when a row is refused nothing has been inserted.  The row id
   reported when the source is empty is that of a connection that has not
   inserted yet. *)
Definition insert_select (now : Z) (dest : string) (targets : list string)
    (exprs : list select_expr) (src : string) (d : database) : sql_result (database * Z) :=
  td ← require_table d dest;
  ts ← require_table d src;
  require_columns (t_columns td) targets;;
  require_columns (t_columns ts) (select_columns exprs);;
  '(td', rowid) ← insert_rows now td 0 targets
                    ((λ r, eval_select (t_columns ts) r <$> exprs) <$> t_rows ts);
  Done (<[dest := td']> d, rowid).

(* --- SELECT ---------------------------------------------------------------- *)

(* col = ?  (a comparison with NULL is never true) *)
Definition sql_eq (a b : sqlvalue) : bool :=
  match a, b with
  | SInt x, SInt y => x =? y
  | SText x, SText y => bool_decide (x = y)
  | _, _ => false
  end.

Fixpoint text_leb (a b : jsstring) : bool :=
  match a, b with
  | [], _ => true
  | _ :: _, [] => false
  | x :: a', y :: b' => (x <? y)%N || (x =? y)%N && text_leb a' b'
  end.

(* The engine's order of values: NULL, then integers, then text. *)
Definition sql_leb (a b : sqlvalue) : bool :=
  match a, b with
  | SNull, _ => true
  | SInt _, SNull => false
  | SInt x, SInt y => x <=? y
  | SInt _, SText _ => true
  | SText x, SText y => text_leb x y
  | SText _, _ => false
  end.

(* ORDER BY c DESC as a relation on rows: larger values first. *)
Definition order_desc (cols : list column) (c : string) : relation row :=
  λ r1 r2, Is_true (sql_leb (cell cols r2 c) (cell cols r1 c)).

#[global] Instance order_desc_dec cols c r1 r2 : Decision (order_desc cols c r1 r2).
Proof. unfold order_desc. apply _. Defined.

(* Values as the plugin hands them to JavaScript. *)
Inductive jsvalue :=
| JUndefined
| JNull
| JNumber (n : Z)
| JString (s : jsstring)
| JBoolean (b : bool).

Abbreviation jsobject := (list (string * jsvalue)) (only parsing).

Definition to_js (v : sqlvalue) : jsvalue :=
  match v with
  | SNull => JNull
  | SInt n => JNumber n
  | SText s => JString s
  end.

(* A row of SELECT *: one property per column. *)
Definition row_object (cols : list column) (r : row) : jsobject :=
  zip (c_name <$> cols) (to_js <$> r).

(* object.key *)
Definition obj_get (o : jsobject) (key : string) : jsvalue :=
  match find (λ p, String.eqb (fst p) key) o with
  | Some p => snd p
  | None => JUndefined
  end.

(* { ...object, key: v } *)
Fixpoint obj_set (o : jsobject) (key : string) (v : jsvalue) : jsobject :=
  match o with
  | [] => [(key, v)]
  | p :: o' => if String.eqb (fst p) key then (key, v) :: o' else p :: obj_set o' key v
  end.

(* Boolean(v) *)
Definition Boolean (v : jsvalue) : bool :=
  match v with
  | JUndefined | JNull => false
  | JNumber n => negb (n =? 0)
  | JString s => truthy s
  | JBoolean b => b
  end.

(* SELECT * FROM tbl WHERE c = v [ORDER BY o DESC].  Rows with equal keys come
   out in an order SQL leaves open; the sort below fixes one and nothing
   proved here depends on which. *)
Definition select_where (tbl c : string) (v : sqlvalue) (order : option string)
    (d : database) : sql_result (list jsobject) :=
  t ← require_table d tbl;
  require_columns (t_columns t) (c :: option_list order);;
  let matching := filter (λ r, Is_true (sql_eq (cell (t_columns t) r c) v)) (t_rows t) in
  let sorted :=
    match order with
    | Some o => merge_sort (order_desc (t_columns t) o) matching
    | None => matching
    end in
  Done (row_object (t_columns t) <$> sorted).

(* --- DELETE ---------------------------------------------------------------- *)

(* DELETE FROM tbl WHERE c = v *)
Definition delete_where (tbl c : string) (v : sqlvalue) (d : database) : sql_result database :=
  t ← require_table d tbl;
  require_columns (t_columns t) [c];;
  Done (<[tbl := {| t_columns := t_columns t;
                    t_rows := filter (λ r, ¬ Is_true (sql_eq (cell (t_columns t) r c) v)) (t_rows t);
                    t_sequence := t_sequence t |}]> d).

(* --- UPDATE ---------------------------------------------------------------- *)

(* The right-hand sides this program writes in SET: a bound parameter, or
   NOT of a column. *)
Inductive set_expr :=
| Param (v : sqlvalue)
| NotColumn (c : string).

Definition is_digit (c : N) : bool := ((48 <=? c) && (c <=? 57))%N.

(* Does the digits-and-point prefix of a text hold a digit other than 0? *)
Fixpoint numeric_prefix_nonzero (s : jsstring) : bool :=
  match s with
  | [] => false
  | c :: s' =>
      if is_digit c then negb (c =? 48)%N || numeric_prefix_nonzero s'
      else if (c =? 46)%N then numeric_prefix_nonzero s'
      else false
  end.

Fixpoint skip_spaces (s : jsstring) : jsstring :=
  match s with
  | [] => []
  | c :: s' => if ((9 <=? c) && (c <=? 13) || (c =? 32))%N then skip_spaces s' else s
  end.

Definition skip_sign (s : jsstring) : jsstring :=
  match s with
  | c :: s' => if ((c =? 43) || (c =? 45))%N then s' else s
  | [] => []
  end.

(* A value used as a condition: NULL is unknown, a number is true when it is
   not zero, a text counts as the number its leading numeric part reads as,
   after leading spaces and a sign (an exponent is not looked at). *)
Definition sql_truth (v : sqlvalue) : option bool :=
  match v with
  | SNull => None
  | SInt n => Some (negb (n =? 0))
  | SText s => Some (numeric_prefix_nonzero (skip_sign (skip_spaces s)))
  end.

(* NOT v *)
Definition sql_not (v : sqlvalue) : sqlvalue :=
  match sql_truth v with
  | None => SNull
  | Some true => SInt 0
  | Some false => SInt 1
  end.

Definition set_columns (sets : list (string * set_expr)) : list string :=
  (fst <$> sets) ++ omap (λ p, match snd p with NotColumn c => Some c | Param _ => None end) sets.

(* Right-hand sides are read from the row as it was before the update. *)
Definition eval_set (cols : list column) (old : row) (e : set_expr) : sqlvalue :=
  match e with
  | Param v => v
  | NotColumn c => sql_not (cell cols old c)
  end.

Definition update_row (cols : list column) (sets : list (string * set_expr)) (old : row) : row :=
  fold_left (λ r p, set_cell cols r (fst p) (eval_set cols old (snd p))) sets old.

Definition find_column (cols : list column) (c : string) : option column :=
  find (λ col, String.eqb (c_name col) c) cols.

(* An UPDATE tests the constraints of the columns it assigns, on the values
   it assigns. *)
Fixpoint check_sets (cols : list column) (sets : list (string * set_expr)) (old : row)
    : sql_result unit :=
  match sets with
  | [] => Done tt
  | p :: sets' =>
      match find_column cols (fst p) with
      | Some col => check_column col (eval_set cols old (snd p))
      | None => Done tt
      end;;
      check_sets cols sets' old
  end.

Fixpoint check_updates (cols : list column) (sets : list (string * set_expr))
    (rs : list row) : sql_result unit :=
  match rs with
  | [] => Done tt
  | r :: rs' => check_sets cols sets r;; check_updates cols sets rs'
  end.

(* UPDATE tbl SET sets WHERE c = v.  Every row that matches is rewritten;
   when a new value breaks a constraint nothing changes.  (No statement of
   this program assigns the primary key.) *)
Definition update_where (tbl : string) (sets : list (string * set_expr)) (c : string)
    (v : sqlvalue) (d : database) : sql_result database :=
  t ← require_table d tbl;
  require_columns (t_columns t) (set_columns sets ++ [c]);;
  let hit r := sql_eq (cell (t_columns t) r c) v in
  check_updates (t_columns t) sets (filter (λ r, Is_true (hit r)) (t_rows t));;
  Done (<[tbl := {| t_columns := t_columns t;
                    t_rows := (λ r, if hit r then update_row (t_columns t) sets r else r)
                                <$> t_rows t;
                    t_sequence := t_sequence t |}]> d).

(* ========================================================================= *)
(* src/routes/db.ts                                                          *)
(* ========================================================================= *)

(* The handle Database.load gives back. *)
Inductive Database :=
| Connection (path : string).

(* The module variable `db`, the file sqlite:kscope.db, and the time
   unixepoch() reads. *)
Record state := State {
  db : option Database;
  disk : gmap string table;
  unixepoch : Z
}.

Definition Store (A : Type) : Type := state → completion A * state.

#[global] Instance Store_ret : MRet Store := λ A a st, (Returned a, st).

#[global] Instance Store_bind : MBind Store := λ A B f m st,
  match m st with
  | (Returned a, st') => f a st'
  | (Threw e, st') => (Threw e, st')
  end.

Definition raise {A} (e : exn) : Store A := λ st, (Threw e, st).

(* db = await Database.load(path); opening the file is taken to succeed. *)
Definition Database_load (path : string) : Store unit :=
  λ st, (Returned tt, {| db := Some (Connection path); disk := disk st; unixepoch := unixepoch st |}).

(* if (!db) throw new Error("Database not initialized") *)
Definition require_db : Store unit :=
  λ st, match db st with
        | None => (Threw (Error "Database not initialized"), st)
        | Some _ => (Returned tt, st)
        end.

(* await db.execute(statement): the file changes only when the statement is
   accepted; a refusal rejects the promise. *)
Definition db_execute (statement : gmap string table → sql_result (gmap string table)) : Store unit :=
  λ st, match statement (disk st) with
        | Done d => (Returned tt, {| db := db st; disk := d; unixepoch := unixepoch st |})
        | Refused e => (Threw (SqlError e), st)
        end.

(* await db.execute(INSERT ...), giving result.lastInsertId *)
Definition db_execute_insert
    (statement : Z → gmap string table → sql_result (gmap string table * Z)) : Store Z :=
  λ st, match statement (unixepoch st) (disk st) with
        | Done (d, rowid) =>
            (Returned rowid, {| db := db st; disk := d; unixepoch := unixepoch st |})
        | Refused e => (Threw (SqlError e), st)
        end.

(* await db.select(query) *)
Definition db_select {A} (query : gmap string table → sql_result A) : Store A :=
  λ st, match query (disk st) with
        | Done a => (Returned a, st)
        | Refused e => (Threw (SqlError e), st)
        end.

Definition includes (l : list string) (x : string) : bool :=
  existsb (String.eqb x) l.

(* The CREATE TABLE entries (...) of initDatabase, column by column. *)
Definition entries_columns : list column := [
  {| c_name := "id"; c_type := INTEGER; c_primary_key := true; c_not_null := false;
     c_default := NoDefault; c_check_in := None |};
  {| c_name := "type"; c_type := TEXT; c_primary_key := false; c_not_null := true;
     c_default := NoDefault; c_check_in := Some [js "game"; js "app"] |};
  {| c_name := "name"; c_type := TEXT; c_primary_key := false; c_not_null := true;
     c_default := NoDefault; c_check_in := None |};
  {| c_name := "launch_type"; c_type := TEXT; c_primary_key := false; c_not_null := true;
     c_default := DefaultValue (SText (js "bat"));
     c_check_in := Some [js "steam"; js "exe"; js "url"; js "bat"] |};
  {| c_name := "launch_data"; c_type := TEXT; c_primary_key := false; c_not_null := true;
     c_default := NoDefault; c_check_in := None |};
  {| c_name := "launch_args"; c_type := TEXT; c_primary_key := false; c_not_null := false;
     c_default := DefaultValue (SText []); c_check_in := None |};
  {| c_name := "image_data"; c_type := TEXT; c_primary_key := false; c_not_null := true;
     c_default := NoDefault; c_check_in := None |};
  {| c_name := "deprecated"; c_type := INTEGER; c_primary_key := false; c_not_null := false;
     c_default := DefaultValue (SInt 0); c_check_in := None |};
  {| c_name := "created_at"; c_type := INTEGER; c_primary_key := false; c_not_null := false;
     c_default := DefaultUnixepoch; c_check_in := None |}
].

(* INSERT INTO entries (...) SELECT id, type, name, 'bat', bat_path, '',
   image_data, deprecated, created_at FROM entries_old *)
Definition copy_targets : list string :=
  ["id"; "type"; "name"; "launch_type"; "launch_data"; "launch_args"; "image_data";
   "deprecated"; "created_at"]%string.

Definition copy_exprs : list select_expr :=
  [Col "id"; Col "type"; Col "name"; Lit (SText (js "bat")); Col "bat_path";
   Lit (SText []); Col "image_data"; Col "deprecated"; Col "created_at"].

(* The console.log lines are left out: nothing reads them. *)
Definition initDatabase : Store unit :=
  Database_load "sqlite:kscope.db";;
  columns ← db_select (λ d, Done (table_info "entries" d));
  let hasOldSchema := includes columns "bat_path" && negb (includes columns "launch_type") in
  let tableExists := (0 <? length columns)%nat in
  if hasOldSchema then
    db_execute (alter_table_rename "entries" "entries_old");;
    db_execute (create_table "entries" entries_columns);;
    db_execute_insert (λ now,
      insert_select now "entries" copy_targets copy_exprs "entries_old");;
    db_execute (drop_table "entries_old")
  else if negb tableExists then
    db_execute (create_table "entries" entries_columns)
  else
    mret tt.

(* { ...row, deprecated: Boolean(row.deprecated) } *)
Definition with_boolean_deprecated (row : jsobject) : jsobject :=
  obj_set row "deprecated" (JBoolean (Boolean (obj_get row "deprecated"))).

Definition getEntries (type : jsstring) : Store (list jsobject) :=
  require_db;;
  rows ← db_select (select_where "entries" "type" (SText type) (Some "created_at"%string));
  mret (with_boolean_deprecated <$> rows).

Definition getGames : Store (list jsobject) := getEntries (js "game").

Definition getApps : Store (list jsobject) := getEntries (js "app").

Definition addEntry (type name launchType launchData launchArgs imageData : jsstring)
    : Store jsobject :=
  require_db;;
  lastInsertId ← db_execute_insert (λ now,
    insert_values now "entries"
      [("type"%string, SText type); ("name"%string, SText name);
       ("launch_type"%string, SText launchType); ("launch_data"%string, SText launchData);
       ("launch_args"%string, SText launchArgs); ("image_data"%string, SText imageData)]);
  entries ← db_select (select_where "entries" "id" (SInt lastInsertId) None);
  match entries with
  | [] => raise TypeError
  | first :: _ => mret (with_boolean_deprecated first)
  end.

Definition deleteEntry (id : Z) : Store unit :=
  require_db;;
  db_execute (delete_where "entries" "id" (SInt id)).

Definition toggleDeprecated (id : Z) : Store unit :=
  require_db;;
  db_execute (update_where "entries" [("deprecated"%string, NotColumn "deprecated")]
                "id" (SInt id)).

Definition updateEntry (id : Z) (name launchType launchData launchArgs imageData : jsstring)
    : Store unit :=
  require_db;;
  db_execute (update_where "entries"
    [("name"%string, Param (SText name)); ("launch_type"%string, Param (SText launchType));
     ("launch_data"%string, Param (SText launchData));
     ("launch_args"%string, Param (SText launchArgs));
     ("image_data"%string, Param (SText imageData))]
    "id" (SInt id)).


(* ========================================================================= *)
(* Vocabulary of the statements                                              *)
(* ========================================================================= *)

(* --- argument parsing, said the way the description says it --------------- *)

(* Every code unit together with whether it stands inside double quotes,
   that is, after an odd number of quote characters. *)
Fixpoint mark (quoted : bool) (s : jsstring) : list (N * bool) :=
  match s with
  | [] => []
  | c :: s' => (c, quoted) :: mark (if (c =? QUOTE)%N then negb quoted else quoted) s'
  end.

(* A separator is a space outside quotes. *)
Definition separator (m : N * bool) : bool :=
  (fst m =? SPACE)%N && negb (snd m).

(* The pieces between separators (always at least one piece). *)
Fixpoint split_on {A} (sep : A → bool) (l : list A) : list (list A) :=
  match l with
  | [] => [[]]
  | x :: l' =>
      if sep x then [] :: split_on sep l'
      else match split_on sep l' with
           | piece :: pieces => (x :: piece) :: pieces
           | [] => [[x]]
           end
  end.

(* A piece with its quote characters taken out. *)
Definition strip_quotes (piece : list (N * bool)) : jsstring :=
  filter (λ c, c ≠ QUOTE) (fst <$> piece).

(* Split at spaces outside quotes, strip the quotes, drop empty pieces. *)
Definition split_outside_quotes (s : jsstring) : list jsstring :=
  filter (λ w, Is_true (truthy w)) (strip_quotes <$> split_on separator (mark false s)).

(* Number of quote characters in a string; a position is outside quotes when
   the text before it holds an even number of them. *)
Definition quotes (s : jsstring) : nat :=
  length (filter (λ c, c = QUOTE) s).

(* --- launch -------------------------------------------------------------- *)

Definition launch_types : list jsstring :=
  [js "steam"; js "exe"; js "url"; js "bat"].

Definition with_launch_args (a : jsstring) (e : Entry) : Entry :=
  {| id := id e; type := type e; name := name e; launch_type := launch_type e;
     launch_data := launch_data e; launch_args := a; image_data := image_data e;
     deprecated := deprecated e; created_at := created_at e |}.

Definition timers {A} (m : Action A) : list event := filter is_timer (trace m).

(* The scenario of the description: a Steam entry with application 814380. *)
Definition steam_entry : Entry :=
  {| id := 1; type := js "game"; name := js "Sekiro"; launch_type := js "steam";
     launch_data := js "814380"; launch_args := js "--never-read";
     image_data := js "data:image/png;base64,AAAA"; deprecated := false;
     created_at := 1700000000 |}.

(* And its executable with arguments. *)
Definition exe_entry : Entry :=
  {| id := 3; type := js "app"; name := js "App"; launch_type := js "exe";
     launch_data := js "C:/g/app.exe";
     launch_args := js "--flag " ++ [QUOTE] ++ js "a b" ++ [QUOTE];
     image_data := js "data:image/png;base64,AAAA"; deprecated := false;
     created_at := 1700000002 |}.

(* An entry whose launch type is none of the four. *)
Definition odd_entry : Entry :=
  {| id := 2; type := js "app"; name := js "Notes"; launch_type := js "lnk";
     launch_data := js "C:/notes.lnk"; launch_args := [];
     image_data := js "data:image/png;base64,AAAA"; deprecated := false;
     created_at := 1700000001 |}.

Definition accepting : jsstring → list jsstring → bool := λ _ _, true.
Definition refusing : jsstring → list jsstring → bool := λ _ _, false.

(* What launchEntry does after a strategy has issued its one command. *)
Definition launched (shell : jsstring → list jsstring → bool) (argv : list jsstring)
    : Action bool :=
  if shell (js "cmd") argv then
    ([AudioPlay "launch"; CommandExecute (js "cmd") argv;
      SetTimeout (CallToggleWindow true) 200], Returned true)
  else
    ([AudioPlay "launch"; CommandExecute (js "cmd") argv;
      ConsoleError "Failed to launch:" (LoggedError (ShellError (js "cmd") argv))],
     Returned false).

(* The command line of launchExe. *)
Definition exe_argv (exePath args : jsstring) : list jsstring :=
  [js "/c"; js "start"; []; exePath] ++ (if truthy (trim args) then parseArgs args else []).

(* What launchEntry does with a launch type it does not know. *)
Definition not_launched (launchType : jsstring) : Action bool :=
  ([AudioPlay "launch"; ConsoleError "Unknown launch type:" (LoggedString launchType)],
   Returned false).

(* --- the store ------------------------------------------------------------ *)

(* The columns the migration reads from the legacy table. *)
Definition legacy_names : list string :=
  ["id"; "type"; "name"; "bat_path"; "image_data"; "deprecated"; "created_at"]%string.

(* A declaration of the legacy shape: those columns, in any order and among
   any others, and no launch_type. *)
Definition legacy_shaped (cols : list column) : bool :=
  forallb (has_column cols) legacy_names && negb (has_column cols "launch_type").

Definition is_text (v : sqlvalue) : bool :=
  match v with
  | SText _ => true
  | _ => false
  end.

Definition is_int (v : sqlvalue) : bool :=
  match v with
  | SInt _ => true
  | _ => false
  end.

(* A legacy row that is an entry: an integer id, a category, a name, a path
   and an image that are texts, and in the two optional integer columns an
   integer or nothing. *)
Definition legacy_row_valid (cols : list column) (r : row) : bool :=
  is_int (cell cols r "id")
  && match cell cols r "type" with
     | SText ty => bool_decide (ty ∈ [js "game"; js "app"])
     | _ => false
     end
  && is_text (cell cols r "name")
  && is_text (cell cols r "bat_path")
  && is_text (cell cols r "image_data")
  && (is_int (cell cols r "deprecated") || is_null (cell cols r "deprecated"))
  && (is_int (cell cols r "created_at") || is_null (cell cols r "created_at")).

(** Modelled from the spec: the CREATE TABLE of the legacy layout is not in
    the source.  This is the declaration the sample legacy store below is
    built on: the columns section 6 lists (id, category, name, one script-path
    column, image_data, deprecated, created_at) under the names initDatabase
    reads them by, declared the way the current table declares the columns
    it shares with it. *)
Definition legacy_columns : list column := [
  {| c_name := "id"; c_type := INTEGER; c_primary_key := true; c_not_null := false;
     c_default := NoDefault; c_check_in := None |};
  {| c_name := "type"; c_type := TEXT; c_primary_key := false; c_not_null := true;
     c_default := NoDefault; c_check_in := Some [js "game"; js "app"] |};
  {| c_name := "name"; c_type := TEXT; c_primary_key := false; c_not_null := true;
     c_default := NoDefault; c_check_in := None |};
  {| c_name := "bat_path"; c_type := TEXT; c_primary_key := false; c_not_null := true;
     c_default := NoDefault; c_check_in := None |};
  {| c_name := "image_data"; c_type := TEXT; c_primary_key := false; c_not_null := true;
     c_default := NoDefault; c_check_in := None |};
  {| c_name := "deprecated"; c_type := INTEGER; c_primary_key := false; c_not_null := false;
     c_default := DefaultValue (SInt 0); c_check_in := None |};
  {| c_name := "created_at"; c_type := INTEGER; c_primary_key := false; c_not_null := false;
     c_default := DefaultUnixepoch; c_check_in := None |}
].

(* The state before any call of initDatabase: `let db = null`. *)
Definition uninitialized (d : gmap string table) (now : Z) : state :=
  {| db := None; disk := d; unixepoch := now |}.

(* A store left by the legacy version: under the name entries a table of the
   legacy shape whose rows are entries with distinct ids, and no table
   entries_old. *)
Definition legacy_store (st : state) (t : table) : Prop :=
  disk st !! "entries"%string = Some t
  ∧ disk st !! "entries_old"%string = None
  ∧ legacy_shaped (t_columns t) = true
  ∧ Forall (λ r, legacy_row_valid (t_columns t) r = true) (t_rows t)
  ∧ NoDup ((λ r, cell (t_columns t) r "id") <$> t_rows t).

(* What the copy does to one row of a legacy table with columns cols. *)
Definition migrated (cols : list column) (old new : row) : Prop :=
  length new = length entries_columns
  ∧ cell entries_columns new "id" = cell cols old "id"
  ∧ cell entries_columns new "type" = cell cols old "type"
  ∧ cell entries_columns new "name" = cell cols old "name"
  ∧ cell entries_columns new "image_data" = cell cols old "image_data"
  ∧ cell entries_columns new "deprecated" = cell cols old "deprecated"
  ∧ cell entries_columns new "created_at" = cell cols old "created_at"
  ∧ cell entries_columns new "launch_type" = SText (js "bat")
  ∧ cell entries_columns new "launch_data" = cell cols old "bat_path".

(* The values the INSERT ... SELECT of the migration reads off one legacy
   row, in the order of its select list. *)
Definition copied_row (cols : list column) (old : row) : row :=
  eval_select cols old <$> copy_exprs.

(* A store initDatabase has been through: the handle is set and the table
   entries has the current declaration, one value per column in every row. *)
Definition initialized (st : state) (t : table) : Prop :=
  is_Some (db st)
  ∧ disk st !! "entries"%string = Some t
  ∧ t_columns t = entries_columns
  ∧ Forall (λ r : row, length r = length entries_columns) (t_rows t).

Definition categories : list jsstring := [js "game"; js "app"].

(* The state with another table under the name entries. *)
Definition with_entries (st : state) (t : table) : state :=
  {| db := db st; disk := <["entries"%string := t]> (disk st); unixepoch := unixepoch st |}.

(* The store operations other than initDatabase. *)
Inductive operation :=
| GetEntries (type : jsstring)
| AddEntry (type name launchType launchData launchArgs imageData : jsstring)
| UpdateEntry (id : Z) (name launchType launchData launchArgs imageData : jsstring)
| DeleteEntry (id : Z)
| ToggleDeprecated (id : Z).

(* Calling one, keeping whether it returned or threw. *)
Definition call (op : operation) : Store unit :=
  match op with
  | GetEntries type => getEntries type;; mret tt
  | AddEntry type name launchType launchData launchArgs imageData =>
      addEntry type name launchType launchData launchArgs imageData;; mret tt
  | UpdateEntry id name launchType launchData launchArgs imageData =>
      updateEntry id name launchType launchData launchArgs imageData
  | DeleteEntry id => deleteEntry id
  | ToggleDeprecated id => toggleDeprecated id
  end.

(* What updateEntry writes into a row. *)
Definition updated (name launchType launchData launchArgs imageData : jsstring)
    (old new : row) : Prop :=
  length new = length old
  ∧ cell entries_columns new "name" = SText name
  ∧ cell entries_columns new "launch_type" = SText launchType
  ∧ cell entries_columns new "launch_data" = SText launchData
  ∧ cell entries_columns new "launch_args" = SText launchArgs
  ∧ cell entries_columns new "image_data" = SText imageData
  ∧ cell entries_columns new "id" = cell entries_columns old "id"
  ∧ cell entries_columns new "type" = cell entries_columns old "type"
  ∧ cell entries_columns new "deprecated" = cell entries_columns old "deprecated"
  ∧ cell entries_columns new "created_at" = cell entries_columns old "created_at".

(* --- sample stores --------------------------------------------------------- *)

Definition legacy_rows : list row := [
  [SInt 3; SText (js "game"); SText (js "Elden Ring"); SText (js "C:/Games/eldenring.bat");
   SText (js "data:image/jpeg;base64,AAAA"); SInt 0; SInt 1700000000];
  [SInt 7; SText (js "app"); SText (js "Notes"); SText (js "C:/Apps/notes.bat");
   SText (js "data:image/png;base64,BBBB"); SInt 1; SInt 1700000500]
].

Definition legacy_table : table :=
  {| t_columns := legacy_columns; t_rows := legacy_rows; t_sequence := 7 |}.

Definition legacy_state : state :=
  uninitialized {[ "entries"%string := legacy_table ]} 1700001000.

Definition sample_rows : list row := [
  [SInt 3; SText (js "game"); SText (js "Elden Ring"); SText (js "bat");
   SText (js "C:/Games/eldenring.bat"); SText []; SText (js "data:image/jpeg;base64,AAAA");
   SInt 0; SInt 1700000000];
  [SInt 7; SText (js "app"); SText (js "Notes"); SText (js "exe");
   SText (js "C:/Apps/notes.exe"); SText (js "--safe"); SText (js "data:image/png;base64,BBBB");
   SInt 1; SInt 1700000500]
].

Definition sample_table : table :=
  {| t_columns := entries_columns; t_rows := sample_rows; t_sequence := 7 |}.

Definition sample_state : state :=
  {| db := Some (Connection "sqlite:kscope.db");
     disk := {[ "entries"%string := sample_table ]};
     unixepoch := 1700001000 |}.

(* ========================================================================= *)
(* More of the two modules: further vocabulary                               *)
(* ========================================================================= *)

(* The object getEntries makes of a row of the current table. *)
Definition entry_object (r : row) : jsobject :=
  with_boolean_deprecated (row_object entries_columns r).

(* The rows of a category, as WHERE type = ? selects them. *)
Definition of_category (type : jsstring) (rows : list row) : list row :=
  filter (λ r, Is_true (sql_eq (cell entries_columns r "type") (SText type))) rows.

(* A store with two games and an application. *)
Definition library_rows : list row := [
  [SInt 1; SText (js "game"); SText (js "Sekiro"); SText (js "steam");
   SText (js "814380"); SText []; SText (js "data:image/jpeg;base64,AAAA");
   SInt 0; SInt 1700000000];
  [SInt 2; SText (js "app"); SText (js "Notes"); SText (js "exe");
   SText (js "C:/Apps/notes.exe"); SText (js "--safe"); SText (js "data:image/png;base64,BBBB");
   SInt 1; SInt 1700000500];
  [SInt 4; SText (js "game"); SText (js "Elden Ring"); SText (js "bat");
   SText (js "C:/Games/eldenring.bat"); SText []; SText (js "data:image/webp;base64,CCCC");
   SInt 0; SInt 1700000900]
].

Definition library_table : table :=
  {| t_columns := entries_columns; t_rows := library_rows; t_sequence := 4 |}.

Definition library_state : state :=
  {| db := Some (Connection "sqlite:kscope.db");
     disk := {[ "entries"%string := library_table ]};
     unixepoch := 1700001000 |}.

(* The category of a row is game or app, as the CHECK of the declaration
   has it. *)
Definition has_category (r : row) : Prop :=
  cell entries_columns r "type" = SText (js "game")
  ∨ cell entries_columns r "type" = SText (js "app").

(* What toggleDeprecated writes into a row: NOT of its flag, nothing else. *)
Definition toggled (old new : row) : Prop :=
  length new = length old
  ∧ cell entries_columns new "id" = cell entries_columns old "id"
  ∧ cell entries_columns new "type" = cell entries_columns old "type"
  ∧ cell entries_columns new "name" = cell entries_columns old "name"
  ∧ cell entries_columns new "launch_type" = cell entries_columns old "launch_type"
  ∧ cell entries_columns new "launch_data" = cell entries_columns old "launch_data"
  ∧ cell entries_columns new "launch_args" = cell entries_columns old "launch_args"
  ∧ cell entries_columns new "image_data" = cell entries_columns old "image_data"
  ∧ cell entries_columns new "created_at" = cell entries_columns old "created_at"
  ∧ match cell entries_columns old "deprecated" with
    | SInt n => cell entries_columns new "deprecated" = SInt (if n =? 0 then 1 else 0)
    | SNull => cell entries_columns new "deprecated" = SNull
    | SText _ => is_int (cell entries_columns new "deprecated") = true
    end.

(* A flag as the program writes it: 0, 1, or nothing. *)
Definition plain_flag (v : sqlvalue) : Prop :=
  v = SInt 0 ∨ v = SInt 1 ∨ v = SNull.

(* The store is ready: initDatabase has been through it. *)
Definition store_ready (st : state) : Prop := ∃ t, initialized st t.

(* A computation keeps a property of the state, whether it returns or
   throws. *)
Definition keeps {A} (P : state → Prop) (m : Store A) : Prop :=
  ∀ st, P st → P (snd (m st)).

(* A file initDatabase has nothing to do on: the table entries is there and
   is not of the legacy shape. *)
Definition settled (d : gmap string table) : Prop :=
  ∃ T, d !! "entries"%string = Some T
       ∧ t_columns T ≠ []
       ∧ includes (c_name <$> t_columns T) "bat_path"
         && negb (includes (c_name <$> t_columns T) "launch_type") = false.

(* The store initDatabase leaves when the copy of the legacy rows is refused:
   the legacy table under its new name, an empty current table, the handle
   set. *)
Definition stranded (st : state) (t : table) : state :=
  {| db := Some (Connection "sqlite:kscope.db");
     disk := <["entries"%string :=
                 {| t_columns := entries_columns; t_rows := []; t_sequence := 0 |}]>
               (<["entries_old"%string := t]> (delete "entries"%string (disk st)));
     unixepoch := unixepoch st |}.

(* A legacy table declared without constraints, holding a row with no name. *)
Definition plain_column (name : string) (ty : affinity) : column :=
  {| c_name := name; c_type := ty; c_primary_key := false; c_not_null := false;
     c_default := NoDefault; c_check_in := None |}.

Definition unchecked_table : table :=
  {| t_columns :=
       [ {| c_name := "id"; c_type := INTEGER; c_primary_key := true; c_not_null := false;
            c_default := NoDefault; c_check_in := None |};
         plain_column "type" TEXT; plain_column "name" TEXT; plain_column "bat_path" TEXT;
         plain_column "image_data" TEXT; plain_column "deprecated" INTEGER;
         plain_column "created_at" INTEGER ];
     t_rows :=
       [ [SInt 3; SText (js "game"); SText (js "Elden Ring");
          SText (js "C:/Games/eldenring.bat"); SText (js "data:image/jpeg;base64,AAAA");
          SInt 0; SInt 1700000000];
         [SInt 4; SText (js "game"); SNull; SText (js "C:/Games/hades.bat");
          SText (js "data:image/png;base64,CCCC"); SInt 0; SInt 1700000200] ];
     t_sequence := 0 |}.

Definition unchecked_state : state :=
  uninitialized {[ "entries"%string := unchecked_table ]} 1700001000.

#[global] Instance jsvalue_eq_dec : EqDecision jsvalue.
Proof. solve_decision. Defined.

(* games = games.filter(e => e.id !== id), what the page does to its list
   after a deletion. *)
Definition without_id (id : Z) (entries : list jsobject) : list jsobject :=
  filter (λ entry, obj_get entry "id" ≠ JNumber id) entries.

(* --- getFilenameFromPath -------------------------------------------------- *)

Definition SLASH : N := 47%N.
Definition BACKSLASH : N := 92%N.
Definition DOT : N := 46%N.

(* /[/\\]/ *)
Definition is_path_separator (c : N) : bool :=
  (c =? SLASH)%N || (c =? BACKSLASH)%N.

(* A lower-case ASCII letter of a pattern under the i flag: the letter itself
   or its upper-case form, 32 code units below. *)
Definition matches_letter (letter c : N) : bool :=
  (c =? letter)%N || (c =? letter - 32)%N.

(* \.ext against a whole string *)
Definition matches_extension (ext s : jsstring) : bool :=
  match s with
  | d :: rest =>
      (d =? DOT)%N && (length rest =? length ext)%nat
      && forallb (λ p, matches_letter (fst p) (snd p)) (zip ext rest)
  | [] => false
  end.

Definition script_extensions : list jsstring := [js "exe"; js "bat"; js "cmd"].

(* filename.replace(/\.(exe|bat|cmd)$/i, ""): the pattern is anchored at the
   end, so the only place it can match is the last four code units. *)
Definition strip_extension (filename : jsstring) : jsstring :=
  let tail := drop (length filename - 4) filename in
  if existsb (λ ext, matches_extension ext tail) script_extensions
  then take (length filename - 4) filename
  else filename.

Definition getFilenameFromPath (path : jsstring) : jsstring :=
  let parts := split_on is_path_separator path in
  let filename := match last parts with
                  | Some (c :: s) => c :: s
                  | _ => []
                  end in
  strip_extension filename.

(* An extension in any mix of upper and lower case. *)
Definition script_extension (ext : jsstring) : Prop :=
  ∃ word, word ∈ script_extensions
          ∧ Forall2 (λ letter c, c = letter ∨ c = (letter - 32)%N) word ext.

(* No code unit of the string is a path separator. *)
Definition plain_name (s : jsstring) : Prop :=
  Forall (λ c, is_path_separator c = false) s.

(* What is left of the text once the quotes and the separating spaces are
   taken out. *)
Definition argument_text (s : jsstring) : jsstring :=
  filter (λ c, c ≠ QUOTE)
    (fst <$> filter (λ m, ¬ Is_true (separator m)) (mark false s)).

(* An executable whose arguments are a single tab. *)
Definition blank_args_entry : Entry :=
  {| id := 5; type := js "app"; name := js "Notes"; launch_type := js "exe";
     launch_data := js "C:/Apps/notes.exe"; launch_args := [TAB];
     image_data := js "data:image/png;base64,BBBB"; deprecated := false;
     created_at := 1700000500 |}.

(* ========================================================================= *)
(* src/lib/logic.ts: the file helpers                                        *)
(* ========================================================================= *)

(* What openDialog is asked: the title and the extensions of the one filter
   (multiple and directory are false in every call). *)
Record dialog_options := {
  dialog_title : jsstring;
  dialog_extensions : list jsstring
}.

(* await of a promise that is settled by the outside world. *)
Definition await {A} (settled : completion A) : Action A := ([], settled).

Section FileHelpers.

(* The user's answer to openDialog(options): a path, null when the dialog is
   dismissed, or a rejection. *)
Variable openDialog : dialog_options → completion (option jsstring).

(* readFile(path): the bytes of the file, or a rejection. *)
Variable readFile : jsstring → completion (list N).

(* btoa and String.prototype.toLowerCase, which the platform provides. *)
Variable btoa : jsstring → jsstring.
Variable toLowerCase : jsstring → jsstring.

Definition pickExeFile : Action (option jsstring) :=
  playSound "hover";;
  selected ← await (openDialog {| dialog_title := js "Select Executable";
                                  dialog_extensions := [js "exe"] |});
  match selected with
  | Some path => mret (Some path)
  | None => mret None
  end.

Definition pickScriptFile : Action (option jsstring) :=
  playSound "hover";;
  selected ← await (openDialog {| dialog_title := js "Select Launch Script";
                                  dialog_extensions := [js "bat"; js "cmd"] |});
  match selected with
  | Some path => mret (Some path)
  | None => mret None
  end.

(* selected.split(".").pop()?.toLowerCase() || "png" *)
Definition image_extension (selected : jsstring) : jsstring :=
  let popped := match last (split_on (λ c, (c =? DOT)%N) selected) with
                | Some piece => toLowerCase piece
                | None => []
                end in
  if truthy popped then popped else js "png".

Definition mime_type (ext : jsstring) : jsstring :=
  let mimeType := js "image/png" in
  let mimeType := if bool_decide (ext = js "jpg") || bool_decide (ext = js "jpeg")
                  then js "image/jpeg" else mimeType in
  let mimeType := if bool_decide (ext = js "webp") then js "image/webp" else mimeType in
  let mimeType := if bool_decide (ext = js "gif") then js "image/gif" else mimeType in
  mimeType.

Definition pickImageFile : Action (option jsstring) :=
  playSound "hover";;
  selected ← await (openDialog {| dialog_title := js "Select Image";
                                  dialog_extensions :=
                                    [js "png"; js "jpg"; js "jpeg"; js "webp"; js "gif"] |});
  match selected with
  | None => mret None
  | Some selected =>
      try_catch
        (bytes ← await (readFile selected);
         (* String.fromCharCode(bytes[i]), byte after byte *)
         let binary : jsstring := bytes in
         let base64 := btoa binary in
         let ext := image_extension selected in
         mret (Some (js "data:" ++ mime_type ext ++ js ";base64," ++ base64)))
        (λ error,
           emit (ConsoleError "Image read failed:" (LoggedError error));;
           mret None)
  end.

End FileHelpers.

(* ========================================================================= *)
(* src/routes/+page.svelte: the script of the page                           *)
(* ========================================================================= *)

(* "games" | "apps" | "add" *)
Inductive tab := TabGames | TabApps | TabAdd.

#[global] Instance tab_eq_dec : EqDecision tab.
Proof. solve_decision. Defined.

(* The variables of the component.  The lists hold entries as the interface
   Entry types them; a grid element is represented by the
   grid-template-columns of its computed style, the one thing read from it. *)
Record page := Page {
  isOpen : bool;
  activeTab : tab;
  theme : jsstring;
  games : list Entry;
  apps : list Entry;
  launchingItem : option jsstring;
  formEntryType : jsstring;
  formLaunchType : jsstring;
  formName : jsstring;
  formLaunchData : jsstring;
  formLaunchArgs : jsstring;
  formImage : jsstring;
  formError : jsvalue;
  showSettings : bool;
  editingEntry : option Entry;
  selectedGameIndex : Z;
  selectedAppIndex : Z;
  gamesGridEl : option jsstring;
  appsGridEl : option jsstring
}.

Definition set_isOpen (v : bool) (p : page) : page :=
  {| isOpen := v; activeTab := activeTab p; theme := theme p; games := games p; apps :=
     apps p; launchingItem := launchingItem p; formEntryType := formEntryType p;
     formLaunchType := formLaunchType p; formName := formName p; formLaunchData :=
     formLaunchData p; formLaunchArgs := formLaunchArgs p; formImage := formImage p;
     formError := formError p; showSettings := showSettings p; editingEntry :=
     editingEntry p; selectedGameIndex := selectedGameIndex p; selectedAppIndex :=
     selectedAppIndex p; gamesGridEl := gamesGridEl p; appsGridEl := appsGridEl p |}.

Definition set_activeTab (v : tab) (p : page) : page :=
  {| isOpen := isOpen p; activeTab := v; theme := theme p; games := games p; apps :=
     apps p; launchingItem := launchingItem p; formEntryType := formEntryType p;
     formLaunchType := formLaunchType p; formName := formName p; formLaunchData :=
     formLaunchData p; formLaunchArgs := formLaunchArgs p; formImage := formImage p;
     formError := formError p; showSettings := showSettings p; editingEntry :=
     editingEntry p; selectedGameIndex := selectedGameIndex p; selectedAppIndex :=
     selectedAppIndex p; gamesGridEl := gamesGridEl p; appsGridEl := appsGridEl p |}.

Definition set_theme (v : jsstring) (p : page) : page :=
  {| isOpen := isOpen p; activeTab := activeTab p; theme := v; games := games p; apps :=
     apps p; launchingItem := launchingItem p; formEntryType := formEntryType p;
     formLaunchType := formLaunchType p; formName := formName p; formLaunchData :=
     formLaunchData p; formLaunchArgs := formLaunchArgs p; formImage := formImage p;
     formError := formError p; showSettings := showSettings p; editingEntry :=
     editingEntry p; selectedGameIndex := selectedGameIndex p; selectedAppIndex :=
     selectedAppIndex p; gamesGridEl := gamesGridEl p; appsGridEl := appsGridEl p |}.

Definition set_games (v : list Entry) (p : page) : page :=
  {| isOpen := isOpen p; activeTab := activeTab p; theme := theme p; games := v; apps :=
     apps p; launchingItem := launchingItem p; formEntryType := formEntryType p;
     formLaunchType := formLaunchType p; formName := formName p; formLaunchData :=
     formLaunchData p; formLaunchArgs := formLaunchArgs p; formImage := formImage p;
     formError := formError p; showSettings := showSettings p; editingEntry :=
     editingEntry p; selectedGameIndex := selectedGameIndex p; selectedAppIndex :=
     selectedAppIndex p; gamesGridEl := gamesGridEl p; appsGridEl := appsGridEl p |}.

Definition set_apps (v : list Entry) (p : page) : page :=
  {| isOpen := isOpen p; activeTab := activeTab p; theme := theme p; games := games p;
     apps := v; launchingItem := launchingItem p; formEntryType := formEntryType p;
     formLaunchType := formLaunchType p; formName := formName p; formLaunchData :=
     formLaunchData p; formLaunchArgs := formLaunchArgs p; formImage := formImage p;
     formError := formError p; showSettings := showSettings p; editingEntry :=
     editingEntry p; selectedGameIndex := selectedGameIndex p; selectedAppIndex :=
     selectedAppIndex p; gamesGridEl := gamesGridEl p; appsGridEl := appsGridEl p |}.

Definition set_launchingItem (v : option jsstring) (p : page) : page :=
  {| isOpen := isOpen p; activeTab := activeTab p; theme := theme p; games := games p;
     apps := apps p; launchingItem := v; formEntryType := formEntryType p;
     formLaunchType := formLaunchType p; formName := formName p; formLaunchData :=
     formLaunchData p; formLaunchArgs := formLaunchArgs p; formImage := formImage p;
     formError := formError p; showSettings := showSettings p; editingEntry :=
     editingEntry p; selectedGameIndex := selectedGameIndex p; selectedAppIndex :=
     selectedAppIndex p; gamesGridEl := gamesGridEl p; appsGridEl := appsGridEl p |}.

Definition set_formEntryType (v : jsstring) (p : page) : page :=
  {| isOpen := isOpen p; activeTab := activeTab p; theme := theme p; games := games p;
     apps := apps p; launchingItem := launchingItem p; formEntryType := v;
     formLaunchType := formLaunchType p; formName := formName p; formLaunchData :=
     formLaunchData p; formLaunchArgs := formLaunchArgs p; formImage := formImage p;
     formError := formError p; showSettings := showSettings p; editingEntry :=
     editingEntry p; selectedGameIndex := selectedGameIndex p; selectedAppIndex :=
     selectedAppIndex p; gamesGridEl := gamesGridEl p; appsGridEl := appsGridEl p |}.

Definition set_formLaunchType (v : jsstring) (p : page) : page :=
  {| isOpen := isOpen p; activeTab := activeTab p; theme := theme p; games := games p;
     apps := apps p; launchingItem := launchingItem p; formEntryType := formEntryType p;
     formLaunchType := v; formName := formName p; formLaunchData := formLaunchData p;
     formLaunchArgs := formLaunchArgs p; formImage := formImage p; formError :=
     formError p; showSettings := showSettings p; editingEntry := editingEntry p;
     selectedGameIndex := selectedGameIndex p; selectedAppIndex := selectedAppIndex p;
     gamesGridEl := gamesGridEl p; appsGridEl := appsGridEl p |}.

Definition set_formName (v : jsstring) (p : page) : page :=
  {| isOpen := isOpen p; activeTab := activeTab p; theme := theme p; games := games p;
     apps := apps p; launchingItem := launchingItem p; formEntryType := formEntryType p;
     formLaunchType := formLaunchType p; formName := v; formLaunchData := formLaunchData
     p; formLaunchArgs := formLaunchArgs p; formImage := formImage p; formError :=
     formError p; showSettings := showSettings p; editingEntry := editingEntry p;
     selectedGameIndex := selectedGameIndex p; selectedAppIndex := selectedAppIndex p;
     gamesGridEl := gamesGridEl p; appsGridEl := appsGridEl p |}.

Definition set_formLaunchData (v : jsstring) (p : page) : page :=
  {| isOpen := isOpen p; activeTab := activeTab p; theme := theme p; games := games p;
     apps := apps p; launchingItem := launchingItem p; formEntryType := formEntryType p;
     formLaunchType := formLaunchType p; formName := formName p; formLaunchData := v;
     formLaunchArgs := formLaunchArgs p; formImage := formImage p; formError :=
     formError p; showSettings := showSettings p; editingEntry := editingEntry p;
     selectedGameIndex := selectedGameIndex p; selectedAppIndex := selectedAppIndex p;
     gamesGridEl := gamesGridEl p; appsGridEl := appsGridEl p |}.

Definition set_formLaunchArgs (v : jsstring) (p : page) : page :=
  {| isOpen := isOpen p; activeTab := activeTab p; theme := theme p; games := games p;
     apps := apps p; launchingItem := launchingItem p; formEntryType := formEntryType p;
     formLaunchType := formLaunchType p; formName := formName p; formLaunchData :=
     formLaunchData p; formLaunchArgs := v; formImage := formImage p; formError :=
     formError p; showSettings := showSettings p; editingEntry := editingEntry p;
     selectedGameIndex := selectedGameIndex p; selectedAppIndex := selectedAppIndex p;
     gamesGridEl := gamesGridEl p; appsGridEl := appsGridEl p |}.

Definition set_formImage (v : jsstring) (p : page) : page :=
  {| isOpen := isOpen p; activeTab := activeTab p; theme := theme p; games := games p;
     apps := apps p; launchingItem := launchingItem p; formEntryType := formEntryType p;
     formLaunchType := formLaunchType p; formName := formName p; formLaunchData :=
     formLaunchData p; formLaunchArgs := formLaunchArgs p; formImage := v; formError :=
     formError p; showSettings := showSettings p; editingEntry := editingEntry p;
     selectedGameIndex := selectedGameIndex p; selectedAppIndex := selectedAppIndex p;
     gamesGridEl := gamesGridEl p; appsGridEl := appsGridEl p |}.

Definition set_formError (v : jsvalue) (p : page) : page :=
  {| isOpen := isOpen p; activeTab := activeTab p; theme := theme p; games := games p;
     apps := apps p; launchingItem := launchingItem p; formEntryType := formEntryType p;
     formLaunchType := formLaunchType p; formName := formName p; formLaunchData :=
     formLaunchData p; formLaunchArgs := formLaunchArgs p; formImage := formImage p;
     formError := v; showSettings := showSettings p; editingEntry := editingEntry p;
     selectedGameIndex := selectedGameIndex p; selectedAppIndex := selectedAppIndex p;
     gamesGridEl := gamesGridEl p; appsGridEl := appsGridEl p |}.

Definition set_showSettings (v : bool) (p : page) : page :=
  {| isOpen := isOpen p; activeTab := activeTab p; theme := theme p; games := games p;
     apps := apps p; launchingItem := launchingItem p; formEntryType := formEntryType p;
     formLaunchType := formLaunchType p; formName := formName p; formLaunchData :=
     formLaunchData p; formLaunchArgs := formLaunchArgs p; formImage := formImage p;
     formError := formError p; showSettings := v; editingEntry := editingEntry p;
     selectedGameIndex := selectedGameIndex p; selectedAppIndex := selectedAppIndex p;
     gamesGridEl := gamesGridEl p; appsGridEl := appsGridEl p |}.

Definition set_editingEntry (v : option Entry) (p : page) : page :=
  {| isOpen := isOpen p; activeTab := activeTab p; theme := theme p; games := games p;
     apps := apps p; launchingItem := launchingItem p; formEntryType := formEntryType p;
     formLaunchType := formLaunchType p; formName := formName p; formLaunchData :=
     formLaunchData p; formLaunchArgs := formLaunchArgs p; formImage := formImage p;
     formError := formError p; showSettings := showSettings p; editingEntry := v;
     selectedGameIndex := selectedGameIndex p; selectedAppIndex := selectedAppIndex p;
     gamesGridEl := gamesGridEl p; appsGridEl := appsGridEl p |}.

Definition set_selectedGameIndex (v : Z) (p : page) : page :=
  {| isOpen := isOpen p; activeTab := activeTab p; theme := theme p; games := games p;
     apps := apps p; launchingItem := launchingItem p; formEntryType := formEntryType p;
     formLaunchType := formLaunchType p; formName := formName p; formLaunchData :=
     formLaunchData p; formLaunchArgs := formLaunchArgs p; formImage := formImage p;
     formError := formError p; showSettings := showSettings p; editingEntry :=
     editingEntry p; selectedGameIndex := v; selectedAppIndex := selectedAppIndex p;
     gamesGridEl := gamesGridEl p; appsGridEl := appsGridEl p |}.

Definition set_selectedAppIndex (v : Z) (p : page) : page :=
  {| isOpen := isOpen p; activeTab := activeTab p; theme := theme p; games := games p;
     apps := apps p; launchingItem := launchingItem p; formEntryType := formEntryType p;
     formLaunchType := formLaunchType p; formName := formName p; formLaunchData :=
     formLaunchData p; formLaunchArgs := formLaunchArgs p; formImage := formImage p;
     formError := formError p; showSettings := showSettings p; editingEntry :=
     editingEntry p; selectedGameIndex := selectedGameIndex p; selectedAppIndex := v;
     gamesGridEl := gamesGridEl p; appsGridEl := appsGridEl p |}.

Definition set_gamesGridEl (v : option jsstring) (p : page) : page :=
  {| isOpen := isOpen p; activeTab := activeTab p; theme := theme p; games := games p;
     apps := apps p; launchingItem := launchingItem p; formEntryType := formEntryType p;
     formLaunchType := formLaunchType p; formName := formName p; formLaunchData :=
     formLaunchData p; formLaunchArgs := formLaunchArgs p; formImage := formImage p;
     formError := formError p; showSettings := showSettings p; editingEntry :=
     editingEntry p; selectedGameIndex := selectedGameIndex p; selectedAppIndex :=
     selectedAppIndex p; gamesGridEl := v; appsGridEl := appsGridEl p |}.

Definition set_appsGridEl (v : option jsstring) (p : page) : page :=
  {| isOpen := isOpen p; activeTab := activeTab p; theme := theme p; games := games p;
     apps := apps p; launchingItem := launchingItem p; formEntryType := formEntryType p;
     formLaunchType := formLaunchType p; formName := formName p; formLaunchData :=
     formLaunchData p; formLaunchArgs := formLaunchArgs p; formImage := formImage p;
     formError := formError p; showSettings := showSettings p; editingEntry :=
     editingEntry p; selectedGameIndex := selectedGameIndex p; selectedAppIndex :=
     selectedAppIndex p; gamesGridEl := gamesGridEl p; appsGridEl := v |}.

(* The variables as the script declares them. *)
Definition initial_page : page :=
  {| isOpen := false; activeTab := TabGames; theme := js "tech"; games := []; apps := [];
     launchingItem := None; formEntryType := js "game"; formLaunchType := js "steam";
     formName := []; formLaunchData := []; formLaunchArgs := []; formImage := [];
     formError := JString []; showSettings := false; editingEntry := None;
     selectedGameIndex := 0; selectedAppIndex := 0; gamesGridEl := None;
     appsGridEl := None |}.

(* What a handler of the page does besides changing the variables. *)
Inductive page_event :=
| FromLogic (e : event)
| PreventDefault
| PageConsoleError (e : exn)
| CallHandleLaunch (item : Entry).

(* AppLogic.playSound(name), seen from the page *)
Definition page_sound (sound : string) : list page_event :=
  FromLogic <$> trace (playSound sound).

(* The object a store function returns, as the interface Entry types it:
   nothing when a property is not of the declared type. *)
Definition as_number (v : jsvalue) : option Z :=
  match v with
  | JNumber n => Some n
  | _ => None
  end.

Definition as_string (v : jsvalue) : option jsstring :=
  match v with
  | JString s => Some s
  | _ => None
  end.

Definition as_boolean (v : jsvalue) : option bool :=
  match v with
  | JBoolean b => Some b
  | _ => None
  end.

Definition as_Entry (o : jsobject) : option Entry :=
  i ← as_number (obj_get o "id");
  t ← as_string (obj_get o "type");
  n ← as_string (obj_get o "name");
  lt ← as_string (obj_get o "launch_type");
  ld ← as_string (obj_get o "launch_data");
  la ← as_string (obj_get o "launch_args");
  im ← as_string (obj_get o "image_data");
  d ← as_boolean (obj_get o "deprecated");
  c ← as_number (obj_get o "created_at");
  Some {| id := i; type := t; name := n; launch_type := lt; launch_data := ld;
          launch_args := la; image_data := im; deprecated := d; created_at := c |}.

(* try { body } catch (e) { handler e }, around calls of the store *)
Definition Store_try {A} (body : Store A) (handler : exn → Store A) : Store A :=
  λ st, match body st with
        | (Returned a, st') => (Returned a, st')
        | (Threw e, st') => handler e st'
        end.

(* if (!launchingItem) *)
Definition nothing_launching (p : page) : bool :=
  match launchingItem p with
  | None => true
  | Some itemName => negb (truthy itemName)
  end.

Definition isEditing (p : page) : bool :=
  match editingEntry p with
  | Some _ => true
  | None => false
  end.

Definition startEdit (entry : Entry) (p : page) : page * list page_event :=
  let p := set_editingEntry (Some entry) p in
  let p := set_formEntryType (type entry) p in
  let p := set_formLaunchType (launch_type entry) p in
  let p := set_formName (name entry) p in
  let p := set_formLaunchData (launch_data entry) p in
  let p := set_formLaunchArgs (if truthy (launch_args entry) then launch_args entry else []) p in
  let p := set_formImage (image_data entry) p in
  let p := set_formError (JString []) p in
  let p := set_activeTab TabAdd p in
  (p, page_sound "switch").

Definition clearForm (p : page) : page :=
  let p := set_editingEntry None p in
  let p := set_formName [] p in
  let p := set_formLaunchData [] p in
  let p := set_formLaunchArgs [] p in
  let p := set_formImage [] p in
  set_formError (JString []) p.

Definition cancelEdit (p : page) : page * list page_event :=
  let p := clearForm p in
  let p := set_activeTab (if bool_decide (formEntryType p = js "game")
                          then TabGames else TabApps) p in
  (p, page_sound "switch").

(* The switch falls through to the end of the function for any other launch
   type, and the function returns undefined. *)
Definition getDataFieldError (p : page) : jsvalue :=
  if bool_decide (formLaunchType p = js "steam") then
    JString (js "Please enter a Steam App ID.")
  else if bool_decide (formLaunchType p = js "exe") then
    JString (js "Please select an executable.")
  else if bool_decide (formLaunchType p = js "url") then
    JString (js "Please enter a URL.")
  else if bool_decide (formLaunchType p = js "bat") then
    JString (js "Please select a batch script.")
  else JUndefined.

(* /^\d+$/.test(s) *)
Definition all_digits (s : jsstring) : bool := truthy s && forallb is_digit s.

(* The handler returns nothing when the object addEntry resolved with is not
   an Entry: what the page does with such an object is not modelled. *)
Definition handleSaveEntry (p : page) : Store (option (page * list page_event)) :=
  if negb (truthy (trim (formName p))) then
    mret (Some (set_formError (JString (js "Please enter a name.")) p, []))
  else if negb (truthy (trim (formLaunchData p))) then
    mret (Some (set_formError (getDataFieldError p) p, []))
  else if negb (truthy (formImage p)) then
    mret (Some (set_formError (JString (js "Please select an image.")) p, []))
  else if bool_decide (formLaunchType p = js "steam")
          && negb (all_digits (trim (formLaunchData p))) then
    mret (Some (set_formError
                  (JString (js "Steam App ID must be a number (e.g., 1245620).")) p, []))
  else
    Store_try
      (match editingEntry p with
       | Some editing =>
           updateEntry (id editing) (trim (formName p)) (formLaunchType p)
             (trim (formLaunchData p)) (trim (formLaunchArgs p)) (formImage p);;
           let updatedEntry :=
             {| id := id editing; type := type editing; name := trim (formName p);
                launch_type := formLaunchType p; launch_data := trim (formLaunchData p);
                launch_args := trim (formLaunchArgs p); image_data := formImage p;
                deprecated := deprecated editing; created_at := created_at editing |} in
           let p :=
             if bool_decide (type editing = js "game") then
               set_activeTab TabGames
                 (set_games ((λ g, if bool_decide (id g = id editing)
                                   then updatedEntry else g) <$> games p) p)
             else
               set_activeTab TabApps
                 (set_apps ((λ a, if bool_decide (id a = id editing)
                                  then updatedEntry else a) <$> apps p) p) in
           mret (Some (clearForm p, page_sound "launch"))
       | None =>
           newEntry ← addEntry (formEntryType p) (trim (formName p)) (formLaunchType p)
                        (trim (formLaunchData p)) (trim (formLaunchArgs p)) (formImage p);
           match as_Entry newEntry with
           | Some newEntry =>
               let p :=
                 if bool_decide (formEntryType p = js "game") then
                   set_activeTab TabGames (set_games (newEntry :: games p) p)
                 else
                   set_activeTab TabApps (set_apps (newEntry :: apps p) p) in
               mret (Some (clearForm p, page_sound "switch"))
           | None => mret None
           end
       end)
      (λ e, mret (Some (set_formError (JString (js "Database error: Could not save.")) p,
                        [PageConsoleError e]))).

(* confirmed is the user's answer to confirm("Delete " + entry.name + "?"). *)
Definition handleDelete (confirmed : bool) (entry : Entry) (p : page)
    : Store (page * list page_event) :=
  if negb confirmed then mret (p, [])
  else
    deleteEntry (id entry);;
    let p :=
      if bool_decide (type entry = js "game") then
        let p := set_games (filter (λ g, id g ≠ id entry) (games p)) p in
        if (Z.of_nat (length (games p)) <=? selectedGameIndex p)%Z then
          set_selectedGameIndex (Z.max 0 (Z.of_nat (length (games p)) - 1)) p
        else p
      else
        let p := set_apps (filter (λ a, id a ≠ id entry) (apps p)) p in
        if (Z.of_nat (length (apps p)) <=? selectedAppIndex p)%Z then
          set_selectedAppIndex (Z.max 0 (Z.of_nat (length (apps p)) - 1)) p
        else p in
    mret (p, page_sound "launch").

(* --- keyboard navigation -------------------------------------------------- *)

Inductive event_target := HTMLInputElement | HTMLTextAreaElement | OtherTarget.

Record KeyboardEvent := {
  target : event_target;
  key : string;
  shiftKey : bool
}.

Definition getGridColumns (p : page) : Z :=
  let gridEl := if bool_decide (activeTab p = TabGames) then gamesGridEl p
                else appsGridEl p in
  match gridEl with
  | None => 4
  | Some gridTemplateColumns =>
      let columns :=
        Z.of_nat (length (split_on (λ c, (c =? SPACE)%N) gridTemplateColumns)) in
      if (columns =? 0)%Z then 4 else columns
  end.

(* items[selectedIndex] *)
Definition item_at (items : list Entry) (selectedIndex : Z) : option Entry :=
  if (selectedIndex <? 0)%Z then None else items !! Z.to_nat selectedIndex.

(* handleLaunch(item) is called and not awaited: the call is an event here,
   and what it does is handleLaunch below. *)
Definition handleKeyDown (e : KeyboardEvent) (p : page) : page * list page_event :=
  match target e with
  | HTMLInputElement | HTMLTextAreaElement => (p, [])
  | OtherTarget =>
      if showSettings p then (p, [])
      else if String.eqb (key e) "Escape" then
        if isOpen p then
          (set_isOpen false p, PreventDefault :: (FromLogic <$> trace (toggleWindow true)))
        else (p, [PreventDefault])
      else if String.eqb (key e) "Tab" && negb (bool_decide (activeTab p = TabAdd)) then
        let p :=
          if shiftKey e then
            set_activeTab (if bool_decide (activeTab p = TabGames)
                           then TabApps else TabGames) p
          else
            set_activeTab (if bool_decide (activeTab p = TabGames)
                           then TabApps else TabGames) p in
        (p, PreventDefault :: page_sound "switch")
      else if bool_decide (activeTab p = TabAdd) then (p, [])
      else
        let items := if bool_decide (activeTab p = TabGames) then games p else apps p in
        let selectedIndex := if bool_decide (activeTab p = TabGames)
                             then selectedGameIndex p else selectedAppIndex p in
        let setSelectedIndex (i : Z) :=
          if bool_decide (activeTab p = TabGames) then set_selectedGameIndex i p
          else set_selectedAppIndex i p in
        if (length items =? 0)%nat then (p, [])
        else
          let cols := getGridColumns p in
          if String.eqb (key e) "ArrowRight" then
            if (selectedIndex <? Z.of_nat (length items) - 1)%Z then
              (setSelectedIndex (selectedIndex + 1)%Z, PreventDefault :: page_sound "hover")
            else (p, [PreventDefault])
          else if String.eqb (key e) "ArrowLeft" then
            if (0 <? selectedIndex)%Z then
              (setSelectedIndex (selectedIndex - 1)%Z, PreventDefault :: page_sound "hover")
            else (p, [PreventDefault])
          else if String.eqb (key e) "ArrowDown" then
            if (selectedIndex + cols <? Z.of_nat (length items))%Z then
              (setSelectedIndex (selectedIndex + cols)%Z,
               PreventDefault :: page_sound "hover")
            else (p, [PreventDefault])
          else if String.eqb (key e) "ArrowUp" then
            if (0 <=? selectedIndex - cols)%Z then
              (setSelectedIndex (selectedIndex - cols)%Z,
               PreventDefault :: page_sound "hover")
            else (p, [PreventDefault])
          else if String.eqb (key e) "Enter" then
            match item_at items selectedIndex with
            | Some item =>
                if nothing_launching p then (p, [PreventDefault; CallHandleLaunch item])
                else (p, [PreventDefault])
            | None => (p, [PreventDefault])
            end
          else (p, [])
  end.

Definition switchTab (t : tab) (p : page) : page * list page_event :=
  let p := if bool_decide (activeTab p = TabAdd) && negb (bool_decide (t = TabAdd))
              && isEditing p
           then clearForm p else p in
  let p := set_activeTab t p in
  let p := if bool_decide (t = TabGames) then set_selectedGameIndex 0 p else p in
  let p := if bool_decide (t = TabApps) then set_selectedAppIndex 0 p else p in
  (p, page_sound "switch").

Definition switchLaunchType (type : jsstring) (p : page) : page * list page_event :=
  if bool_decide (formLaunchType p ≠ type) then
    let p := set_formLaunchType type p in
    let p := set_formLaunchData [] p in
    let p := set_formLaunchArgs [] p in
    (p, page_sound "switch")
  else (p, []).

Section PageAndLogic.

Variable shell : jsstring → list jsstring → bool.
Variable openDialog : dialog_options → completion (option jsstring).
Variable readFile : jsstring → completion (list N).
Variable btoa : jsstring → jsstring.
Variable toLowerCase : jsstring → jsstring.

(* The handler run from its call to its end, the await included. *)
Definition handleLaunch (item : Entry) (p : page) : Action page :=
  let p := set_launchingItem (Some (name item)) p in
  launchEntry shell item;;
  let p := set_launchingItem None p in
  mret (set_isOpen false p).

Definition handleBrowseExe (p : page) : Action page :=
  path ← pickExeFile openDialog;
  match path with
  | Some (c :: s) =>
      let path := c :: s in
      let p := set_formLaunchData path p in
      if negb (truthy (formName p)) then mret (set_formName (getFilenameFromPath path) p)
      else mret p
  | _ => mret p
  end.

Definition handleBrowseScript (p : page) : Action page :=
  path ← pickScriptFile openDialog;
  match path with
  | Some (c :: s) =>
      let path := c :: s in
      let p := set_formLaunchData path p in
      if negb (truthy (formName p)) then mret (set_formName (getFilenameFromPath path) p)
      else mret p
  | _ => mret p
  end.

Definition handleBrowseImage (p : page) : Action page :=
  base64 ← pickImageFile openDialog readFile btoa toLowerCase;
  match base64 with
  | Some (c :: s) => mret (set_formImage (c :: s) p)
  | _ => mret p
  end.

End PageAndLogic.

(* ========================================================================= *)
(* The page: vocabulary of the statements                                    *)
(* ========================================================================= *)

(* An entry as the store hands it out. *)
Definition Entry_object (e : Entry) : jsobject :=
  [("id"%string, JNumber (id e)); ("type"%string, JString (type e));
   ("name"%string, JString (name e)); ("launch_type"%string, JString (launch_type e));
   ("launch_data"%string, JString (launch_data e));
   ("launch_args"%string, JString (launch_args e));
   ("image_data"%string, JString (image_data e));
   ("deprecated"%string, JBoolean (deprecated e));
   ("created_at"%string, JNumber (created_at e))].

(* The lists of the page are, up to order, the lists of the store. *)
Definition shows (p : page) (st : state) : Prop :=
  ∃ listed_games listed_apps,
    getGames st = (Returned listed_games, st)
    ∧ getApps st = (Returned listed_apps, st)
    ∧ Entry_object <$> games p ≡ₚ listed_games
    ∧ Entry_object <$> apps p ≡ₚ listed_apps.

(* Each selected index points into its list, or is 0 when the list is
   empty. *)
Definition selection_in_bounds (p : page) : Prop :=
  (0 ≤ selectedGameIndex p ≤ Z.max 0 (Z.of_nat (length (games p)) - 1))%Z
  ∧ (0 ≤ selectedAppIndex p ≤ Z.max 0 (Z.of_nat (length (apps p)) - 1))%Z.

(* A form the validation of handleSaveEntry turns down, and one it lets
   through. *)
Definition incomplete (p : page) : Prop :=
  trim (formName p) = []
  ∨ trim (formLaunchData p) = []
  ∨ formImage p = []
  ∨ (formLaunchType p = js "steam" ∧ all_digits (trim (formLaunchData p)) = false).

Definition complete (p : page) : Prop :=
  trim (formName p) ≠ []
  ∧ trim (formLaunchData p) ≠ []
  ∧ formImage p ≠ []
  ∧ (formLaunchType p = js "steam" → all_digits (trim (formLaunchData p)) = true).

(* The page over the sample library, the second game selected. *)
Definition library_page : page :=
  set_selectedGameIndex 1
    (set_apps
       [{| id := 2; type := js "app"; name := js "Notes"; launch_type := js "exe";
           launch_data := js "C:/Apps/notes.exe"; launch_args := js "--safe";
           image_data := js "data:image/png;base64,BBBB"; deprecated := true;
           created_at := 1700000500 |}]
       (set_games
          [{| id := 4; type := js "game"; name := js "Elden Ring"; launch_type := js "bat";
              launch_data := js "C:/Games/eldenring.bat"; launch_args := [];
              image_data := js "data:image/webp;base64,CCCC"; deprecated := false;
              created_at := 1700000900 |};
           {| id := 1; type := js "game"; name := js "Sekiro"; launch_type := js "steam";
              launch_data := js "814380"; launch_args := [];
              image_data := js "data:image/jpeg;base64,AAAA"; deprecated := false;
              created_at := 1700000000 |}]
          initial_page)).

(* The same page with the form filled in for a new Steam game, the name and
   the application id typed with spaces around them. *)
Definition filled_page : page :=
  set_formImage (js "data:image/png;base64,DDDD")
    (set_formLaunchData (js " 1145360 ")
       (set_formName (js " Hades ") (set_activeTab TabAdd library_page))).



Definition mime_types : list jsstring :=
  [js "image/png"; js "image/jpeg"; js "image/webp"; js "image/gif"].

(* A dialog in which the user picks the same file whatever is asked, and one
   the user dismisses. *)
Definition picking (path : jsstring) : dialog_options → completion (option jsstring) :=
  λ _, Returned (Some path).

Definition dismissing : dialog_options → completion (option jsstring) :=
  λ _, Returned None.

(* The three dialogs the file helpers open. *)
Definition exe_dialog : dialog_options :=
  {| dialog_title := js "Select Executable"; dialog_extensions := [js "exe"] |}.

Definition script_dialog : dialog_options :=
  {| dialog_title := js "Select Launch Script"; dialog_extensions := [js "bat"; js "cmd"] |}.

Definition image_dialog : dialog_options :=
  {| dialog_title := js "Select Image";
     dialog_extensions := [js "png"; js "jpg"; js "jpeg"; js "webp"; js "gif"] |}.

(* What an update does to an object of the list: the five properties are
   overwritten when the id is the one given. *)
Definition updated_object (i : Z) (name launchType launchData launchArgs imageData : jsstring)
    (o : jsobject) : jsobject :=
  if bool_decide (obj_get o "id" = JNumber i) then
    obj_set (obj_set (obj_set (obj_set (obj_set o "name" (JString name))
                                 "launch_type" (JString launchType))
                        "launch_data" (JString launchData))
               "launch_args" (JString launchArgs))
      "image_data" (JString imageData)
  else o.

(* The page with the second game taken up for editing and renamed. *)
Definition editing_page : page :=
  set_formName (js "Sekiro: Shadows Die Twice ")
    (fst (startEdit
            {| id := 1; type := js "game"; name := js "Sekiro"; launch_type := js "steam";
               launch_data := js "814380"; launch_args := [];
               image_data := js "data:image/jpeg;base64,AAAA"; deprecated := false;
               created_at := 1700000000 |}
            library_page)).

(* What UPDATE ... WHERE id = i does to a row of the current table. *)
Definition updated_row (i : Z) (name launchType launchData launchArgs imageData : jsstring)
    (r : row) : row :=
  if sql_eq (cell entries_columns r "id") (SInt i)
  then [cell entries_columns r "id"; cell entries_columns r "type";
        SText name; SText launchType; SText launchData; SText launchArgs;
        SText imageData; cell entries_columns r "deprecated";
        cell entries_columns r "created_at"]
  else r.

(* The entry handleSaveEntry makes of the form on a store whose table is t at
   the time now, and the row the store keeps of it. *)
Definition form_entry (p : page) (t : table) (now : Z) : Entry :=
  {| id := next_rowid t; type := formEntryType p; name := trim (formName p);
     launch_type := formLaunchType p; launch_data := trim (formLaunchData p);
     launch_args := trim (formLaunchArgs p); image_data := formImage p;
     deprecated := false; created_at := now |}.

Definition form_row (p : page) (t : table) (now : Z) : row :=
  [SInt (next_rowid t); SText (formEntryType p); SText (trim (formName p));
   SText (formLaunchType p); SText (trim (formLaunchData p));
   SText (trim (formLaunchArgs p)); SText (formImage p); SInt 0; SInt now].

(* ========================================================================= *)
(* Theorems                                                                  *)
(* ========================================================================= *)

(* --- parseArgs ------------------------------------------------------------ *)

Lemma filter_truthy_cons (w : jsstring) (ws : list jsstring) :
  filter (λ w, Is_true (truthy w)) (w :: ws)
  = if truthy w then w :: filter (λ w, Is_true (truthy w)) ws
    else filter (λ w, Is_true (truthy w)) ws.
Proof.
  rewrite filter_cons. destruct (truthy w) eqn:E; case_decide; simpl in *; done.
Qed.

Lemma truthy_snoc (w : jsstring) (c : N) : truthy (w ++ [c]) = true.
Proof. by destruct w. Qed.

Lemma truthy_app_cons (w v : jsstring) (c : N) : truthy (w ++ c :: v) = true.
Proof. by destruct w. Qed.

Lemma parse_finish_args (a : list jsstring) (cur : jsstring) (q : bool) :
  parse_finish {| args := a; current := cur; inQuotes := q |}
  = a ++ filter (λ w, Is_true (truthy w)) [cur].
Proof.
  unfold parse_finish. simpl. rewrite filter_truthy_cons.
  destruct (truthy cur); simpl; [done | by rewrite app_nil_r].
Qed.

(* The loop, started in any state, against the pieces of what is left to
   read: the word under construction continues into the first piece. *)
Lemma parse_loop_pieces (s : jsstring) : ∀ p : parser,
  ∃ w ws,
    strip_quotes <$> split_on separator (mark (inQuotes p) s) = w :: ws
    ∧ parse_finish (fold_left parse_char s p)
      = args p ++ filter (λ w, Is_true (truthy w)) ((current p ++ w) :: ws).
Proof.
  induction s as [|c s IH]; intros [a cur q].
  - exists [], []. split; [done|]. simpl. rewrite app_nil_r. apply parse_finish_args.
  - simpl fold_left. simpl mark. unfold parse_char at 2. simpl args. simpl current.
    simpl inQuotes.
    destruct (c =? QUOTE)%N eqn:Eq.
    + apply N.eqb_eq in Eq. subst c.
      destruct (IH {| args := a; current := cur; inQuotes := negb q |})
        as (w & ws & Hp & Hf).
      simpl in Hp, Hf.
      cbn [split_on]. change (separator (QUOTE, q)) with false. cbn iota.
      destruct (split_on separator (mark (negb q) s)) as [|piece pieces] eqn:Es;
        [discriminate|].
      simpl in Hp. injection Hp as Hw Hws.
      exists w, ws. split; [|exact Hf].
      rewrite fmap_cons. f_equal; [|done].
      unfold strip_quotes in *. rewrite fmap_cons, filter_cons. simpl fst.
      case_decide; [done|exact Hw].
    + apply N.eqb_neq in Eq.
      destruct ((c =? SPACE)%N && negb q) eqn:Esep.
      * apply andb_true_iff in Esep as [Ec Hq]. apply N.eqb_eq in Ec. subst c.
        apply negb_true_iff in Hq. subst q.
        cbn [split_on]. change (separator (SPACE, false)) with true. cbn iota.
        exists [], (strip_quotes <$> split_on separator (mark false s)).
        split; [done|]. rewrite app_nil_r.
        destruct (truthy cur) eqn:Ecur.
        -- destruct (IH {| args := a ++ [cur]; current := []; inQuotes := false |})
             as (w & ws & Hp & Hf).
           simpl in Hp, Hf. rewrite Hf, Hp.
           rewrite (filter_truthy_cons cur), Ecur. by rewrite <- app_assoc.
        -- destruct (IH {| args := a; current := cur; inQuotes := false |})
             as (w & ws & Hp & Hf).
           simpl in Hp, Hf. rewrite Hf, Hp.
           rewrite (filter_truthy_cons cur), Ecur.
           destruct cur; [done | discriminate].
      * destruct (IH {| args := a; current := cur ++ [c]; inQuotes := q |})
          as (w & ws & Hp & Hf).
        simpl in Hp, Hf.
        cbn [split_on]. replace (separator (c, q)) with false by done.
        destruct (split_on separator (mark q s)) as [|piece pieces] eqn:Es;
          [discriminate|].
        simpl in Hp. injection Hp as Hw Hws.
        exists (c :: w), ws. split.
        -- rewrite fmap_cons. f_equal; [|done].
           unfold strip_quotes in *. rewrite fmap_cons, filter_cons. simpl fst.
           case_decide; [by f_equal | done].
        -- rewrite Hf. by rewrite <- app_assoc.
Qed.

(* The one-pass loop computes the split at spaces outside quotes. *)
Lemma parseArgs_split (s : jsstring) : parseArgs s = split_outside_quotes s.
Proof.
  unfold parseArgs, split_outside_quotes.
  destruct (parse_loop_pieces s parse_start) as (w & ws & Hp & Hf).
  simpl in Hp, Hf. by rewrite Hf, Hp.
Qed.

Lemma parse_char_quoted (run : jsstring) : ∀ (a : list jsstring) (cur : jsstring),
  QUOTE ∉ run →
  fold_left parse_char run {| args := a; current := cur; inQuotes := true |}
  = {| args := a; current := cur ++ run; inQuotes := true |}.
Proof.
  induction run as [|c run IH]; intros a cur Hq.
  - by rewrite app_nil_r.
  - apply not_elem_of_cons in Hq as [Hc Hrun].
    simpl fold_left. unfold parse_char at 2. simpl.
    replace (c =? QUOTE)%N with false by (symmetry; apply N.eqb_neq; congruence).
    rewrite andb_false_r, IH by done. by rewrite <- app_assoc.
Qed.

Lemma parse_loop_inQuotes (s : jsstring) : ∀ p : parser,
  inQuotes (fold_left parse_char s p) = xorb (inQuotes p) (Nat.odd (quotes s)).
Proof.
  induction s as [|c s IH]; intros p.
  - simpl. by rewrite xorb_false_r.
  - simpl fold_left. rewrite IH. unfold quotes. rewrite filter_cons.
    unfold parse_char. destruct (c =? QUOTE)%N eqn:Eq.
    + apply N.eqb_eq in Eq. subst c. rewrite decide_True by done.
      simpl length. rewrite Nat.odd_succ, <- Nat.negb_odd. simpl.
      by destruct (inQuotes p), (Nat.odd _).
    + apply N.eqb_neq in Eq. rewrite decide_False by done.
      by destruct ((c =? SPACE)%N && negb (inQuotes p)), (truthy (current p)).
Qed.

(* A space outside quotes ends the argument before it and starts afresh. *)
Lemma parseArgs_space (a b : jsstring) :
  Nat.even (quotes a) = true →
  parseArgs (a ++ SPACE :: b) = parseArgs a ++ parseArgs b.
Proof.
  intros Heven. unfold parseArgs at 1 2.
  rewrite fold_left_app. simpl fold_left.
  pose proof (parse_loop_inQuotes a parse_start) as Hq.
  rewrite <- Nat.negb_even, Heven in Hq. simpl in Hq.
  destruct (fold_left parse_char a parse_start) as [aa cur q]. simpl in Hq. subst q.
  set (p1 := parse_char _ SPACE).
  assert (p1 = {| args := parse_finish {| args := aa; current := cur; inQuotes := false |};
                  current := []; inQuotes := false |}) as ->.
  { unfold p1, parse_char, parse_finish. simpl. by destruct cur. }
  destruct (parse_loop_pieces b
    {| args := parse_finish {| args := aa; current := cur; inQuotes := false |};
       current := []; inQuotes := false |}) as (w & ws & Hp & Hf).
  simpl in Hp, Hf. rewrite Hf. f_equal.
  rewrite parseArgs_split. unfold split_outside_quotes. by rewrite Hp.
Qed.

(* A run between two quotes is one argument, spaces and all. *)
Lemma parseArgs_quoted (run : jsstring) :
  QUOTE ∉ run → run ≠ [] → parseArgs (QUOTE :: run ++ [QUOTE]) = [run].
Proof.
  intros Hq Hne. unfold parseArgs. simpl fold_left.
  change (parse_char parse_start QUOTE)
    with {| args := []; current := []; inQuotes := true |}.
  rewrite fold_left_app, parse_char_quoted by done. simpl.
  unfold parse_finish. simpl. by destruct run.
Qed.

(* A quote that is never closed: the rest of the string is one argument. *)
Lemma parseArgs_unmatched (run : jsstring) :
  QUOTE ∉ run → run ≠ [] → parseArgs (QUOTE :: run) = [run].
Proof.
  intros Hq Hne. unfold parseArgs. simpl fold_left.
  change (parse_char parse_start QUOTE)
    with {| args := []; current := []; inQuotes := true |}.
  rewrite parse_char_quoted by done. simpl.
  unfold parse_finish. simpl. by destruct run.
Qed.

(* No argument is empty and none holds a quote character. *)
Lemma parseArgs_words (s w : jsstring) :
  w ∈ parseArgs s → w ≠ [] ∧ QUOTE ∉ w.
Proof.
  rewrite parseArgs_split. unfold split_outside_quotes.
  intros [Hw Hin]%list_elem_of_filter. split.
  - by destruct w.
  - apply list_elem_of_fmap in Hin as (piece & -> & _).
    unfold strip_quotes. intros [Hc _]%list_elem_of_filter. done.
Qed.

Lemma launchExe_no_args (shell : jsstring → list jsstring → bool) (exePath : jsstring) :
  launchExe shell exePath [] = execute shell (js "cmd") [js "/c"; js "start"; []; exePath].
Proof. reflexivity. Qed.

(** C5, as the code has it: a tab is white space, yet it does not split; a
    quoted run that touches other text is joined to it; an empty pair of
    quotes gives no argument at all. *)
Lemma parseArgs_tab_does_not_split :
  is_white_space TAB = true
  ∧ parseArgs (js "a" ++ [TAB] ++ js "b") = [js "a" ++ [TAB] ++ js "b"]
  ∧ parseArgs (js "a" ++ [QUOTE] ++ js "b c" ++ [QUOTE] ++ js "d") = [js "ab cd"]
  ∧ parseArgs [QUOTE; QUOTE] = [].
Proof. repeat split; reflexivity. Qed.

(** C5 (amended): parseArgs is total and splits its input at the space
    characters (U+0020, no other white space) that stand outside double
    quotes; the quote characters are dropped and only toggle the quoted state,
    so a non-empty run between two quotes is one argument with its spaces kept
    and an unmatched quote simply quotes the rest; no argument is empty or
    holds a quote.  The three examples of the description hold, and an empty
    launch_args gives no arguments to the command launchExe issues. *)
Theorem parseArgs_splits_at_spaces_outside_quotes :
  (∀ s, parseArgs s = split_outside_quotes s)
  ∧ (∀ a b, Nat.even (quotes a) = true →
       parseArgs (a ++ SPACE :: b) = parseArgs a ++ parseArgs b)
  ∧ (∀ run, QUOTE ∉ run → run ≠ [] → parseArgs (QUOTE :: run ++ [QUOTE]) = [run])
  ∧ (∀ run, QUOTE ∉ run → run ≠ [] → parseArgs (QUOTE :: run) = [run])
  ∧ (∀ s w, w ∈ parseArgs s → w ≠ [] ∧ QUOTE ∉ w)
  ∧ parseArgs (js "--a " ++ [QUOTE] ++ js "b c" ++ [QUOTE] ++ js " --d")
    = [js "--a"; js "b c"; js "--d"]
  ∧ parseArgs [] = []
  ∧ parseArgs (js "--x") = [js "--x"]
  ∧ (∀ shell exePath,
       launchExe shell exePath []
       = execute shell (js "cmd") [js "/c"; js "start"; []; exePath]).
Proof.
  split; [exact parseArgs_split|].
  split; [exact parseArgs_space|].
  split; [exact parseArgs_quoted|].
  split; [exact parseArgs_unmatched|].
  split; [exact parseArgs_words|].
  repeat split; try reflexivity.
Qed.

(* --- launchEntry ----------------------------------------------------------- *)

Lemma playSound_launch : playSound "launch" = ([AudioPlay "launch"], Returned tt).
Proof. reflexivity. Qed.

Section DispatchFacts.

Variable shell : jsstring → list jsstring → bool.

Lemma launchEntry_steam (entry : Entry) :
  launch_type entry = js "steam" →
  launchEntry shell entry
  = launched shell [js "/c"; js "start"; js "steam://rungameid/" ++ launch_data entry].
Proof.
  intros H. unfold launchEntry, launched. rewrite H, playSound_launch.
  unfold launchSteam, execute. by destruct (shell _ _).
Qed.

Lemma launchEntry_exe (entry : Entry) :
  launch_type entry = js "exe" →
  launchEntry shell entry = launched shell (exe_argv (launch_data entry) (launch_args entry)).
Proof.
  intros H. unfold launchEntry, launched. rewrite H, playSound_launch.
  unfold launchExe, execute, exe_argv. by destruct (shell _ _).
Qed.

Lemma launchEntry_url (entry : Entry) :
  launch_type entry = js "url" →
  launchEntry shell entry = launched shell [js "/c"; js "start"; launch_data entry].
Proof.
  intros H. unfold launchEntry, launched. rewrite H, playSound_launch.
  unfold launchUrl, execute. by destruct (shell _ _).
Qed.

Lemma launchEntry_bat (entry : Entry) :
  launch_type entry = js "bat" →
  launchEntry shell entry = launched shell [js "/c"; launch_data entry].
Proof.
  intros H. unfold launchEntry, launched. rewrite H, playSound_launch.
  unfold launchBat, execute. by destruct (shell _ _).
Qed.

Lemma launchEntry_unknown (entry : Entry) :
  launch_type entry ∉ launch_types →
  launchEntry shell entry = not_launched (launch_type entry).
Proof.
  intros H. unfold launch_types in H.
  apply not_elem_of_cons in H as [H1 G1]. apply not_elem_of_cons in G1 as [H2 G2].
  apply not_elem_of_cons in G2 as [H3 G3]. apply not_elem_of_cons in G3 as [H4 _].
  unfold launchEntry. rewrite playSound_launch.
  by rewrite !bool_decide_eq_false_2 by done.
Qed.

Lemma launchEntry_cases (entry : Entry) :
  (∃ argv, launchEntry shell entry = launched shell argv)
  ∨ launchEntry shell entry = not_launched (launch_type entry).
Proof.
  destruct (decide (launch_type entry ∈ launch_types)) as [Hin|Hout].
  - left. unfold launch_types in Hin.
    repeat (apply elem_of_cons in Hin as [Hin|Hin]);
      [eexists; by apply launchEntry_steam | eexists; by apply launchEntry_exe
      | eexists; by apply launchEntry_url | eexists; by apply launchEntry_bat
      | by apply elem_of_nil in Hin].
  - right. by apply launchEntry_unknown.
Qed.

Lemma launched_commands (argv : list jsstring) :
  commands (launched shell argv) = [CommandExecute (js "cmd") argv].
Proof. unfold launched. by destruct (shell _ _). Qed.

(** C6: an entry of one of the four launch types makes launchEntry issue
    exactly one command, the one its launch type names; for steam it is
    cmd /c start steam://rungameid/<launch_data>, with launch_data as it
    stands, whatever launch_args holds. *)
Theorem launchEntry_one_strategy (entry : Entry) :
  launch_type entry ∈ launch_types →
  length (commands (launchEntry shell entry)) = 1%nat
  ∧ (launch_type entry = js "steam" →
       commands (launchEntry shell entry)
       = [CommandExecute (js "cmd")
            [js "/c"; js "start"; js "steam://rungameid/" ++ launch_data entry]]
       ∧ ∀ a, launchEntry shell (with_launch_args a entry) = launchEntry shell entry)
  ∧ (launch_type entry = js "exe" →
       commands (launchEntry shell entry)
       = [CommandExecute (js "cmd")
            (exe_argv (launch_data entry) (launch_args entry))])
  ∧ (launch_type entry = js "url" →
       commands (launchEntry shell entry)
       = [CommandExecute (js "cmd") [js "/c"; js "start"; launch_data entry]])
  ∧ (launch_type entry = js "bat" →
       commands (launchEntry shell entry)
       = [CommandExecute (js "cmd") [js "/c"; launch_data entry]]).
Proof.
  intros Hin. split.
  - destruct (launchEntry_cases entry) as [[argv ->]| Hu].
    + by rewrite launched_commands.
    + unfold launch_types in Hin.
      repeat (apply elem_of_cons in Hin as [Hin|Hin]);
        [rewrite (launchEntry_steam _ Hin) | rewrite (launchEntry_exe _ Hin)
        | rewrite (launchEntry_url _ Hin) | rewrite (launchEntry_bat _ Hin)
        | by apply elem_of_nil in Hin]; by rewrite launched_commands.
  - split; [|split; [|split]].
    + intros H. split; [by rewrite launchEntry_steam, launched_commands|].
      intros a. by rewrite !launchEntry_steam.
    + intros H. by rewrite launchEntry_exe, launched_commands.
    + intros H. by rewrite launchEntry_url, launched_commands.
    + intros H. by rewrite launchEntry_bat, launched_commands.
Qed.

(* Whatever command launchEntry has issued decides what it returns. *)
Lemma launchEntry_checked (entry : Entry) :
  (∃ b, result (launchEntry shell entry) = Returned b)
  ∧ (∀ program argv,
       CommandExecute program argv ∈ trace (launchEntry shell entry) →
       shell program argv = false →
       result (launchEntry shell entry) = Returned false
       ∧ ConsoleError "Failed to launch:" (LoggedError (ShellError program argv))
           ∈ trace (launchEntry shell entry))
  ∧ (∀ program argv,
       CommandExecute program argv ∈ trace (launchEntry shell entry) →
       shell program argv = true →
       result (launchEntry shell entry) = Returned true).
Proof.
  destruct (launchEntry_cases entry) as [[argv0 ->]| ->].
  - unfold launched. destruct (shell (js "cmd") argv0) eqn:Es; simpl.
    + split; [by eexists|]. split; intros program argv Hin Hs; [|done].
      apply elem_of_cons in Hin as [?|Hin]; [done|].
      apply elem_of_cons in Hin as [Heq|Hin]; [injection Heq as -> ->; congruence|].
      apply elem_of_cons in Hin as [?|Hin]; [done|]. by apply elem_of_nil in Hin.
    + split; [by eexists|]. split; intros program argv Hin Hs.
      * apply elem_of_cons in Hin as [?|Hin]; [done|].
        apply elem_of_cons in Hin as [Heq|Hin].
        -- injection Heq as -> ->. split; [done|]. set_solver.
        -- apply elem_of_cons in Hin as [?|Hin]; [done|]. by apply elem_of_nil in Hin.
      * apply elem_of_cons in Hin as [?|Hin]; [done|].
        apply elem_of_cons in Hin as [Heq|Hin]; [injection Heq as -> ->; congruence|].
        apply elem_of_cons in Hin as [?|Hin]; [done|]. by apply elem_of_nil in Hin.
  - unfold not_launched; simpl. split; [by eexists|].
    split; intros program argv Hin Hs;
      (apply elem_of_cons in Hin as [?|Hin]; [done|];
       apply elem_of_cons in Hin as [?|Hin]; [done|]; by apply elem_of_nil in Hin).
Qed.

Lemma launchEntry_known (entry : Entry) :
  launch_type entry ∈ launch_types → ∃ argv, launchEntry shell entry = launched shell argv.
Proof.
  intros Hin. unfold launch_types in Hin.
  repeat (apply elem_of_cons in Hin as [Hin|Hin]);
    [eexists; by apply launchEntry_steam | eexists; by apply launchEntry_exe
    | eexists; by apply launchEntry_url | eexists; by apply launchEntry_bat
    | by apply elem_of_nil in Hin].
Qed.

(** C7: launchEntry always returns, whatever the entry and whatever the
    operating system answers.  For an entry of one of the four launch types
    it issues its one command, and the answer to that command decides the
    rest: when the command is refused (the promise rejects) the error is
    caught, logged as "Failed to launch:" and false is returned, with no
    hiding of the window scheduled; when it is accepted the hiding is
    scheduled and true is returned.  The same holds of any command found in
    the trace. *)
Theorem launchEntry_never_throws (entry : Entry) :
  (∃ b, result (launchEntry shell entry) = Returned b)
  ∧ (launch_type entry ∈ launch_types →
     ∃ argv,
       commands (launchEntry shell entry) = [CommandExecute (js "cmd") argv]
       ∧ launchEntry shell entry
         = if shell (js "cmd") argv
           then ([AudioPlay "launch"; CommandExecute (js "cmd") argv;
                  SetTimeout (CallToggleWindow true) 200],
                 Returned true)
           else ([AudioPlay "launch"; CommandExecute (js "cmd") argv;
                  ConsoleError "Failed to launch:"
                    (LoggedError (ShellError (js "cmd") argv))],
                 Returned false))
  ∧ (∀ program argv,
       CommandExecute program argv ∈ trace (launchEntry shell entry) →
       shell program argv = false →
       result (launchEntry shell entry) = Returned false
       ∧ ConsoleError "Failed to launch:" (LoggedError (ShellError program argv))
           ∈ trace (launchEntry shell entry))
  ∧ (∀ program argv,
       CommandExecute program argv ∈ trace (launchEntry shell entry) →
       shell program argv = true →
       result (launchEntry shell entry) = Returned true).
Proof.
  destruct (launchEntry_checked entry) as (Hreturns & Hrefused & Haccepted).
  split; [exact Hreturns|]. split; [|by split].
  intros Hin. destruct (launchEntry_known entry Hin) as [argv Hrun].
  exists argv. rewrite Hrun. split; [apply launched_commands|].
  unfold launched. by destruct (shell (js "cmd") argv).
Qed.

(** C10: with a launch type outside steam, exe, url and bat, launchEntry
    issues no command, schedules no window hide and returns false. *)
Theorem launchEntry_unknown_type (entry : Entry) :
  launch_type entry ∉ launch_types →
  commands (launchEntry shell entry) = []
  ∧ timers (launchEntry shell entry) = []
  ∧ result (launchEntry shell entry) = Returned false.
Proof. intros H. by rewrite launchEntry_unknown. Qed.

End DispatchFacts.

(* The executable of the description is started with its two arguments. *)
Example launchEntry_exe_scenario :
  launchEntry accepting exe_entry
  = ([AudioPlay "launch";
      CommandExecute (js "cmd")
        [js "/c"; js "start"; []; js "C:/g/app.exe"; js "--flag"; js "a b"];
      SetTimeout (CallToggleWindow true) 200],
     Returned true).
Proof. reflexivity. Qed.

Lemma launchEntry_one_strategy_witness :
  (launch_type steam_entry ∈ launch_types)
  ∧ commands (launchEntry accepting steam_entry)
    = [CommandExecute (js "cmd") [js "/c"; js "start"; js "steam://rungameid/814380"]].
Proof.
  assert (launch_type steam_entry ∈ launch_types) as Hin by (apply (bool_decide_unpack _); exact I).
  split; [exact Hin|].
  exact (proj1 (proj1 (proj2 (launchEntry_one_strategy accepting steam_entry Hin))
                 eq_refl)).
Defined.

Lemma launchEntry_unknown_type_witness :
  (launch_type odd_entry ∉ launch_types)
  ∧ commands (launchEntry refusing odd_entry) = []
  ∧ timers (launchEntry refusing odd_entry) = []
  ∧ result (launchEntry refusing odd_entry) = Returned false.
Proof.
  assert (launch_type odd_entry ∉ launch_types) as Hout.
  { apply (proj1 (bool_decide_eq_false (launch_type odd_entry ∈ launch_types))).
    reflexivity. }
  split; [exact Hout|]. exact (launchEntry_unknown_type refusing odd_entry Hout).
Defined.

Lemma launchEntry_never_throws_witness :
  (launch_type steam_entry ∈ launch_types)
  ∧ launchEntry refusing steam_entry
    = ([AudioPlay "launch";
        CommandExecute (js "cmd") [js "/c"; js "start"; js "steam://rungameid/814380"];
        ConsoleError "Failed to launch:"
          (LoggedError (ShellError (js "cmd")
                          [js "/c"; js "start"; js "steam://rungameid/814380"]))],
       Returned false)
  ∧ launchEntry accepting steam_entry
    = ([AudioPlay "launch";
        CommandExecute (js "cmd") [js "/c"; js "start"; js "steam://rungameid/814380"];
        SetTimeout (CallToggleWindow true) 200],
       Returned true).
Proof.
  assert (launch_type steam_entry ∈ launch_types) as Hin by (apply (bool_decide_unpack _); exact I).
  split; [exact Hin|]. split.
  - destruct (proj1 (proj2 (launchEntry_never_throws refusing steam_entry)) Hin)
      as (argv & Hcommands & Hrun).
    injection Hcommands as <-. exact Hrun.
  - destruct (proj1 (proj2 (launchEntry_never_throws accepting steam_entry)) Hin)
      as (argv & Hcommands & Hrun).
    injection Hcommands as <-. exact Hrun.
Defined.

(* --- the store: stepping through a function ------------------------------- *)

Lemma bind_returned {A B} (m : Store A) (f : A → Store B) (st st' : state) (a : A) :
  m st = (Returned a, st') → (m ≫= f) st = f a st'.
Proof. intros H. unfold mbind, Store_bind. by rewrite H. Qed.

Lemma bind_threw {A B} (m : Store A) (f : A → Store B) (st st' : state) (e : exn) :
  m st = (Threw e, st') → (m ≫= f) st = (Threw e, st').
Proof. intros H. unfold mbind, Store_bind. by rewrite H. Qed.

Lemma require_db_set (st : state) : is_Some (db st) → require_db st = (Returned tt, st).
Proof. intros [h H]. unfold require_db. by rewrite H. Qed.

Lemma require_db_unset (d : gmap string table) (now : Z) :
  require_db (uninitialized d now)
  = (Threw (Error "Database not initialized"), uninitialized d now).
Proof. reflexivity. Qed.

Lemma with_entries_same (st : state) (t : table) :
  disk st !! "entries"%string = Some t → with_entries st t = st.
Proof.
  intros H. destruct st as [h d now]. unfold with_entries. simpl in *.
  by rewrite insert_id.
Qed.

Lemma with_entries_twice (st : state) (t t' : table) :
  with_entries (with_entries st t) t' = with_entries st t'.
Proof. unfold with_entries. simpl. by rewrite insert_insert_eq. Qed.

Lemma with_entries_lookup (st : state) (t : table) :
  disk (with_entries st t) !! "entries"%string = Some t.
Proof. unfold with_entries. simpl. apply lookup_insert_eq. Qed.









(** C9, as the code has it: on a store that has not been initialized and
    holds no entries, getEntries throws. *)
Lemma getEntries_uninitialized_empty_throws :
  getEntries (js "game") (uninitialized ∅ 0)
  = (Threw (Error "Database not initialized"), uninitialized ∅ 0).
Proof. apply bind_threw, require_db_unset. Qed.

(* --- the store: what each statement does to an initialized store ----------- *)

(* A row of the current table, value by value. *)
Ltac nine_values r H :=
  simpl in H;
  do 9 (destruct r as [|? r]; [discriminate H|]);
  destruct r; [clear H | discriminate H].

Lemma getEntries_initialized (st : state) (t : table) (type : jsstring) :
  initialized st t →
  getEntries type st
  = (Returned (with_boolean_deprecated <$>
       (row_object entries_columns <$>
          merge_sort (order_desc entries_columns "created_at")
            (filter (λ r, Is_true (sql_eq (cell entries_columns r "type") (SText type)))
               (t_rows t)))), st).
Proof.
  intros (Hdb & Ht & Hcols & _). unfold getEntries.
  rewrite (bind_returned _ _ st st tt) by (by apply require_db_set).
  erewrite bind_returned; [reflexivity|].
  unfold db_select, select_where, require_table. rewrite Ht.
  unfold mbind, sql_result_bind. by rewrite Hcols.
Qed.

Lemma deleteEntry_initialized (st : state) (t : table) (id : Z) :
  initialized st t →
  deleteEntry id st
  = (Returned tt,
     with_entries st
       {| t_columns := entries_columns;
          t_rows := filter (λ r, ¬ Is_true (sql_eq (cell entries_columns r "id") (SInt id)))
                      (t_rows t);
          t_sequence := t_sequence t |}).
Proof.
  intros (Hdb & Ht & Hcols & _). unfold deleteEntry.
  rewrite (bind_returned _ _ st st tt) by (by apply require_db_set).
  unfold db_execute, delete_where, require_table. rewrite Ht.
  unfold mbind, sql_result_bind. by rewrite Hcols.
Qed.

Lemma initialized_with_entries (st : state) (t : table) (rows : list row) (seq : Z) :
  initialized st t →
  Forall (λ r : row, length r = length entries_columns) rows →
  initialized
    (with_entries st {| t_columns := entries_columns; t_rows := rows; t_sequence := seq |})
    {| t_columns := entries_columns; t_rows := rows; t_sequence := seq |}.
Proof.
  intros (Hdb & _) Hrows. split; [done|]. split; [apply with_entries_lookup|]. done.
Qed.

(* The object getEntries makes of a row shows the row's id. *)
Lemma entry_object_id (r : row) :
  length r = length entries_columns →
  obj_get (with_boolean_deprecated (row_object entries_columns r)) "id"
  = to_js (cell entries_columns r "id").
Proof. intros H. nine_values r H. reflexivity. Qed.

Lemma to_js_number (v : sqlvalue) (n : Z) :
  to_js v = JNumber n → sql_eq v (SInt n) = true.
Proof. destruct v; simpl; try done. intros [= ->]. apply Z.eqb_refl. Qed.

(** C4: on an initialized store deleteEntry(id) returns, no getEntries
    afterwards, for whatever category, shows an entry with that id, and a
    second deleteEntry(id) returns as well and changes nothing. *)
Theorem deleteEntry_then_getEntries (st : state) (t : table) (id : Z) :
  initialized st t →
  ∃ st',
    deleteEntry id st = (Returned tt, st')
    ∧ (∀ type, ∃ entries,
         getEntries type st' = (Returned entries, st')
         ∧ ∀ entry, entry ∈ entries → obj_get entry "id" ≠ JNumber id)
    ∧ deleteEntry id st' = (Returned tt, st').
Proof.
  intros Hinit. pose proof Hinit as (Hdb & Ht & Hcols & Hlen).
  set (rows' := filter (λ r, ¬ Is_true (sql_eq (cell entries_columns r "id") (SInt id)))
                  (t_rows t)).
  assert (Forall (λ r : row, length r = length entries_columns) rows') as Hlen'.
  { apply Forall_forall. intros r [_ Hr]%list_elem_of_filter.
    by apply (proj1 (Forall_forall _ _) Hlen). }
  pose proof (initialized_with_entries st t rows' (t_sequence t) Hinit Hlen') as Hinit'.
  exists (with_entries st
    {| t_columns := entries_columns; t_rows := rows'; t_sequence := t_sequence t |}).
  split; [by apply deleteEntry_initialized|]. split.
  - intros type. eexists. split; [by apply getEntries_initialized|].
    intros entry Hin Hid.
    apply list_elem_of_fmap in Hin as (o & -> & Hin).
    apply list_elem_of_fmap in Hin as (r & -> & Hin).
    rewrite merge_sort_Permutation in Hin.
    apply list_elem_of_filter in Hin as [_ Hin]. simpl in Hin.
    apply list_elem_of_filter in Hin as [Hmiss Hin].
    rewrite entry_object_id in Hid by (by apply (proj1 (Forall_forall _ _) Hlen)).
    apply to_js_number in Hid. rewrite Hid in Hmiss. by apply Hmiss.
  - rewrite (deleteEntry_initialized _ _ id Hinit'). simpl t_rows.
    rewrite with_entries_twice. do 3 f_equal.
    fold rows'. apply list_filter_filter_l. done.
Qed.

Lemma sample_initialized : initialized sample_state sample_table.
Proof.
  split; [by eexists|]. split; [reflexivity|]. split; [reflexivity|].
  repeat constructor.
Qed.

Lemma deleteEntry_then_getEntries_witness :
  initialized sample_state sample_table
  ∧ ∃ st',
      deleteEntry 3 sample_state = (Returned tt, st')
      ∧ (∀ type, ∃ entries,
           getEntries type st' = (Returned entries, st')
           ∧ ∀ entry, entry ∈ entries → obj_get entry "id" ≠ JNumber 3)
      ∧ deleteEntry 3 st' = (Returned tt, st').
Proof.
  split; [exact sample_initialized|].
  exact (deleteEntry_then_getEntries sample_state sample_table 3 sample_initialized).
Defined.

Lemma filter_none {A} (P : A → Prop) `{∀ x, Decision (P x)} (l : list A) :
  (∀ x, x ∈ l → ¬ P x) → filter P l = [].
Proof.
  induction l as [|x l IH]; intros Hl; [done|].
  rewrite filter_cons_False by (apply Hl; left).
  apply IH. intros y Hy. apply Hl. by right.
Qed.

(** C9 (amended): on an initialized store getEntries returns the empty
    collection when no entry has the category asked for; on a store that has
    not been initialized it throws "Database not initialized", whether or not
    the file holds entries. *)
Theorem getEntries_no_match (st : state) (t : table) (type : jsstring) :
  initialized st t →
  (∀ r, r ∈ t_rows t → sql_eq (cell entries_columns r "type") (SText type) = false) →
  getEntries type st = (Returned [], st)
  ∧ getEntries type (uninitialized (disk st) (unixepoch st))
    = (Threw (Error "Database not initialized"), uninitialized (disk st) (unixepoch st)).
Proof.
  intros Hinit Hnone. split.
  - rewrite (getEntries_initialized _ _ type Hinit).
    rewrite filter_none; [done|].
    intros r Hr. rewrite (Hnone r Hr). simpl. tauto.
  - apply bind_threw, require_db_unset.
Qed.

Lemma getEntries_no_match_witness :
  initialized sample_state sample_table
  ∧ getEntries (js "tool") sample_state = (Returned [], sample_state)
  ∧ getEntries (js "tool") (uninitialized (disk sample_state) (unixepoch sample_state))
    = (Threw (Error "Database not initialized"),
       uninitialized (disk sample_state) (unixepoch sample_state)).
Proof.
  split; [exact sample_initialized|].
  apply (getEntries_no_match sample_state sample_table (js "tool") sample_initialized).
  intros r Hr. unfold sample_table, sample_rows in Hr. simpl in Hr.
  apply elem_of_cons in Hr as [->|Hr]; [reflexivity|].
  apply elem_of_cons in Hr as [->|Hr]; [reflexivity|].
  by apply elem_of_nil in Hr.
Defined.

(* --- updateEntry ----------------------------------------------------------- *)

Lemma update_checks_pass (name launchType launchData launchArgs imageData : jsstring)
    (rs : list row) :
  launchType ∈ launch_types →
  check_updates entries_columns
    [("name"%string, Param (SText name)); ("launch_type"%string, Param (SText launchType));
     ("launch_data"%string, Param (SText launchData));
     ("launch_args"%string, Param (SText launchArgs));
     ("image_data"%string, Param (SText imageData))] rs = Done tt.
Proof.
  intros Hlt. induction rs as [|r rs IH]; [done|].
  cbn [check_updates]. rewrite IH.
  unfold check_sets, find_column, check_column. simpl.
  change [[115%N; 116%N; 101%N; 97%N; 109%N]; [101%N; 120%N; 101%N];
          [117%N; 114%N; 108%N]; [98%N; 97%N; 116%N]] with launch_types.
  by rewrite bool_decide_eq_true_2.
Qed.

Lemma updateEntry_initialized (st : state) (t : table) (id : Z)
    (name launchType launchData launchArgs imageData : jsstring) :
  initialized st t →
  launchType ∈ launch_types →
  updateEntry id name launchType launchData launchArgs imageData st
  = (Returned tt,
     with_entries st
       {| t_columns := entries_columns;
          t_rows :=
            (λ r, if sql_eq (cell entries_columns r "id") (SInt id)
                  then [cell entries_columns r "id"; cell entries_columns r "type";
                        SText name; SText launchType; SText launchData; SText launchArgs;
                        SText imageData; cell entries_columns r "deprecated";
                        cell entries_columns r "created_at"]
                  else r) <$> t_rows t;
          t_sequence := t_sequence t |}).
Proof.
  intros (Hdb & Ht & Hcols & Hlen) Hlt. unfold updateEntry.
  rewrite (bind_returned _ _ st st tt) by (by apply require_db_set).
  unfold db_execute, update_where, require_table. rewrite Ht.
  unfold mbind, sql_result_bind. rewrite Hcols.
  change (require_columns entries_columns _) with (Done tt).
  rewrite update_checks_pass by done.
  unfold with_entries. do 4 f_equal.
  apply Forall_fmap_ext. eapply Forall_impl; [exact Hlen|].
  intros r Hr. nine_values r Hr. simpl. by destruct (sql_eq _ _).
Qed.

(** C3: on an initialized store updateEntry(id, name, launch_type,
    launch_data, launch_args, image_data) returns; every row whose id matches
    gets the five values passed and keeps its id, type, deprecated and
    created_at, every other row stays as it was, and when no row matches
    nothing at all changes. *)
Theorem updateEntry_frame (st : state) (t : table) (id : Z)
    (name launchType launchData launchArgs imageData : jsstring) :
  initialized st t →
  launchType ∈ launch_types →
  ∃ rows',
    updateEntry id name launchType launchData launchArgs imageData st
    = (Returned tt,
       with_entries st
         {| t_columns := entries_columns; t_rows := rows'; t_sequence := t_sequence t |})
    ∧ Forall2
        (λ old new,
           if sql_eq (cell entries_columns old "id") (SInt id)
           then updated name launchType launchData launchArgs imageData old new
           else new = old)
        (t_rows t) rows'
    ∧ ((∀ old, old ∈ t_rows t → sql_eq (cell entries_columns old "id") (SInt id) = false) →
       with_entries st
         {| t_columns := entries_columns; t_rows := rows'; t_sequence := t_sequence t |}
       = st).
Proof.
  intros Hinit Hlt. pose proof Hinit as (Hdb & Ht & Hcols & Hlen).
  eexists. split; [by apply updateEntry_initialized|]. split.
  - apply Forall2_fmap_r, Forall_Forall2_diag.
    eapply Forall_impl; [exact Hlen|]. intros r Hr. cbn beta in Hr.
    unfold compose. destruct (sql_eq _ _); [|done].
    nine_values r Hr. repeat split.
  - intros Hnone. apply with_entries_same. rewrite Ht. f_equal.
    destruct t as [cols rows seq]. simpl in *. subst cols. f_equal.
    symmetry. etrans; [|apply (list_fmap_id rows)].
    apply Forall_fmap_ext_1, Forall_forall.
    intros r Hr. by rewrite (Hnone r Hr).
Qed.

Lemma updateEntry_frame_witness :
  initialized sample_state sample_table
  ∧ (js "url" ∈ launch_types)
  ∧ ∃ rows',
      updateEntry 7 (js "Notes 2") (js "url") (js "https://notes.example") []
        (js "data:image/png;base64,CCCC") sample_state
      = (Returned tt,
         with_entries sample_state
           {| t_columns := entries_columns; t_rows := rows';
              t_sequence := t_sequence sample_table |})
      ∧ Forall2
          (λ old new,
             if sql_eq (cell entries_columns old "id") (SInt 7)
             then updated (js "Notes 2") (js "url") (js "https://notes.example") []
                    (js "data:image/png;base64,CCCC") old new
             else new = old)
          (t_rows sample_table) rows'
      ∧ ((∀ old, old ∈ t_rows sample_table →
            sql_eq (cell entries_columns old "id") (SInt 7) = false) →
         with_entries sample_state
           {| t_columns := entries_columns; t_rows := rows';
              t_sequence := t_sequence sample_table |}
         = sample_state).
Proof.
  assert (js "url" ∈ launch_types) as Hlt by (apply (bool_decide_unpack _); exact I).
  split; [exact sample_initialized|]. split; [exact Hlt|].
  exact (updateEntry_frame sample_state sample_table 7 (js "Notes 2") (js "url")
           (js "https://notes.example") [] (js "data:image/png;base64,CCCC")
           sample_initialized Hlt).
Defined.

(* --- addEntry -------------------------------------------------------------- *)

Lemma foldr_max_ge (a : Z) (l : list Z) (x : Z) : x ∈ l → x ≤ foldr Z.max a l.
Proof.
  induction l as [|y l IH]; intros Hx; [by apply elem_of_nil in Hx|].
  apply elem_of_cons in Hx as [->|Hx]; simpl; [lia|].
  specialize (IH Hx). lia.
Qed.

(* A row id already in the table is below the next one. *)
Lemma rowid_below_next (t : table) (r : row) (n : Z) :
  t_columns t = entries_columns →
  r ∈ t_rows t →
  cell entries_columns r "id" = SInt n →
  n < next_rowid t.
Proof.
  intros Hcols Hr Hn. unfold next_rowid.
  enough (n ∈ rowids t) as Hin by (pose proof (foldr_max_ge (t_sequence t) _ _ Hin); lia).
  unfold rowids. apply list_elem_of_omap. exists r. split; [done|].
  rewrite Hcols. unfold rowid_of. simpl. by rewrite Hn.
Qed.

Lemma addEntry_initialized (st : state) (t : table)
    (type name launchType launchData launchArgs imageData : jsstring) :
  initialized st t →
  type ∈ categories →
  launchType ∈ launch_types →
  addEntry type name launchType launchData launchArgs imageData st
  = (Returned
       [("id"%string, JNumber (next_rowid t)); ("type"%string, JString type);
        ("name"%string, JString name); ("launch_type"%string, JString launchType);
        ("launch_data"%string, JString launchData);
        ("launch_args"%string, JString launchArgs);
        ("image_data"%string, JString imageData);
        ("deprecated"%string, JBoolean false);
        ("created_at"%string, JNumber (unixepoch st))],
     with_entries st
       {| t_columns := entries_columns;
          t_rows := t_rows t ++
            [[SInt (next_rowid t); SText type; SText name; SText launchType;
              SText launchData; SText launchArgs; SText imageData; SInt 0;
              SInt (unixepoch st)]];
          t_sequence := Z.max (t_sequence t) (next_rowid t) |}).
Proof.
  intros (Hdb & Ht & Hcols & Hlen) Hty Hlt. unfold addEntry.
  rewrite (bind_returned _ _ st st tt) by (by apply require_db_set).
  erewrite bind_returned.
  2:{ unfold db_execute_insert, insert_values, require_table. rewrite Ht.
      unfold mbind at 1, sql_result_bind at 1.
      unfold insert_row, choose_rowid. rewrite Hcols.
      unfold mbind, sql_result_bind. simpl.
      unfold check_column, mbind, sql_result_bind. simpl.
      rewrite (bool_decide_eq_true_2 _ Hty), (bool_decide_eq_true_2 _ Hlt).
      reflexivity. }
  erewrite bind_returned.
  2:{ unfold db_select, select_where, require_table. cbn [disk].
      rewrite lookup_insert_eq. unfold mbind, sql_result_bind. cbn [t_columns t_rows].
      change (require_columns entries_columns _) with (Done tt). cbn iota.
      rewrite filter_app, filter_none, filter_cons_True, filter_nil.
      - reflexivity.
      - simpl. by rewrite Z.eqb_refl.
      - intros r Hr Hhit.
        destruct (cell entries_columns r "id") as [|n|] eqn:Hid; simpl in Hhit; try done.
        pose proof (rowid_below_next t r n Hcols Hr Hid).
        apply Is_true_true, Z.eqb_eq in Hhit. lia. }
  reflexivity.
Qed.

(** C2: on an initialized store, with a category and a launch type of the
    declared unions, addEntry returns the new entry with the six values
    passed, the id the store assigned (a number no row had) and the
    created_at the store assigned (a number); getEntries on the same category
    returns afterwards and the new entry is in its result. *)
Theorem addEntry_then_getEntries (st : state) (t : table)
    (type name launchType launchData launchArgs imageData : jsstring) :
  initialized st t →
  type ∈ categories →
  launchType ∈ launch_types →
  ∃ (id created : Z) (entry : list (string * jsvalue)) (st' : state),
    addEntry type name launchType launchData launchArgs imageData st
    = (Returned entry, st')
    ∧ entry
      = [("id"%string, JNumber id); ("type"%string, JString type);
         ("name"%string, JString name); ("launch_type"%string, JString launchType);
         ("launch_data"%string, JString launchData);
         ("launch_args"%string, JString launchArgs);
         ("image_data"%string, JString imageData);
         ("deprecated"%string, JBoolean false);
         ("created_at"%string, JNumber created)]
    ∧ (id ∉ rowids t)
    ∧ ∃ entries, getEntries type st' = (Returned entries, st') ∧ entry ∈ entries.
Proof.
  intros Hinit Hty Hlt. pose proof Hinit as (Hdb & Ht & Hcols & Hlen).
  set (new := [SInt (next_rowid t); SText type; SText name; SText launchType;
               SText launchData; SText launchArgs; SText imageData; SInt 0;
               SInt (unixepoch st)]).
  assert (initialized
    (with_entries st {| t_columns := entries_columns; t_rows := t_rows t ++ [new];
                        t_sequence := Z.max (t_sequence t) (next_rowid t) |})
    {| t_columns := entries_columns; t_rows := t_rows t ++ [new];
       t_sequence := Z.max (t_sequence t) (next_rowid t) |}) as Hinit'.
  { apply (initialized_with_entries st t); [done|].
    apply Forall_app. split; [done|]. by repeat constructor. }
  exists (next_rowid t), (unixepoch st). eexists. eexists.
  split; [by apply (addEntry_initialized st t)|]. split; [reflexivity|]. split.
  - intros Hin. pose proof (foldr_max_ge (t_sequence t) _ _ Hin). unfold next_rowid in *. lia.
  - eexists. split; [by apply (getEntries_initialized _ _ type Hinit')|].
    apply list_elem_of_fmap. eexists. split; [|apply list_elem_of_fmap_2].
    2:{ rewrite merge_sort_Permutation. apply list_elem_of_filter. split.
        2:{ cbn [t_rows]. apply elem_of_app. right. apply list_elem_of_singleton.
            reflexivity. }
        simpl. by rewrite bool_decide_eq_true_2. }
    reflexivity.
Qed.

Lemma addEntry_then_getEntries_witness :
  initialized sample_state sample_table
  ∧ (js "game" ∈ categories)
  ∧ (js "steam" ∈ launch_types)
  ∧ ∃ (id created : Z) (entry : list (string * jsvalue)) (st' : state),
      addEntry (js "game") (js "Sekiro") (js "steam") (js "814380") []
        (js "data:image/png;base64,DDDD") sample_state
      = (Returned entry, st')
      ∧ entry
        = [("id"%string, JNumber id); ("type"%string, JString (js "game"));
           ("name"%string, JString (js "Sekiro"));
           ("launch_type"%string, JString (js "steam"));
           ("launch_data"%string, JString (js "814380"));
           ("launch_args"%string, JString []);
           ("image_data"%string, JString (js "data:image/png;base64,DDDD"));
           ("deprecated"%string, JBoolean false);
           ("created_at"%string, JNumber created)]
      ∧ (id ∉ rowids sample_table)
      ∧ ∃ entries, getEntries (js "game") st' = (Returned entries, st') ∧ entry ∈ entries.
Proof.
  assert (js "game" ∈ categories) as Hty by (apply (bool_decide_unpack _); exact I).
  assert (js "steam" ∈ launch_types) as Hlt by (apply (bool_decide_unpack _); exact I).
  split; [exact sample_initialized|]. split; [exact Hty|]. split; [exact Hlt|].
  exact (addEntry_then_getEntries sample_state sample_table (js "game") (js "Sekiro")
           (js "steam") (js "814380") [] (js "data:image/png;base64,DDDD")
           sample_initialized Hty Hlt).
Defined.

(* --- initDatabase: the migration ------------------------------------------- *)

Lemma includes_has_column (cols : list column) (c : string) :
  includes (c_name <$> cols) c = has_column cols c.
Proof.
  unfold includes, has_column. induction cols as [|col cols IH]; [done|].
  rewrite fmap_cons. cbn [existsb column_index]. rewrite String.eqb_sym.
  destruct (String.eqb (c_name col) c); [done|].
  rewrite orb_false_l, IH. by destruct (column_index c cols).
Qed.

Lemma require_columns_present (cols : list column) (cs : list string) :
  forallb (has_column cols) cs = true → require_columns cols cs = Done tt.
Proof.
  intros H. unfold require_columns.
  replace (find _ cs) with (@None string); [done|].
  symmetry. induction cs as [|c cs IH]; [done|].
  simpl in *. apply andb_true_iff in H as [-> H]. simpl. by apply IH.
Qed.

Lemma rowids_snoc (rows : list row) (seq seq' : Z) (r : row) (n : Z) :
  cell entries_columns r "id" = SInt n →
  rowids {| t_columns := entries_columns; t_rows := rows ++ [r]; t_sequence := seq' |}
  = rowids {| t_columns := entries_columns; t_rows := rows; t_sequence := seq |} ++ [n].
Proof.
  intros Hn. unfold rowids. simpl. rewrite omap_app. f_equal.
  simpl. unfold rowid_of. simpl. by rewrite Hn.
Qed.

(* One legacy row goes into the new table under its own id. *)
Lemma insert_copied_row (now : Z) (cols : list column) (rows : list row) (seq : Z) (r : row) :
  legacy_row_valid cols r = true →
  ∃ n,
    cell cols r "id" = SInt n
    ∧ cell entries_columns (copied_row cols r) "id" = SInt n
    ∧ (n ∉ rowids {| t_columns := entries_columns; t_rows := rows; t_sequence := seq |} →
       insert_row now
         {| t_columns := entries_columns; t_rows := rows; t_sequence := seq |}
         (zip copy_targets (copied_row cols r))
       = Done ({| t_columns := entries_columns; t_rows := rows ++ [copied_row cols r];
                  t_sequence := Z.max seq n |}, n)).
Proof.
  unfold legacy_row_valid. intros H.
  repeat (apply andb_true_iff in H as [H ?]).
  destruct (cell cols r "id") as [|n|] eqn:Hid; try discriminate H.
  destruct (cell cols r "type") as [| |ty] eqn:Hty; try done.
  destruct (cell cols r "name") as [| |nm] eqn:Hnm; try done.
  destruct (cell cols r "bat_path") as [| |bp] eqn:Hbp; try done.
  destruct (cell cols r "image_data") as [| |img] eqn:Himg; try done.
  set (T := {| t_columns := entries_columns; t_rows := rows; t_sequence := seq |}).
  set (new := [SInt n; SText ty; SText nm; SText (js "bat"); SText bp; SText [];
               SText img; cell cols r "deprecated"; cell cols r "created_at"]).
  assert (copied_row cols r = new) as ->.
  { unfold copied_row, copy_exprs, new. simpl. by rewrite Hid, Hty, Hnm, Hbp, Himg. }
  exists n. split; [done|]. split; [done|]. intros Hfresh.
  assert (choose_rowid T (zip copy_targets new)
          = if bool_decide (n ∈ rowids T) then Refused (UniqueFailed "id") else Done n)
    as Hchoose by reflexivity.
  assert (build_row now n entries_columns (zip copy_targets new) = new)
    as Hbuild by reflexivity.
  assert (check_row entries_columns new = Done tt) as Hcheck.
  { unfold new, check_row, check_column, mbind, sql_result_bind. simpl.
    by destruct (bool_decide (ty ∈ [js "game"; js "app"])). }
  unfold insert_row. rewrite Hchoose, bool_decide_eq_false_2 by done.
  cbn [t_columns T]. change (require_columns entries_columns _) with (Done tt).
  unfold mbind, sql_result_bind. by rewrite Hbuild, Hcheck.
Qed.

(* All of them go in, in order, when their ids are distinct and free. *)
Lemma insert_copied_rows (now : Z) (cols : list column) (olds : list row) :
  ∀ (rows : list row) (seq last : Z),
  Forall (λ r, legacy_row_valid cols r = true) olds →
  NoDup ((λ r, cell cols r "id") <$> olds) →
  (∀ r n, r ∈ olds → cell cols r "id" = SInt n →
          n ∉ rowids {| t_columns := entries_columns; t_rows := rows; t_sequence := seq |}) →
  ∃ seq' last',
    insert_rows now {| t_columns := entries_columns; t_rows := rows; t_sequence := seq |}
      last copy_targets (copied_row cols <$> olds)
    = Done ({| t_columns := entries_columns; t_rows := rows ++ (copied_row cols <$> olds);
               t_sequence := seq' |}, last').
Proof.
  induction olds as [|r olds IH]; intros rows seq last Hok Hdup Hfree.
  - exists seq, last. simpl. by rewrite app_nil_r.
  - apply Forall_cons in Hok as [Hr Hok].
    destruct (insert_copied_row now cols rows seq r Hr) as (n & Hn & Hid & Hins).
    rewrite fmap_cons in Hdup. apply NoDup_cons in Hdup as [Hnew Hdup].
    rewrite fmap_cons. cbn [insert_rows].
    rewrite Hins by exact (Hfree r n ltac:(left) Hn).
    unfold mbind, sql_result_bind.
    destruct (IH (rows ++ [copied_row cols r]) (Z.max seq n) n Hok Hdup)
      as (seq' & last' & HIH).
    + intros r2 m Hr2 Hm. rewrite (rowids_snoc rows seq _ _ n Hid).
      intros [Hin| ->%list_elem_of_singleton]%elem_of_app.
      * exact (Hfree r2 m ltac:(by right) Hm Hin).
      * apply Hnew. apply list_elem_of_fmap. exists r2. by rewrite Hn, Hm.
    + exists seq', last'. rewrite HIH. by rewrite <- app_assoc.
Qed.

Lemma copied_row_migrated (cols : list column) (r : row) :
  migrated cols r (copied_row cols r).
Proof. by repeat split. Qed.

(** C1: a store left by the legacy version (under the name entries a table
    with the legacy columns and no launch_type, its N rows entries with
    distinct ids; no entries_old) is migrated by initDatabase, which returns:
    the table entries then has the current declaration and N rows, row by row
    the legacy row's id, type, name, image_data, deprecated and created_at
    with launch_type "bat" and launch_data the legacy bat_path, and there is
    no table entries_old. *)
Theorem initDatabase_migrates (st : state) (t : table) :
  legacy_store st t →
  ∃ st' t',
    initDatabase st = (Returned tt, st')
    ∧ disk st' !! "entries"%string = Some t'
    ∧ t_columns t' = entries_columns
    ∧ length (t_rows t') = length (t_rows t)
    ∧ Forall2 (migrated (t_columns t)) (t_rows t) (t_rows t')
    ∧ disk st' !! "entries_old"%string = None
    ∧ initialized st' t'.
Proof.
  intros (Ht & Hold & Hshape & Hrows & Hdup).
  destruct st as [h d now]. simpl in Ht, Hold.
  unfold legacy_shaped in Hshape. apply andb_true_iff in Hshape as [Hhas Hnot].
  apply negb_true_iff in Hnot.
  assert (has_column (t_columns t) "bat_path" = true) as Hbat.
  { simpl in Hhas. by repeat (apply andb_true_iff in Hhas as [? Hhas]). }
  destruct (insert_copied_rows now (t_columns t) (t_rows t) [] 0 0 Hrows Hdup)
    as (seq' & last' & Hins).
  { intros r n _ _. unfold rowids. simpl. apply not_elem_of_nil. }
  simpl in Hins.
  set (t' := {| t_columns := entries_columns; t_rows := copied_row (t_columns t) <$> t_rows t;
                t_sequence := seq' |}) in *.
  unfold initDatabase.
  erewrite bind_returned; [|reflexivity].
  erewrite bind_returned.
  2:{ unfold db_select, table_info. cbn [disk]. rewrite Ht. reflexivity. }
  cbn beta zeta. rewrite !includes_has_column, Hbat, Hnot. cbn [andb negb].
  erewrite bind_returned.
  2:{ unfold db_execute, alter_table_rename, require_table. cbn [disk].
      rewrite Ht. unfold mbind, sql_result_bind. rewrite Hold. reflexivity. }
  erewrite bind_returned.
  2:{ unfold db_execute, create_table. cbn [disk].
      rewrite lookup_insert_ne by done. rewrite lookup_delete_eq. reflexivity. }
  erewrite bind_returned.
  2:{ unfold db_execute_insert, insert_select, require_table. cbn [disk unixepoch].
      rewrite lookup_insert_eq. unfold mbind at 1, sql_result_bind at 1.
      rewrite lookup_insert_ne by done. rewrite lookup_insert_eq.
      unfold mbind at 1, sql_result_bind at 1. cbn [t_columns t_rows].
      change (require_columns entries_columns copy_targets) with (Done tt).
      unfold mbind at 1, sql_result_bind at 1.
      rewrite (require_columns_present (t_columns t) (select_columns copy_exprs) Hhas).
      unfold mbind at 1, sql_result_bind at 1.
      change (λ r, eval_select (t_columns t) r <$> copy_exprs)
        with (copied_row (t_columns t)).
      rewrite Hins. unfold mbind, sql_result_bind. reflexivity. }
  cbn [db].
  eexists. exists t'.
  split.
  { unfold db_execute, drop_table, require_table. cbn [disk db unixepoch].
    rewrite !lookup_insert_ne by done. rewrite lookup_insert_eq.
    unfold mbind, sql_result_bind. reflexivity. }
  cbn [disk].
  assert (delete "entries_old"%string
            (<["entries"%string := t']>
               (<["entries"%string := {| t_columns := entries_columns; t_rows := [];
                                         t_sequence := 0 |}]>
                  (<["entries_old"%string := t]> (delete "entries"%string d))))
            !! "entries"%string
          = Some t') as Hnew.
  { rewrite lookup_delete_ne by done. apply lookup_insert_eq. }
  assert (Forall2 (migrated (t_columns t)) (t_rows t) (t_rows t')) as Hmig.
  { apply Forall2_fmap_r, Forall_Forall2_diag, Forall_forall.
    intros r _. apply copied_row_migrated. }
  split; [exact Hnew|]. split; [done|]. split; [apply length_fmap|].
  split; [exact Hmig|]. split; [apply lookup_delete_eq|].
  split; [by eexists|]. split; [exact Hnew|]. split; [done|].
  apply (Forall2_Forall_r _ (λ r' : list sqlvalue, length r' = length entries_columns)
           _ _ Hmig).
  apply Forall_forall. by intros r _ r'' (Hlen & _).
Qed.

Lemma legacy_state_is_legacy : legacy_store legacy_state legacy_table.
Proof.
  split; [reflexivity|]. split; [reflexivity|]. split; [reflexivity|].
  split; [by repeat constructor|].
  apply (bool_decide_unpack _). exact I.
Qed.

Lemma initDatabase_migrates_witness :
  legacy_store legacy_state legacy_table
  ∧ ∃ st' t',
      initDatabase legacy_state = (Returned tt, st')
      ∧ disk st' !! "entries"%string = Some t'
      ∧ t_columns t' = entries_columns
      ∧ length (t_rows t') = length (t_rows legacy_table)
      ∧ Forall2 (migrated (t_columns legacy_table)) (t_rows legacy_table) (t_rows t')
      ∧ disk st' !! "entries_old"%string = None
      ∧ initialized st' t'.
Proof.
  split; [exact legacy_state_is_legacy|].
  exact (initDatabase_migrates legacy_state legacy_table legacy_state_is_legacy).
Defined.

(* --- initDatabase on a new store and on a current one ---------------------- *)

(* No table yet: the current declaration is created, empty. *)
Lemma initDatabase_fresh (st : state) :
  disk st !! "entries"%string = None →
  ∃ st',
    initDatabase st = (Returned tt, st')
    ∧ initialized st' {| t_columns := entries_columns; t_rows := []; t_sequence := 0 |}.
Proof.
  intros Hnone. destruct st as [h d now]. simpl in Hnone.
  unfold initDatabase.
  erewrite bind_returned; [|reflexivity].
  erewrite bind_returned.
  2:{ unfold db_select, table_info. cbn [disk]. rewrite Hnone. reflexivity. }
  cbn. unfold db_execute, create_table. cbn [disk]. rewrite Hnone.
  eexists. split; [reflexivity|].
  split; [by eexists|]. split; [apply lookup_insert_eq|]. split; [done|]. constructor.
Qed.

(* The table is there with the current declaration: only the handle is set. *)
Lemma initDatabase_current (st : state) (t : table) :
  disk st !! "entries"%string = Some t →
  t_columns t = entries_columns →
  Forall (λ r : row, length r = length entries_columns) (t_rows t) →
  ∃ st',
    initDatabase st = (Returned tt, st')
    ∧ disk st' = disk st
    ∧ initialized st' t.
Proof.
  intros Ht Hcols Hlen. destruct st as [h d now]. simpl in Ht.
  exists {| db := Some (Connection "sqlite:kscope.db"); disk := d; unixepoch := now |}.
  split; [|split; [done|]; split; [by eexists|done]].
  unfold initDatabase.
  erewrite bind_returned; [|reflexivity].
  erewrite bind_returned.
  2:{ unfold db_select, table_info. cbn [disk]. rewrite Ht, Hcols. reflexivity. }
  reflexivity.
Qed.

(* --- the store: from a result back to its steps ---------------------------- *)

Lemma bind_returned_inv {A B} (m : Store A) (f : A → Store B) (st st' : state) (b : B) :
  (m ≫= f) st = (Returned b, st') →
  ∃ a st1, m st = (Returned a, st1) ∧ f a st1 = (Returned b, st').
Proof.
  unfold mbind, Store_bind. destruct (m st) as [[a|e] st1]; [|discriminate].
  intros H. by exists a, st1.
Qed.

Lemma db_execute_inv (statement : gmap string table → sql_result (gmap string table))
    (st st' : state) :
  db_execute statement st = (Returned tt, st') →
  ∃ d, statement (disk st) = Done d
       ∧ st' = {| db := db st; disk := d; unixepoch := unixepoch st |}.
Proof.
  unfold db_execute. destruct (statement (disk st)) as [d|e]; [|discriminate].
  intros [= <-]. by exists d.
Qed.

Lemma sql_bind_inv {A B} (m : sql_result A) (f : A → sql_result B) (b : B) :
  m ≫= f = Done b → ∃ a, m = Done a ∧ f a = Done b.
Proof. destruct m as [a|e]; [|discriminate]. intros H. by exists a. Qed.

(* ========================================================================= *)
(* More of the store                                                         *)
(* ========================================================================= *)

(* --- the order of values --------------------------------------------------- *)

Lemma text_leb_total (a b : jsstring) : text_leb a b = true ∨ text_leb b a = true.
Proof.
  revert b. induction a as [|x a IH]; intros [|y b]; simpl; auto.
  destruct (N.lt_trichotomy x y) as [H|[->|H]].
  - left. apply orb_true_iff. left. by apply N.ltb_lt.
  - rewrite N.ltb_irrefl, N.eqb_refl. simpl. apply IH.
  - right. apply orb_true_iff. left. by apply N.ltb_lt.
Qed.

Lemma text_leb_trans (a b c : jsstring) :
  text_leb a b = true → text_leb b c = true → text_leb a c = true.
Proof.
  revert b c. induction a as [|x a IH]; intros [|y b] [|z c]; simpl; try done.
  intros [Hxy|[Hxy Hab]%andb_true_iff]%orb_true_iff
         [Hyz|[Hyz Hbc]%andb_true_iff]%orb_true_iff;
    apply orb_true_iff;
    repeat match goal with
           | H : (_ <? _)%N = true |- _ => apply N.ltb_lt in H
           | H : (_ =? _)%N = true |- _ => apply N.eqb_eq in H
           end; subst.
  - left. apply N.ltb_lt. lia.
  - left. by apply N.ltb_lt.
  - left. by apply N.ltb_lt.
  - right. rewrite N.eqb_refl. simpl. by apply (IH b).
Qed.

Lemma sql_leb_total (a b : sqlvalue) : sql_leb a b = true ∨ sql_leb b a = true.
Proof.
  destruct a, b; simpl; auto.
  - destruct (Z.le_gt_cases n n0); [left | right]; apply Z.leb_le; lia.
  - apply text_leb_total.
Qed.

Lemma sql_leb_trans (a b c : sqlvalue) :
  sql_leb a b = true → sql_leb b c = true → sql_leb a c = true.
Proof.
  destruct a, b, c; simpl; try done.
  - intros H1%Z.leb_le H2%Z.leb_le. apply Z.leb_le. lia.
  - apply text_leb_trans.
Qed.

#[global] Instance order_desc_total cols c : Total (order_desc cols c).
Proof.
  intros r1 r2. unfold order_desc.
  destruct (sql_leb_total (cell cols r2 c) (cell cols r1 c)) as [->| ->]; simpl; auto.
Qed.

#[global] Instance order_desc_trans cols c : Transitive (order_desc cols c).
Proof.
  intros r1 r2 r3. unfold order_desc. intros H1%Is_true_true H2%Is_true_true.
  apply Is_true_true. by apply (sql_leb_trans _ (cell cols r2 c)).
Qed.

Lemma StronglySorted_lookup {A} (R : relation A) (l : list A) (i j : nat) (x y : A) :
  StronglySorted R l → (i < j)%nat → l !! i = Some x → l !! j = Some y → R x y.
Proof.
  intros Hs. revert i j. induction Hs as [|a l Hs IH Hall]; intros i j Hij Hi Hj.
  - done.
  - destruct j as [|j]; [lia|]. simpl in Hj. destruct i as [|i]; simpl in Hi.
    + injection Hi as <-. apply (proj1 (Forall_forall _ _) Hall).
      by eapply list_elem_of_lookup_2.
    + apply (IH i j); [lia|done|done].
Qed.

(* --- what getEntries shows of a row ---------------------------------------- *)

Lemma entry_object_fields (r : row) :
  length r = length entries_columns →
  obj_get (entry_object r) "id" = to_js (cell entries_columns r "id")
  ∧ obj_get (entry_object r) "type" = to_js (cell entries_columns r "type")
  ∧ obj_get (entry_object r) "name" = to_js (cell entries_columns r "name")
  ∧ obj_get (entry_object r) "launch_type" = to_js (cell entries_columns r "launch_type")
  ∧ obj_get (entry_object r) "launch_data" = to_js (cell entries_columns r "launch_data")
  ∧ obj_get (entry_object r) "launch_args" = to_js (cell entries_columns r "launch_args")
  ∧ obj_get (entry_object r) "image_data" = to_js (cell entries_columns r "image_data")
  ∧ obj_get (entry_object r) "deprecated"
    = JBoolean (Boolean (to_js (cell entries_columns r "deprecated")))
  ∧ obj_get (entry_object r) "created_at" = to_js (cell entries_columns r "created_at").
Proof. intros H. nine_values r H. repeat split. Qed.

Lemma getEntries_objects (st : state) (t : table) (type : jsstring) :
  initialized st t →
  getEntries type st
  = (Returned (entry_object <$>
       merge_sort (order_desc entries_columns "created_at") (of_category type (t_rows t))),
     st).
Proof.
  intros Hinit. rewrite (getEntries_initialized st t type Hinit).
  by rewrite <- list_fmap_compose.
Qed.

Lemma sorted_rows_wide (st : state) (t : table) (type : jsstring) (r : row) :
  initialized st t →
  r ∈ merge_sort (order_desc entries_columns "created_at") (of_category type (t_rows t)) →
  length r = length entries_columns
  ∧ cell entries_columns r "type" = SText type.
Proof.
  intros (_ & _ & _ & Hlen) Hr. rewrite merge_sort_Permutation in Hr.
  apply list_elem_of_filter in Hr as [Hty Hr]. split.
  - by apply (proj1 (Forall_forall _ _) Hlen).
  - destruct (cell entries_columns r "type") as [| |s]; simpl in Hty; try done.
    by apply bool_decide_unpack in Hty as ->.
Qed.

Lemma getEntries_of_category (st : state) (t : table) (type : jsstring) :
  initialized st t →
  ∃ entries,
    getEntries type st = (Returned entries, st)
    ∧ entries ≡ₚ entry_object <$> of_category type (t_rows t)
    ∧ ∀ entry, entry ∈ entries → obj_get entry "type" = JString type.
Proof.
  intros Hinit. eexists. split; [by apply getEntries_objects|]. split.
  - by rewrite merge_sort_Permutation.
  - intros entry (r & -> & Hr)%list_elem_of_fmap.
    destruct (sorted_rows_wide st t type r Hinit Hr) as [Hlen Hty].
    destruct (entry_object_fields r Hlen) as (_ & -> & _). by rewrite Hty.
Qed.

(** X1: on an initialized store getEntries(type) returns, changes nothing, and
    its result holds exactly the rows of that category, each once: it is a
    rearrangement of their objects, and every object in it has that type. *)
Theorem getEntries_exactly_the_category (st : state) (t : table) (type : jsstring) :
  initialized st t →
  ∃ entries,
    getEntries type st = (Returned entries, st)
    ∧ entries ≡ₚ entry_object <$> of_category type (t_rows t)
    ∧ ∀ entry, entry ∈ entries → obj_get entry "type" = JString type.
Proof. apply getEntries_of_category. Qed.

Lemma getEntries_exactly_the_category_witness :
  initialized sample_state sample_table
  ∧ ∃ entries,
      getEntries (js "app") sample_state = (Returned entries, sample_state)
      ∧ entries ≡ₚ entry_object <$> of_category (js "app") (t_rows sample_table)
      ∧ ∀ entry, entry ∈ entries → obj_get entry "type" = JString (js "app").
Proof.
  split; [exact sample_initialized|].
  exact (getEntries_exactly_the_category sample_state sample_table (js "app")
           sample_initialized).
Defined.

(** X2: the result of getEntries is ordered newest first: of two entries whose
    created_at are numbers, the one that comes later in the result is not the
    newer one. *)
Theorem getEntries_newest_first (st : state) (t : table) (type : jsstring) :
  initialized st t →
  ∃ entries,
    getEntries type st = (Returned entries, st)
    ∧ ∀ (i j : nat) earlier later (a b : Z),
        (i < j)%nat →
        entries !! i = Some earlier → entries !! j = Some later →
        obj_get earlier "created_at" = JNumber a →
        obj_get later "created_at" = JNumber b →
        b ≤ a.
Proof.
  intros Hinit. eexists. split; [by apply getEntries_objects|].
  intros i j earlier later a b Hij Hi Hj Ha Hb.
  apply list_lookup_fmap_Some in Hi as (ri & -> & Hi).
  apply list_lookup_fmap_Some in Hj as (rj & -> & Hj).
  pose proof (StronglySorted_merge_sort (order_desc entries_columns "created_at")
                (of_category type (t_rows t))) as Hsorted.
  pose proof (StronglySorted_lookup _ _ i j ri rj Hsorted Hij Hi Hj) as Hord.
  destruct (sorted_rows_wide st t type ri Hinit) as [Hli _];
    [by eapply list_elem_of_lookup_2|].
  destruct (sorted_rows_wide st t type rj Hinit) as [Hlj _];
    [by eapply list_elem_of_lookup_2|].
  destruct (entry_object_fields ri Hli) as (_ & _ & _ & _ & _ & _ & _ & _ & Hci).
  destruct (entry_object_fields rj Hlj) as (_ & _ & _ & _ & _ & _ & _ & _ & Hcj).
  rewrite Hci in Ha. rewrite Hcj in Hb. unfold order_desc in Hord.
  destruct (cell entries_columns ri "created_at"); try discriminate Ha.
  destruct (cell entries_columns rj "created_at"); try discriminate Hb.
  injection Ha as ->. injection Hb as ->. simpl in Hord.
  by apply Is_true_true, Z.leb_le in Hord.
Qed.



Lemma library_initialized : initialized library_state library_table.
Proof.
  split; [by eexists|]. split; [reflexivity|]. split; [reflexivity|].
  repeat constructor.
Qed.

Lemma getEntries_newest_first_witness :
  initialized library_state library_table
  ∧ ∃ entries,
      getEntries (js "game") library_state = (Returned entries, library_state)
      ∧ ∀ (i j : nat) earlier later (a b : Z),
          (i < j)%nat →
          entries !! i = Some earlier → entries !! j = Some later →
          obj_get earlier "created_at" = JNumber a →
          obj_get later "created_at" = JNumber b →
          b ≤ a.
Proof.
  split; [exact library_initialized|].
  exact (getEntries_newest_first library_state library_table (js "game") library_initialized).
Defined.

(* --- getGames and getApps --------------------------------------------------- *)

Lemma categories_split (rows : list row) :
  Forall has_category rows →
  (length (of_category (js "game") rows) + length (of_category (js "app") rows))%nat
  = length rows.
Proof.
  unfold of_category. induction 1 as [|r rows Hr _ IH]; [done|].
  rewrite !filter_cons.
  destruct Hr as [Hr|Hr]; rewrite Hr; simpl;
    repeat case_decide; simpl in *; try done; lia.
Qed.

(** X3: getGames and getApps split the table between them: on an initialized
    store whose rows all have category game or app, both return, together
    they hold as many entries as the table has rows, and no entry is in
    both. *)
Theorem getGames_getApps_split (st : state) (t : table) :
  initialized st t →
  Forall has_category (t_rows t) →
  ∃ games apps,
    getGames st = (Returned games, st)
    ∧ getApps st = (Returned apps, st)
    ∧ (length games + length apps)%nat = length (t_rows t)
    ∧ ∀ entry, entry ∈ games → entry ∉ apps.
Proof.
  intros Hinit Hcat. unfold getGames, getApps.
  destruct (getEntries_of_category st t (js "game") Hinit)
    as (games & Hg & Hgp & Hgt).
  destruct (getEntries_of_category st t (js "app") Hinit)
    as (apps & Ha & Hap & Hat).
  exists games, apps. split; [done|]. split; [done|]. split.
  - rewrite Hgp, Hap, !length_fmap. by apply categories_split.
  - intros entry Hing Hina. specialize (Hgt entry Hing). specialize (Hat entry Hina).
    rewrite Hgt in Hat. discriminate Hat.
Qed.

Lemma getGames_getApps_split_witness :
  initialized library_state library_table
  ∧ Forall has_category (t_rows library_table)
  ∧ ∃ games apps,
      getGames library_state = (Returned games, library_state)
      ∧ getApps library_state = (Returned apps, library_state)
      ∧ (length games + length apps)%nat = length (t_rows library_table)
      ∧ ∀ entry, entry ∈ games → entry ∉ apps.
Proof.
  assert (Forall has_category (t_rows library_table)) as Hcat.
  { repeat constructor; by (left + right). }
  split; [exact library_initialized|]. split; [exact Hcat|].
  exact (getGames_getApps_split library_state library_table library_initialized Hcat).
Defined.

(* --- toggleDeprecated ------------------------------------------------------- *)

Lemma toggle_checks_pass (rs : list row) :
  check_updates entries_columns [("deprecated"%string, NotColumn "deprecated")] rs = Done tt.
Proof. induction rs as [|r rs IH]; [done|]. cbn [check_updates]. by rewrite IH. Qed.

Lemma toggleDeprecated_initialized (st : state) (t : table) (id : Z) :
  initialized st t →
  toggleDeprecated id st
  = (Returned tt,
     with_entries st
       {| t_columns := entries_columns;
          t_rows :=
            (λ r, if sql_eq (cell entries_columns r "id") (SInt id)
                  then [cell entries_columns r "id"; cell entries_columns r "type";
                        cell entries_columns r "name"; cell entries_columns r "launch_type";
                        cell entries_columns r "launch_data";
                        cell entries_columns r "launch_args";
                        cell entries_columns r "image_data";
                        sql_not (cell entries_columns r "deprecated");
                        cell entries_columns r "created_at"]
                  else r) <$> t_rows t;
          t_sequence := t_sequence t |}).
Proof.
  intros (Hdb & Ht & Hcols & Hlen). unfold toggleDeprecated.
  rewrite (bind_returned _ _ st st tt) by (by apply require_db_set).
  unfold db_execute, update_where, require_table. rewrite Ht.
  unfold mbind, sql_result_bind. rewrite Hcols.
  change (require_columns entries_columns _) with (Done tt).
  rewrite toggle_checks_pass.
  unfold with_entries. do 4 f_equal.
  apply Forall_fmap_ext_1. eapply Forall_impl; [exact Hlen|].
  intros r Hr. nine_values r Hr. simpl. by destruct (sql_eq _ _).
Qed.

(** X4: on an initialized store toggleDeprecated(id) returns; in every row
    whose id matches the flag becomes NOT of what it was (0 for a number that
    is not 0, 1 for 0, nothing stays nothing) and the other eight columns keep
    their values; every other row stays as it was. *)
Theorem toggleDeprecated_flips_the_flag (st : state) (t : table) (id : Z) :
  initialized st t →
  ∃ rows',
    toggleDeprecated id st
    = (Returned tt,
       with_entries st
         {| t_columns := entries_columns; t_rows := rows'; t_sequence := t_sequence t |})
    ∧ Forall2
        (λ old new,
           if sql_eq (cell entries_columns old "id") (SInt id)
           then toggled old new
           else new = old)
        (t_rows t) rows'.
Proof.
  intros Hinit. pose proof Hinit as (Hdb & Ht & Hcols & Hlen).
  eexists. split; [by apply toggleDeprecated_initialized|].
  apply Forall2_fmap_r, Forall_Forall2_diag.
  eapply Forall_impl; [exact Hlen|]. intros r Hr. cbn beta in Hr.
  unfold compose. destruct (sql_eq _ _); [|done].
  nine_values r Hr. repeat split.
  simpl. unfold sql_not, sql_truth.
  match goal with |- match ?v with _ => _ end => destruct v as [|n|txt] end.
  - done.
  - by destruct (n =? 0).
  - by destruct (numeric_prefix_nonzero _).
Qed.

Lemma toggleDeprecated_flips_the_flag_witness :
  initialized library_state library_table
  ∧ ∃ rows',
      toggleDeprecated 2 library_state
      = (Returned tt,
         with_entries library_state
           {| t_columns := entries_columns; t_rows := rows';
              t_sequence := t_sequence library_table |})
      ∧ Forall2
          (λ old new,
             if sql_eq (cell entries_columns old "id") (SInt 2)
             then toggled old new
             else new = old)
          (t_rows library_table) rows'.
Proof.
  split; [exact library_initialized|].
  exact (toggleDeprecated_flips_the_flag library_state library_table 2 library_initialized).
Defined.

(** X5: toggling twice is no change: on an initialized store where the rows
    with that id hold 0, 1 or nothing as their flag, toggleDeprecated(id)
    followed by toggleDeprecated(id) returns and leaves the store exactly as
    it was. *)
Theorem toggleDeprecated_twice (st : state) (t : table) (id : Z) :
  initialized st t →
  (∀ r, r ∈ t_rows t → sql_eq (cell entries_columns r "id") (SInt id) = true →
        plain_flag (cell entries_columns r "deprecated")) →
  (toggleDeprecated id;; toggleDeprecated id) st = (Returned tt, st).
Proof.
  intros Hinit Hflags. pose proof Hinit as (Hdb & Ht & Hcols & Hlen).
  erewrite bind_returned; [|by apply toggleDeprecated_initialized].
  erewrite toggleDeprecated_initialized.
  2:{ apply (initialized_with_entries st t); [done|].
      apply Forall_fmap. eapply Forall_impl; [exact Hlen|].
      intros r Hr. cbn beta in Hr. unfold compose.
      destruct (sql_eq _ _); [reflexivity|done]. }
  rewrite with_entries_twice. f_equal. apply with_entries_same. rewrite Ht. f_equal.
  destruct t as [cols rows seq]. simpl in *. subst cols. f_equal.
  rewrite <- list_fmap_compose. symmetry. etrans; [|apply (list_fmap_id rows)].
  apply Forall_fmap_ext_1, Forall_forall. intros r Hr.
  pose proof (proj1 (Forall_forall _ _) Hlen r Hr) as Hl. cbn beta in Hl.
  specialize (Hflags r Hr). unfold compose.
  destruct (sql_eq (cell entries_columns r "id") (SInt id)) eqn:Hhit;
    [|by rewrite Hhit].
  assert (∀ a b c d e f g h i : sqlvalue,
            cell entries_columns [a; b; c; d; e; f; g; h; i] "id" = a) as Hid
    by reflexivity.
  rewrite Hid, Hhit. specialize (Hflags eq_refl).
  nine_values r Hl.
  change (cell entries_columns _ "deprecated") with s6 in Hflags.
  destruct Hflags as [->|[->| ->]]; reflexivity.
Qed.

Lemma toggleDeprecated_twice_witness :
  initialized library_state library_table
  ∧ (toggleDeprecated 2;; toggleDeprecated 2) library_state = (Returned tt, library_state).
Proof.
  split; [exact library_initialized|].
  apply (toggleDeprecated_twice library_state library_table 2 library_initialized).
  intros r Hr Hhit. unfold library_table, library_rows in Hr. simpl in Hr.
  repeat (apply elem_of_cons in Hr as [->|Hr]; [try discriminate Hhit|]).
  - right; left. reflexivity.
  - by apply elem_of_nil in Hr.
Defined.

(* --- what the store refuses ------------------------------------------------- *)

Lemma insert_entry_refused (now : Z) (t : table)
    (type name launchType launchData launchArgs imageData : jsstring) :
  t_columns t = entries_columns →
  type ∉ categories ∨ launchType ∉ launch_types →
  ∃ column,
    insert_row now t
      [("type"%string, SText type); ("name"%string, SText name);
       ("launch_type"%string, SText launchType); ("launch_data"%string, SText launchData);
       ("launch_args"%string, SText launchArgs); ("image_data"%string, SText imageData)]
    = Refused (CheckFailed column)
    ∧ (column = "type"%string ∧ type ∉ categories
       ∨ column = "launch_type"%string ∧ launchType ∉ launch_types).
Proof.
  intros Hcols Hbad. unfold insert_row, choose_rowid. rewrite Hcols.
  unfold mbind, sql_result_bind. simpl.
  unfold check_column, mbind, sql_result_bind. simpl.
  destruct (decide (type ∈ categories)) as [Hty|Hty].
  - rewrite (bool_decide_eq_true_2 _ Hty).
    destruct Hbad as [Hbad|Hbad]; [done|].
    rewrite (bool_decide_eq_false_2 _ Hbad). eexists. split; [reflexivity|]. by right.
  - rewrite (bool_decide_eq_false_2 _ Hty). eexists. split; [reflexivity|]. by left.
Qed.

(** X6: addEntry writes nothing it may not: on an initialized store, with a
    category outside game and app or a launch type outside the four, it
    throws the engine's CHECK failure of a column whose value is not
    allowed - of type when only the category is outside its list, of
    launch_type when only the launch type is - and the store is exactly as
    before. *)
Theorem addEntry_refuses_unknown_kinds (st : state) (t : table)
    (type name launchType launchData launchArgs imageData : jsstring) :
  initialized st t →
  type ∉ categories ∨ launchType ∉ launch_types →
  ∃ column,
    addEntry type name launchType launchData launchArgs imageData st
    = (Threw (SqlError (CheckFailed column)), st)
    ∧ (column = "type"%string ∧ type ∉ categories
       ∨ column = "launch_type"%string ∧ launchType ∉ launch_types)
    ∧ (launchType ∈ launch_types → column = "type"%string)
    ∧ (type ∈ categories → column = "launch_type"%string).
Proof.
  intros (Hdb & Ht & Hcols & _) Hbad.
  destruct (insert_entry_refused (unixepoch st) t type name launchType launchData
              launchArgs imageData Hcols Hbad) as (column & Href & Hcolumn).
  exists column. split; [|split; [exact Hcolumn|split]].
  - unfold addEntry.
    rewrite (bind_returned _ _ st st tt) by (by apply require_db_set).
    apply bind_threw. unfold db_execute_insert, insert_values, require_table.
    rewrite Ht. unfold mbind at 1, sql_result_bind at 1. rewrite Href. reflexivity.
  - intros Hlt. by destruct Hcolumn as [[-> _]|[_ Hno]].
  - intros Hty. by destruct Hcolumn as [[_ Hno]|[-> _]].
Qed.

Lemma addEntry_refuses_unknown_kinds_witness :
  initialized library_state library_table
  ∧ (js "game" ∉ categories ∨ js "lnk" ∉ launch_types)
  ∧ addEntry (js "game") (js "Notes") (js "lnk") (js "C:/notes.lnk") []
      (js "data:image/png;base64,DDDD") library_state
    = (Threw (SqlError (CheckFailed "launch_type")), library_state)
  ∧ addEntry (js "tool") (js "Notes") (js "exe") (js "C:/notes.exe") []
      (js "data:image/png;base64,DDDD") library_state
    = (Threw (SqlError (CheckFailed "type")), library_state).
Proof.
  assert (js "game" ∉ categories ∨ js "lnk" ∉ launch_types) as Hbad.
  { right. apply (proj1 (bool_decide_eq_false (js "lnk" ∈ launch_types))). reflexivity. }
  assert (js "tool" ∉ categories ∨ js "exe" ∉ launch_types) as Hbad'.
  { left. apply (proj1 (bool_decide_eq_false (js "tool" ∈ categories))). reflexivity. }
  assert (js "game" ∈ categories) as Hty by (apply (bool_decide_unpack _); exact I).
  assert (js "exe" ∈ launch_types) as Hlt by (apply (bool_decide_unpack _); exact I).
  split; [exact library_initialized|]. split; [exact Hbad|]. split.
  - destruct (addEntry_refuses_unknown_kinds library_state library_table (js "game")
                (js "Notes") (js "lnk") (js "C:/notes.lnk") []
                (js "data:image/png;base64,DDDD") library_initialized Hbad)
      as (column & Hrun & _ & _ & Hcolumn).
    rewrite Hrun. by rewrite (Hcolumn Hty).
  - destruct (addEntry_refuses_unknown_kinds library_state library_table (js "tool")
                (js "Notes") (js "exe") (js "C:/notes.exe") []
                (js "data:image/png;base64,DDDD") library_initialized Hbad')
      as (column & Hrun & _ & Hcolumn & _).
    rewrite Hrun. by rewrite (Hcolumn Hlt).
Defined.

Lemma existsb_filter_nil {A} (f : A → bool) (l : list A) :
  existsb f l = false → filter (λ x, Is_true (f x)) l = [].
Proof.
  induction l as [|x l IH]; [done|]. simpl. intros [Hx Hl]%orb_false_iff.
  rewrite filter_cons, decide_False by (rewrite Hx; exact (λ H, H)). by apply IH.
Qed.

Lemma existsb_filter_cons {A} (f : A → bool) (l : list A) :
  existsb f l = true → ∃ x l', filter (λ x, Is_true (f x)) l = x :: l'.
Proof.
  induction l as [|x l IH]; [done|]. simpl. rewrite filter_cons.
  case_decide as Hd; [by eexists _, _|].
  destruct (f x); [by destruct Hd|]. simpl. apply IH.
Qed.

(** X7: updateEntry with a launch type outside the four: when a row has the
    id the engine's CHECK on launch_type fails, updateEntry throws and the
    store is as before; when no row has the id nothing is tested, updateEntry
    returns and the store is as before. *)
Theorem updateEntry_unknown_launch_type (st : state) (t : table) (id : Z)
    (name launchType launchData launchArgs imageData : jsstring) :
  initialized st t →
  launchType ∉ launch_types →
  updateEntry id name launchType launchData launchArgs imageData st
  = (if existsb (λ r, sql_eq (cell entries_columns r "id") (SInt id)) (t_rows t)
     then Threw (SqlError (CheckFailed "launch_type"))
     else Returned tt,
     st).
Proof.
  intros (Hdb & Ht & Hcols & Hlen) Hbad. unfold updateEntry.
  rewrite (bind_returned _ _ st st tt) by (by apply require_db_set).
  unfold db_execute, update_where, require_table. rewrite Ht.
  unfold mbind at 1, sql_result_bind at 1. rewrite Hcols.
  change (require_columns entries_columns _) with (Done tt).
  unfold mbind at 1, sql_result_bind at 1.
  destruct (existsb _ (t_rows t)) eqn:Hany.
  - apply existsb_filter_cons in Hany as (r & rs & ->).
    cbn [check_updates]. unfold check_sets, find_column, check_column. simpl.
    unfold mbind, sql_result_bind. simpl.
    by rewrite (bool_decide_eq_false_2 _ Hbad).
  - rewrite (existsb_filter_nil _ _ Hany). simpl.
    f_equal. destruct st as [h d now]. simpl in *. f_equal.
    apply insert_id. rewrite Ht. f_equal.
    destruct t as [cols rows seq]. simpl in *. subst cols. f_equal.
    symmetry. etrans; [|apply (list_fmap_id rows)].
    apply Forall_fmap_ext_1, Forall_forall. intros r Hr.
    assert (sql_eq (cell entries_columns r "id") (SInt id) = false) as ->; [|done].
    apply not_true_is_false. intros Hhit.
    assert (existsb (λ r, sql_eq (cell entries_columns r "id") (SInt id)) rows = true)
      as Hex; [|congruence].
    apply existsb_exists. exists r. split; [by apply list_elem_of_In|done].
Qed.

Lemma updateEntry_unknown_launch_type_witness :
  initialized library_state library_table
  ∧ (js "lnk" ∉ launch_types)
  ∧ updateEntry 2 (js "Notes") (js "lnk") (js "C:/notes.lnk") []
      (js "data:image/png;base64,DDDD") library_state
    = (Threw (SqlError (CheckFailed "launch_type")), library_state)
  ∧ updateEntry 9 (js "Notes") (js "lnk") (js "C:/notes.lnk") []
      (js "data:image/png;base64,DDDD") library_state
    = (Returned tt, library_state).
Proof.
  assert (js "lnk" ∉ launch_types) as Hbad.
  { apply (proj1 (bool_decide_eq_false (js "lnk" ∈ launch_types))). reflexivity. }
  split; [exact library_initialized|]. split; [exact Hbad|]. split.
  - exact (updateEntry_unknown_launch_type library_state library_table 2 (js "Notes")
             (js "lnk") (js "C:/notes.lnk") [] (js "data:image/png;base64,DDDD")
             library_initialized Hbad).
  - exact (updateEntry_unknown_launch_type library_state library_table 9 (js "Notes")
             (js "lnk") (js "C:/notes.lnk") [] (js "data:image/png;base64,DDDD")
             library_initialized Hbad).
Defined.

(* --- AUTOINCREMENT ---------------------------------------------------------- *)

Lemma foldr_max_base (a : Z) (l : list Z) : a ≤ foldr Z.max a l.
Proof. induction l as [|y l IH]; simpl; lia. Qed.

Section NeverReused.

Variables (type name launchType launchData launchArgs imageData : jsstring).
Variables (type' name' launchType' launchData' launchArgs' imageData' : jsstring).

(** X8: an id is never issued twice: on an initialized store, when addEntry
    has returned an entry, that entry is deleted and addEntry is called
    again, the second entry gets a larger id than the first had. *)
Theorem addEntry_never_reuses_an_id (st : state) (t : table) :
  initialized st t →
  type ∈ categories → launchType ∈ launch_types →
  type' ∈ categories → launchType' ∈ launch_types →
  ∃ (a b : Z) first second st1 st2 st3,
    addEntry type name launchType launchData launchArgs imageData st
    = (Returned first, st1)
    ∧ obj_get first "id" = JNumber a
    ∧ deleteEntry a st1 = (Returned tt, st2)
    ∧ addEntry type' name' launchType' launchData' launchArgs' imageData' st2
      = (Returned second, st3)
    ∧ obj_get second "id" = JNumber b
    ∧ a < b.
Proof.
  intros Hinit Hty Hlt Hty' Hlt'. pose proof Hinit as (Hdb & Ht & Hcols & Hlen).
  set (a := next_rowid t).
  set (new := [SInt a; SText type; SText name; SText launchType; SText launchData;
               SText launchArgs; SText imageData; SInt 0; SInt (unixepoch st)]).
  set (T1 := {| t_columns := entries_columns; t_rows := t_rows t ++ [new];
                t_sequence := Z.max (t_sequence t) a |}).
  assert (initialized (with_entries st T1) T1) as Hinit1.
  { apply (initialized_with_entries st t); [done|].
    apply Forall_app. split; [done|]. by repeat constructor. }
  set (T2 := {| t_columns := entries_columns;
                t_rows := filter (λ r, ¬ Is_true (sql_eq (cell entries_columns r "id") (SInt a)))
                            (t_rows T1);
                t_sequence := t_sequence T1 |}).
  assert (initialized (with_entries st T2) T2) as Hinit2.
  { apply (initialized_with_entries st t); [done|].
    apply Forall_forall. intros r [_ Hr]%list_elem_of_filter.
    destruct Hinit1 as (_ & _ & _ & Hl). by apply (proj1 (Forall_forall _ _) Hl). }
  exists a, (next_rowid T2). do 2 eexists. exists (with_entries st T1), (with_entries st T2).
  eexists.
  split; [by apply (addEntry_initialized st t)|]. split; [reflexivity|].
  split.
  { rewrite (deleteEntry_initialized _ _ a Hinit1). by rewrite with_entries_twice. }
  split; [by apply (addEntry_initialized _ T2)|]. split; [reflexivity|].
  unfold next_rowid at 1.
  pose proof (foldr_max_base (t_sequence T2) (rowids T2)) as Hbase.
  change (t_sequence T2) with (Z.max (t_sequence t) a) in *. lia.
Qed.

End NeverReused.

Lemma addEntry_never_reuses_an_id_witness :
  initialized library_state library_table
  ∧ ∃ (a b : Z) first second st1 st2 st3,
      addEntry (js "game") (js "Hades") (js "steam") (js "1145360") []
        (js "data:image/png;base64,EEEE") library_state
      = (Returned first, st1)
      ∧ obj_get first "id" = JNumber a
      ∧ deleteEntry a st1 = (Returned tt, st2)
      ∧ addEntry (js "app") (js "Notes") (js "url") (js "https://notes.example") []
          (js "data:image/png;base64,FFFF") st2
        = (Returned second, st3)
      ∧ obj_get second "id" = JNumber b
      ∧ a < b.
Proof.
  split; [exact library_initialized|].
  apply (addEntry_never_reuses_an_id (js "game") (js "Hades") (js "steam") (js "1145360") []
           (js "data:image/png;base64,EEEE") (js "app") (js "Notes") (js "url")
           (js "https://notes.example") [] (js "data:image/png;base64,FFFF")
           library_state library_table library_initialized);
    apply (bool_decide_unpack _); exact I.
Defined.

(* --- updateEntry, then getEntries ------------------------------------------- *)

(** X9: what updateEntry writes is what getEntries then shows: on an
    initialized store holding a row with that id in that category, with a
    launch type of the four, updateEntry returns, getEntries on the category
    lists an entry with the id, and every listed entry with the id shows the
    name, launch type, launch data, launch args and image passed. *)
Theorem updateEntry_then_getEntries (st : state) (t : table) (id : Z)
    (type name launchType launchData launchArgs imageData : jsstring) :
  initialized st t →
  launchType ∈ launch_types →
  (∃ r, r ∈ t_rows t ∧ cell entries_columns r "id" = SInt id
        ∧ cell entries_columns r "type" = SText type) →
  ∃ st' entries,
    updateEntry id name launchType launchData launchArgs imageData st = (Returned tt, st')
    ∧ getEntries type st' = (Returned entries, st')
    ∧ (∃ entry, entry ∈ entries ∧ obj_get entry "id" = JNumber id)
    ∧ ∀ entry, entry ∈ entries → obj_get entry "id" = JNumber id →
        obj_get entry "name" = JString name
        ∧ obj_get entry "launch_type" = JString launchType
        ∧ obj_get entry "launch_data" = JString launchData
        ∧ obj_get entry "launch_args" = JString launchArgs
        ∧ obj_get entry "image_data" = JString imageData.
Proof.
  intros Hinit Hlt (r & Hr & Hid & Hty). pose proof Hinit as (Hdb & Ht & Hcols & Hlen).
  set (f := λ r : list sqlvalue,
         if sql_eq (cell entries_columns r "id") (SInt id)
         then [cell entries_columns r "id"; cell entries_columns r "type";
               SText name; SText launchType; SText launchData; SText launchArgs;
               SText imageData; cell entries_columns r "deprecated";
               cell entries_columns r "created_at"]
         else r).
  set (T' := {| t_columns := entries_columns; t_rows := f <$> t_rows t;
                t_sequence := t_sequence t |}).
  assert (∀ r0, length r0 = length entries_columns →
            length (f r0) = length entries_columns
            ∧ cell entries_columns (f r0) "id" = cell entries_columns r0 "id"
            ∧ cell entries_columns (f r0) "type" = cell entries_columns r0 "type")
    as Hf.
  { intros r0 Hl. unfold f. destruct (sql_eq _ _); [|done]. nine_values r0 Hl. done. }
  assert (initialized (with_entries st T') T') as Hinit'.
  { apply (initialized_with_entries st t); [done|].
    apply Forall_fmap. eapply Forall_impl; [exact Hlen|].
    intros r0 Hl. by apply Hf. }
  destruct (getEntries_of_category _ _ type Hinit') as (entries & Hget & Hperm & _).
  exists (with_entries st T'), entries.
  split; [by apply updateEntry_initialized|]. split; [exact Hget|]. split.
  - exists (entry_object (f r)).
    pose proof (proj1 (Forall_forall _ _) Hlen r Hr) as Hl.
    destruct (Hf r Hl) as (Hl' & Hid' & Hty'). split.
    + rewrite Hperm. apply list_elem_of_fmap_2, list_elem_of_filter. split.
      * rewrite Hty', Hty. simpl. by rewrite bool_decide_eq_true_2.
      * by apply list_elem_of_fmap_2.
    + destruct (entry_object_fields _ Hl') as (-> & _). by rewrite Hid', Hid.
  - intros entry Hin Heid. rewrite Hperm in Hin.
    apply list_elem_of_fmap in Hin as (r' & -> & Hin).
    apply list_elem_of_filter in Hin as [_ Hin]. cbn [T' t_rows] in Hin.
    apply list_elem_of_fmap in Hin as (r0 & -> & Hr0).
    pose proof (proj1 (Forall_forall _ _) Hlen r0 Hr0) as Hl.
    destruct (Hf r0 Hl) as (Hl' & Hid' & _).
    destruct (entry_object_fields _ Hl') as (Hoid & _).
    rewrite Hoid, Hid' in Heid. apply to_js_number in Heid.
    destruct (entry_object_fields _ Hl') as (_ & _ & -> & -> & -> & -> & -> & _).
    unfold f. rewrite Heid. done.
Qed.

Lemma updateEntry_then_getEntries_witness :
  initialized library_state library_table
  ∧ (js "url" ∈ launch_types)
  ∧ ∃ st' entries,
      updateEntry 2 (js "Notes 2") (js "url") (js "https://notes.example") []
        (js "data:image/png;base64,DDDD") library_state = (Returned tt, st')
      ∧ getEntries (js "app") st' = (Returned entries, st')
      ∧ (∃ entry, entry ∈ entries ∧ obj_get entry "id" = JNumber 2)
      ∧ ∀ entry, entry ∈ entries → obj_get entry "id" = JNumber 2 →
          obj_get entry "name" = JString (js "Notes 2")
          ∧ obj_get entry "launch_type" = JString (js "url")
          ∧ obj_get entry "launch_data" = JString (js "https://notes.example")
          ∧ obj_get entry "launch_args" = JString []
          ∧ obj_get entry "image_data" = JString (js "data:image/png;base64,DDDD").
Proof.
  assert (js "url" ∈ launch_types) as Hlt by (apply (bool_decide_unpack _); exact I).
  split; [exact library_initialized|]. split; [exact Hlt|].
  apply (updateEntry_then_getEntries library_state library_table 2 (js "app")
           (js "Notes 2") (js "url") (js "https://notes.example") []
           (js "data:image/png;base64,DDDD") library_initialized Hlt).
  eexists. split; [unfold library_table, library_rows; simpl; right; left|].
  split; reflexivity.
Defined.

(* --- the operations keep the store ready ------------------------------------ *)

Lemma keeps_ret {A} (P : state → Prop) (a : A) : keeps P (mret a).
Proof. by intros st H. Qed.

Lemma keeps_raise {A} (P : state → Prop) (e : exn) : keeps P (@raise A e).
Proof. by intros st H. Qed.

Lemma keeps_bind {A B} (P : state → Prop) (m : Store A) (f : A → Store B) :
  keeps P m → (∀ a, keeps P (f a)) → keeps P (m ≫= f).
Proof.
  intros Hm Hf st H. unfold mbind, Store_bind.
  specialize (Hm st H). destruct (m st) as [[a|e] st1]; simpl in *; [|done].
  by apply Hf.
Qed.

Lemma keeps_require_db (P : state → Prop) : keeps P require_db.
Proof. intros st H. unfold require_db. by destruct (db st). Qed.

Lemma keeps_db_select {A} (P : state → Prop)
    (query : gmap string table → sql_result A) : keeps P (db_select query).
Proof. intros st H. unfold db_select. by destruct (query (disk st)). Qed.

Lemma store_ready_with (st : state) (d : gmap string table) (T : table) :
  store_ready st →
  d !! "entries"%string = Some T →
  t_columns T = entries_columns →
  Forall (λ r : row, length r = length entries_columns) (t_rows T) →
  store_ready {| db := db st; disk := d; unixepoch := unixepoch st |}.
Proof. intros (t & Hdb & _) Hd Hc Hl. by exists T. Qed.

Lemma set_cell_length (cols : list column) (r : row) (c : string) (v : sqlvalue) :
  length (set_cell cols r c v) = length r.
Proof. unfold set_cell. destruct (column_index c cols); [apply length_insert|done]. Qed.

Lemma update_row_length (cols : list column) (sets : list (string * set_expr)) (old : row) :
  length (update_row cols sets old) = length old.
Proof.
  unfold update_row.
  assert (∀ acc : list sqlvalue,
            length (fold_left (λ r p, set_cell cols r (fst p) (eval_set cols old (snd p)))
                      sets acc)
            = length acc) as H; [|apply H].
  induction sets as [|p sets IH]; intros acc; [done|].
  simpl. by rewrite IH, set_cell_length.
Qed.

Lemma keeps_delete (c : string) (v : sqlvalue) :
  keeps store_ready (db_execute (delete_where "entries" c v)).
Proof.
  intros st Hst. pose proof Hst as (t & Hdb & Ht & Hcols & Hlen).
  unfold db_execute, delete_where, require_table. rewrite Ht.
  unfold mbind, sql_result_bind.
  destruct (require_columns _ _); [|done]. simpl.
  eapply store_ready_with; [done|apply lookup_insert_eq|done|].
  simpl. apply Forall_forall. intros r [_ Hr]%list_elem_of_filter.
  by apply (proj1 (Forall_forall _ _) Hlen).
Qed.

Lemma keeps_update (sets : list (string * set_expr)) (c : string) (v : sqlvalue) :
  keeps store_ready (db_execute (update_where "entries" sets c v)).
Proof.
  intros st Hst. pose proof Hst as (t & Hdb & Ht & Hcols & Hlen).
  unfold db_execute, update_where, require_table. rewrite Ht.
  unfold mbind, sql_result_bind.
  destruct (require_columns _ _); [|done].
  destruct (check_updates _ _ _); [|done]. simpl.
  eapply store_ready_with; [done|apply lookup_insert_eq|done|].
  simpl. apply Forall_fmap. eapply Forall_impl; [exact Hlen|].
  intros r Hr. unfold compose. destruct (sql_eq _ _); [|done].
  by rewrite update_row_length.
Qed.

Lemma keeps_insert (assignments : list (string * sqlvalue)) :
  keeps store_ready
    (db_execute_insert (λ now, insert_values now "entries" assignments)).
Proof.
  intros st Hst. pose proof Hst as (t & Hdb & Ht & Hcols & Hlen).
  unfold db_execute_insert, insert_values, require_table. rewrite Ht.
  unfold mbind at 1, sql_result_bind at 1. unfold insert_row.
  unfold mbind, sql_result_bind.
  destruct (require_columns _ _); [|done].
  destruct (choose_rowid _ _) as [rowid|]; [|done].
  destruct (check_row _ _); [|done]. simpl.
  eapply store_ready_with; [done|apply lookup_insert_eq|done|].
  simpl. apply Forall_app. split; [done|]. constructor; [|done].
  unfold build_row. by rewrite length_fmap, Hcols.
Qed.

(** X10: no operation leaves the store in a state the others cannot work
    with: on an initialized store, after getEntries, addEntry, updateEntry,
    deleteEntry or toggleDeprecated, with any arguments and whether it
    returned or threw, the handle is still set and the table entries still has
    the current declaration with one value per column in every row. *)
Theorem operations_keep_the_store_ready (op : operation) (st : state) :
  store_ready st → store_ready (snd (call op st)).
Proof.
  revert st. change (keeps store_ready (call op)).
  destruct op; unfold call, getEntries, addEntry, updateEntry, deleteEntry,
    toggleDeprecated;
    repeat first
      [ apply keeps_bind; [|intros ?]
      | apply keeps_require_db
      | apply keeps_db_select
      | apply keeps_delete
      | apply keeps_update
      | apply keeps_insert
      | apply keeps_ret
      | apply keeps_raise
      | match goal with |- keeps _ (match ?l with _ => _ end) => destruct l end ].
Qed.

Lemma operations_keep_the_store_ready_witness :
  store_ready library_state
  ∧ store_ready
      (snd (call (AddEntry (js "tool") (js "Notes") (js "lnk") [] [] []) library_state))
  ∧ store_ready (snd (call (ToggleDeprecated 4) library_state)).
Proof.
  assert (store_ready library_state) as H by (exists library_table; exact library_initialized).
  split; [exact H|]. split.
  - exact (operations_keep_the_store_ready _ library_state H).
  - exact (operations_keep_the_store_ready _ library_state H).
Defined.

(* --- initDatabase, again ---------------------------------------------------- *)

Lemma initDatabase_settled (st : state) :
  settled (disk st) →
  initDatabase st
  = (Returned tt,
     {| db := Some (Connection "sqlite:kscope.db"); disk := disk st;
        unixepoch := unixepoch st |}).
Proof.
  intros (T & HT & Hne & Hold). destruct st as [h d now]. simpl in *.
  unfold initDatabase.
  erewrite bind_returned; [|reflexivity].
  erewrite bind_returned.
  2:{ unfold db_select, table_info. cbn [disk]. rewrite HT. reflexivity. }
  cbn beta zeta. rewrite Hold.
  destruct (t_columns T) as [|c cols]; [done|]. reflexivity.
Qed.

Lemma insert_row_columns (now : Z) (T T' : table) (assignments : list (string * sqlvalue))
    (k : Z) :
  insert_row now T assignments = Done (T', k) → t_columns T' = t_columns T.
Proof.
  unfold insert_row. intros H.
  apply sql_bind_inv in H as (_ & _ & H).
  apply sql_bind_inv in H as (rowid & _ & H).
  apply sql_bind_inv in H as (_ & _ & H).
  by injection H as <- _.
Qed.

Lemma insert_rows_columns (now : Z) (targets : list string) (values : list (list sqlvalue)) :
  ∀ (T T' : table) (last k : Z),
  insert_rows now T last targets values = Done (T', k) → t_columns T' = t_columns T.
Proof.
  induction values as [|vs values IH]; intros T T' last k H; simpl in H.
  - by injection H as <- _.
  - apply sql_bind_inv in H as ([T1 k1] & Hone & Hrest).
    apply IH in Hrest. apply insert_row_columns in Hone. congruence.
Qed.

(** X11: initDatabase is safe to call again: whatever the file held, when a
    call of initDatabase has returned, a second call returns as well and
    changes neither the file nor the handle. *)
Theorem initDatabase_idempotent (st st' : state) :
  initDatabase st = (Returned tt, st') →
  initDatabase st' = (Returned tt, st').
Proof.
  intros Hrun.
  enough (db st' = Some (Connection "sqlite:kscope.db") ∧ settled (disk st'))
    as [Hdb Hset].
  { rewrite (initDatabase_settled st' Hset). destruct st' as [h' d' now']. simpl in *.
    by rewrite Hdb. }
  destruct st as [h d now]. unfold initDatabase in Hrun.
  erewrite bind_returned in Hrun; [|reflexivity].
  erewrite bind_returned in Hrun; [|reflexivity].
  cbn beta zeta in Hrun. cbn [disk unixepoch] in Hrun.
  destruct (includes (table_info "entries" d) "bat_path"
            && negb (includes (table_info "entries" d) "launch_type")) eqn:Hold.
  - apply bind_returned_inv in Hrun as ([] & st1 & Hrename & Hrun).
    apply bind_returned_inv in Hrun as ([] & st2 & Hcreate & Hrun).
    apply bind_returned_inv in Hrun as (last & st3 & Hcopy & Hdrop).
    apply db_execute_inv in Hrename as (d1 & Hrename & ->).
    apply db_execute_inv in Hcreate as (d2 & Hcreate & ->).
    apply db_execute_inv in Hdrop as (d4 & Hdrop & ->).
    cbn [disk db] in *.
    unfold create_table in Hcreate.
    destruct (d1 !! "entries"%string); [discriminate|]. injection Hcreate as <-.
    unfold db_execute_insert in Hcopy. cbn [disk unixepoch] in Hcopy.
    destruct (insert_select _ _ _ _ _ _) as [[d3 rowid]|e] eqn:Hsel; [|discriminate].
    injection Hcopy as _ <-. cbn [disk db] in *.
    unfold insert_select, require_table in Hsel.
    rewrite lookup_insert_eq in Hsel. unfold mbind at 1, sql_result_bind at 1 in Hsel.
    apply sql_bind_inv in Hsel as (ts & _ & Hsel).
    apply sql_bind_inv in Hsel as (_ & _ & Hsel).
    apply sql_bind_inv in Hsel as (_ & _ & Hsel).
    apply sql_bind_inv in Hsel as ([T' k] & Hrows & Hsel).
    apply insert_rows_columns in Hrows. cbn [t_columns] in Hrows.
    injection Hsel as <- _.
    unfold drop_table in Hdrop. apply sql_bind_inv in Hdrop as (_ & _ & Hdrop).
    injection Hdrop as <-.
    split; [done|]. exists T'. split.
    { rewrite lookup_delete_ne by done. apply lookup_insert_eq. }
    rewrite Hrows. by split.
  - destruct (negb (0 <? length (table_info "entries" d))%nat) eqn:Hnone.
    + apply db_execute_inv in Hrun as (d1 & Hcreate & ->). cbn [disk db] in *.
      unfold create_table in Hcreate.
      destruct (d !! "entries"%string); [discriminate|]. injection Hcreate as <-.
      split; [done|]. eexists. split; [apply lookup_insert_eq|]. by split.
    + injection Hrun as <-. cbn [disk db]. split; [done|].
      unfold table_info in *. destruct (d !! "entries"%string) as [T|] eqn:HT; [|done].
      exists T. split; [done|]. split; [|done].
      intros Hnil. rewrite Hnil in Hnone. discriminate Hnone.
Qed.

Lemma initDatabase_idempotent_witness :
  initDatabase legacy_state = (Returned tt, snd (initDatabase legacy_state))
  ∧ initDatabase (snd (initDatabase legacy_state))
    = (Returned tt, snd (initDatabase legacy_state)).
Proof.
  split; [vm_compute; reflexivity|].
  apply (initDatabase_idempotent legacy_state). vm_compute. reflexivity.
Defined.

(** X12: the migration is not atomic.  When initDatabase throws on a store of
    the legacy shape (the copy of a row was refused), the rename and the new
    declaration stay: the legacy rows sit under entries_old, the table
    entries is empty, the handle is set.  A later initDatabase returns
    without touching that store, and getEntries lists nothing. *)
Theorem initDatabase_failed_migration (st st' : state) (t : table) (e : exn) :
  disk st !! "entries"%string = Some t →
  disk st !! "entries_old"%string = None →
  legacy_shaped (t_columns t) = true →
  initDatabase st = (Threw e, st') →
  st' = stranded st t
  ∧ initDatabase st' = (Returned tt, st')
  ∧ ∀ type, getEntries type st' = (Returned [], st').
Proof.
  intros Ht Hold Hshape Hrun.
  assert (st' = stranded st t) as ->.
  { destruct st as [h d now]. simpl in Ht, Hold.
    unfold legacy_shaped in Hshape. apply andb_true_iff in Hshape as [Hhas Hnot].
    apply negb_true_iff in Hnot.
    assert (has_column (t_columns t) "bat_path" = true) as Hbat.
    { simpl in Hhas. by repeat (apply andb_true_iff in Hhas as [? Hhas]). }
    unfold initDatabase in Hrun.
    erewrite bind_returned in Hrun; [|reflexivity].
    erewrite bind_returned in Hrun.
    2:{ unfold db_select, table_info. cbn [disk]. rewrite Ht. reflexivity. }
    cbn beta zeta in Hrun. rewrite !includes_has_column, Hbat, Hnot in Hrun.
    cbn [andb negb] in Hrun.
    erewrite bind_returned in Hrun.
    2:{ unfold db_execute, alter_table_rename, require_table. cbn [disk db unixepoch].
        rewrite Ht. unfold mbind, sql_result_bind. rewrite Hold. reflexivity. }
    erewrite bind_returned in Hrun.
    2:{ unfold db_execute, create_table. cbn [disk db unixepoch].
        rewrite lookup_insert_ne, lookup_delete_eq by done. reflexivity. }
    match type of Hrun with (?m ≫= ?f) ?s = _ => destruct (m s) as [[k|e1] st3] eqn:Hcopy end.
    - exfalso. erewrite bind_returned in Hrun; [|exact Hcopy].
      unfold db_execute_insert in Hcopy. cbn [disk db unixepoch] in Hcopy.
      destruct (insert_select _ _ _ _ _ _) as [[d3 rowid]|e1] eqn:Hsel; [|discriminate].
      injection Hcopy as _ <-.
      unfold insert_select, require_table in Hsel.
      rewrite lookup_insert_eq in Hsel. unfold mbind at 1, sql_result_bind at 1 in Hsel.
      apply sql_bind_inv in Hsel as (ts & _ & Hsel).
      apply sql_bind_inv in Hsel as (_ & _ & Hsel).
      apply sql_bind_inv in Hsel as (_ & _ & Hsel).
      apply sql_bind_inv in Hsel as ([T' k'] & _ & Hsel).
      injection Hsel as <- _.
      unfold db_execute, drop_table, require_table in Hrun. cbn [disk] in Hrun.
      rewrite lookup_insert_ne, lookup_insert_ne, lookup_insert_eq in Hrun by done.
      discriminate Hrun.
    - erewrite bind_threw in Hrun; [|exact Hcopy].
      unfold db_execute_insert in Hcopy. cbn [disk db unixepoch] in Hcopy.
      destruct (insert_select _ _ _ _ _ _) as [[d3 rowid]|e2]; [discriminate|].
      injection Hcopy as _ <-. injection Hrun as _ <-. reflexivity. }
  assert (initialized (stranded st t)
            {| t_columns := entries_columns; t_rows := []; t_sequence := 0 |}) as Hinit.
  { split; [by eexists|]. split; [apply lookup_insert_eq|]. by split. }
  split; [done|]. split.
  - rewrite initDatabase_settled; [done|].
    eexists. split; [apply lookup_insert_eq|]. by split.
  - intros type. by rewrite (getEntries_initialized _ _ type Hinit).
Qed.

Lemma initDatabase_failed_migration_witness :
  initDatabase unchecked_state
  = (Threw (SqlError (NotNullFailed "name")), stranded unchecked_state unchecked_table)
  ∧ initDatabase (stranded unchecked_state unchecked_table)
    = (Returned tt, stranded unchecked_state unchecked_table)
  ∧ getEntries (js "game") (stranded unchecked_state unchecked_table)
    = (Returned [], stranded unchecked_state unchecked_table).
Proof.
  assert (initDatabase unchecked_state
          = (Threw (SqlError (NotNullFailed "name")),
             stranded unchecked_state unchecked_table)) as Hrun.
  { vm_compute. reflexivity. }
  split; [exact Hrun|].
  destruct (initDatabase_failed_migration unchecked_state _ unchecked_table _
              eq_refl eq_refl eq_refl Hrun) as (_ & Hagain & Hlist).
  split; [exact Hagain|]. exact (Hlist (js "game")).
Defined.

(* --- what a deletion and an insertion leave of the lists -------------------- *)

Lemma entry_object_without_id (id : Z) (rows : list row) :
  Forall (λ r : row, length r = length entries_columns) rows →
  entry_object <$>
    filter (λ r, ¬ Is_true (sql_eq (cell entries_columns r "id") (SInt id))) rows
  = without_id id (entry_object <$> rows).
Proof.
  unfold without_id. induction 1 as [|r rows Hr Hrows IH]; [done|].
  rewrite fmap_cons, !filter_cons.
  destruct (entry_object_fields r Hr) as (Hid & _).
  assert (¬ Is_true (sql_eq (cell entries_columns r "id") (SInt id))
          ↔ obj_get (entry_object r) "id" ≠ JNumber id) as Hiff.
  { rewrite Hid. destruct (cell entries_columns r "id") as [|n|txt]; simpl.
    - split; [discriminate|tauto].
    - destruct (Z.eqb_spec n id) as [->|Hne]; simpl; [tauto|].
      split; [|tauto]. intros _ [= ->]. done.
    - split; [discriminate|tauto]. }
  repeat case_decide; try tauto; by rewrite ?fmap_cons, IH.
Qed.

Lemma of_category_wide (type : jsstring) (rows : list row) :
  Forall (λ r : row, length r = length entries_columns) rows →
  Forall (λ r : row, length r = length entries_columns) (of_category type rows).
Proof.
  intros H. apply Forall_forall. intros r [_ Hr]%list_elem_of_filter.
  by apply (proj1 (Forall_forall _ _) H).
Qed.

Lemma of_category_without (type : jsstring) (id : Z) (rows : list row) :
  of_category type
    (filter (λ r, ¬ Is_true (sql_eq (cell entries_columns r "id") (SInt id))) rows)
  = filter (λ r, ¬ Is_true (sql_eq (cell entries_columns r "id") (SInt id)))
      (of_category type rows).
Proof.
  unfold of_category. induction rows as [|r rows IH]; [done|].
  rewrite !filter_cons. repeat case_decide; rewrite ?filter_cons;
    repeat case_decide; try tauto; by rewrite IH.
Qed.

(** X13: deleteEntry removes the entries with that id and no other: for every
    category, the list getEntries returns after deleteEntry(id) is, up to
    order, the list it returned before without the entries whose id is id -
    the list the page computes for itself with filter. *)
Theorem deleteEntry_keeps_the_others (st : state) (t : table) (id : Z) (type : jsstring) :
  initialized st t →
  ∃ before after st',
    getEntries type st = (Returned before, st)
    ∧ deleteEntry id st = (Returned tt, st')
    ∧ getEntries type st' = (Returned after, st')
    ∧ after ≡ₚ without_id id before.
Proof.
  intros Hinit. pose proof Hinit as (_ & _ & _ & Hlen).
  destruct (getEntries_of_category st t type Hinit) as (before & Hbefore & Hperm & _).
  set (rows' := filter (λ r, ¬ Is_true (sql_eq (cell entries_columns r "id") (SInt id)))
                  (t_rows t)).
  assert (Forall (λ r : row, length r = length entries_columns) rows') as Hlen'.
  { apply Forall_forall. intros r [_ Hr]%list_elem_of_filter.
    by apply (proj1 (Forall_forall _ _) Hlen). }
  pose proof (initialized_with_entries st t rows' (t_sequence t) Hinit Hlen') as Hinit'.
  destruct (getEntries_of_category _ _ type Hinit') as (after & Hafter & Hperm' & _).
  exists before, after. eexists.
  split; [exact Hbefore|]. split; [by apply deleteEntry_initialized|].
  split; [exact Hafter|].
  rewrite Hperm'. cbn [t_rows]. unfold rows'.
  rewrite of_category_without, entry_object_without_id by (by apply of_category_wide).
  unfold without_id. by rewrite Hperm.
Qed.

Lemma deleteEntry_keeps_the_others_witness :
  initialized library_state library_table
  ∧ ∃ before after st',
      getEntries (js "game") library_state = (Returned before, library_state)
      ∧ deleteEntry 1 library_state = (Returned tt, st')
      ∧ getEntries (js "game") st' = (Returned after, st')
      ∧ after ≡ₚ without_id 1 before.
Proof.
  split; [exact library_initialized|].
  exact (deleteEntry_keeps_the_others library_state library_table 1 (js "game")
           library_initialized).
Defined.

(** X14: addEntry adds one entry to one list: after addEntry returned, the
    list getEntries gives for the category of the new entry is, up to order,
    the former list with the returned entry added, and the list of any other
    category is, up to order, what it was. *)
Theorem addEntry_keeps_the_others (st : state) (t : table)
    (type name launchType launchData launchArgs imageData other : jsstring) :
  initialized st t →
  type ∈ categories →
  launchType ∈ launch_types →
  ∃ before entry st' after,
    getEntries other st = (Returned before, st)
    ∧ addEntry type name launchType launchData launchArgs imageData st
      = (Returned entry, st')
    ∧ getEntries other st' = (Returned after, st')
    ∧ after ≡ₚ (if bool_decide (other = type) then entry :: before else before).
Proof.
  intros Hinit Hty Hlt. pose proof Hinit as (_ & _ & _ & Hlen).
  destruct (getEntries_of_category st t other Hinit) as (before & Hbefore & Hperm & _).
  set (new := [SInt (next_rowid t); SText type; SText name; SText launchType;
               SText launchData; SText launchArgs; SText imageData; SInt 0;
               SInt (unixepoch st)]).
  assert (Forall (λ r : row, length r = length entries_columns) (t_rows t ++ [new]))
    as Hlen'.
  { apply Forall_app. split; [done|]. by apply Forall_singleton. }
  pose proof (initialized_with_entries st t _ (Z.max (t_sequence t) (next_rowid t))
                Hinit Hlen') as Hinit'.
  destruct (getEntries_of_category _ _ other Hinit') as (after & Hafter & Hperm' & _).
  exists before. eexists. eexists. exists after.
  split; [exact Hbefore|]. split; [by apply addEntry_initialized|].
  split; [exact Hafter|].
  rewrite Hperm'. cbn [t_rows]. unfold of_category. rewrite filter_app, fmap_app.
  fold (of_category other (t_rows t)). rewrite <- Hperm.
  rewrite filter_cons, filter_nil.
  change (cell entries_columns new "type") with (SText type). cbn [sql_eq].
  case_bool_decide as Heq.
  - destruct (decide _) as [_|[]]; [|exact I].
    rewrite bool_decide_eq_true_2 by done.
    rewrite Permutation_app_comm. reflexivity.
  - destruct (decide _) as [[]|_].
    rewrite bool_decide_eq_false_2 by congruence.
    by rewrite fmap_nil, app_nil_r.
Qed.

Lemma addEntry_keeps_the_others_witness :
  initialized library_state library_table
  ∧ (js "game" ∈ categories)
  ∧ (js "steam" ∈ launch_types)
  ∧ ∃ before entry st' after,
      getEntries (js "game") library_state = (Returned before, library_state)
      ∧ addEntry (js "game") (js "Hades") (js "steam") (js "1145360") [] (js "img")
          library_state
        = (Returned entry, st')
      ∧ getEntries (js "game") st' = (Returned after, st')
      ∧ after ≡ₚ (if bool_decide (js "game" = js "game") then entry :: before else before).
Proof.
  assert (js "game" ∈ categories) as Hty by (apply (bool_decide_unpack _); exact I).
  assert (js "steam" ∈ launch_types) as Hlt by (apply (bool_decide_unpack _); exact I).
  split; [exact library_initialized|]. split; [exact Hty|]. split; [exact Hlt|].
  exact (addEntry_keeps_the_others library_state library_table (js "game") (js "Hades")
           (js "steam") (js "1145360") [] (js "img") (js "game")
           library_initialized Hty Hlt).
Defined.

(* --- launchEntry: the window and the arguments ------------------------------ *)

Lemma trim_blank (s : jsstring) :
  Forall (λ c, is_white_space c = true) s → trim s = [].
Proof.
  intros H. unfold trim.
  assert (trimStart s = []) as ->; [|done].
  induction H as [|c s Hc _ IH]; [done|]. simpl. by rewrite Hc.
Qed.

Section WindowFacts.

Variable shell : jsstring → list jsstring → bool.

(** X15: launchEntry schedules the hiding of the window exactly when it
    returns true: one timer of 200 ms when the command was accepted, none
    otherwise.  The sound "launch" is the first thing it does, and a callback
    it has scheduled plays "close" and hides the window, and never shows
    it. *)
Theorem launchEntry_hides_the_window_when_launched (entry : Entry) :
  head (trace (launchEntry shell entry)) = Some (AudioPlay "launch")
  ∧ ((result (launchEntry shell entry) = Returned true
      ∧ timers (launchEntry shell entry) = [SetTimeout (CallToggleWindow true) 200])
     ∨ (result (launchEntry shell entry) = Returned false
        ∧ timers (launchEntry shell entry) = []))
  ∧ ∀ callback ms,
      SetTimeout callback ms ∈ trace (launchEntry shell entry) →
      ms = 200
      ∧ run_callback callback = ([AudioPlay "close"; WindowHide], Returned tt).
Proof.
  destruct (launchEntry_cases shell entry) as [[argv ->]| ->].
  - unfold launched. destruct (shell (js "cmd") argv).
    + split; [done|]. split; [by left|]. intros callback ms Hin.
      apply elem_of_cons in Hin as [?|Hin]; [done|].
      apply elem_of_cons in Hin as [?|Hin]; [done|].
      apply elem_of_cons in Hin as [Heq|Hin]; [|by apply elem_of_nil in Hin].
      injection Heq as -> ->. by split.
    + split; [done|]. split; [by right|]. intros callback ms Hin.
      apply elem_of_cons in Hin as [?|Hin]; [done|].
      apply elem_of_cons in Hin as [?|Hin]; [done|].
      apply elem_of_cons in Hin as [?|Hin]; [done|]. by apply elem_of_nil in Hin.
  - unfold not_launched. split; [done|]. split; [by right|]. intros callback ms Hin.
    apply elem_of_cons in Hin as [?|Hin]; [done|].
    apply elem_of_cons in Hin as [?|Hin]; [done|]. by apply elem_of_nil in Hin.
Qed.

(** X16: launch arguments that are nothing but white space are no arguments:
    an exe entry whose launch_args holds only white space (tabs and line
    breaks included) is started with the four fixed words and its path, and
    nothing after them. *)
Theorem launchEntry_exe_blank_args (entry : Entry) :
  launch_type entry = js "exe" →
  Forall (λ c, is_white_space c = true) (launch_args entry) →
  launchEntry shell entry = launched shell [js "/c"; js "start"; []; launch_data entry].
Proof.
  intros Hexe Hblank. rewrite (launchEntry_exe shell entry Hexe).
  unfold exe_argv. by rewrite (trim_blank _ Hblank).
Qed.

End WindowFacts.

Lemma launchEntry_exe_blank_args_witness :
  parseArgs (launch_args blank_args_entry) = [[TAB]]
  ∧ launchEntry accepting blank_args_entry
    = launched accepting [js "/c"; js "start"; []; js "C:/Apps/notes.exe"].
Proof.
  split; [reflexivity|].
  apply (launchEntry_exe_blank_args accepting blank_args_entry); [reflexivity|].
  by apply Forall_singleton.
Defined.

(* --- parseArgs: what becomes of the text ----------------------------------- *)

Lemma concat_filter_truthy (l : list jsstring) :
  concat (filter (λ w, Is_true (truthy w)) l) = concat l.
Proof.
  induction l as [|w l IH]; [done|].
  rewrite filter_cons. destruct w; simpl; [done|]. by rewrite IH.
Qed.

Lemma split_on_nonempty {A} (sep : A → bool) (l : list A) : split_on sep l ≠ [].
Proof. destruct l as [|x l]; simpl; [done|]. destruct (sep x), (split_on sep l); done. Qed.

Lemma concat_split_on {A} (sep : A → bool) (l : list A) :
  concat (split_on sep l) = filter (λ x, ¬ Is_true (sep x)) l.
Proof.
  induction l as [|x l IH]; [done|].
  rewrite filter_cons. simpl. destruct (sep x) eqn:Hx.
  - rewrite decide_False by (intros H; by apply H). simpl. exact IH.
  - rewrite decide_True by (exact (λ H, H)).
    pose proof (split_on_nonempty sep l) as Hne.
    destruct (split_on sep l) as [|piece pieces]; [done|]. simpl in *. by rewrite IH.
Qed.

Lemma concat_strip_quotes (pieces : list (list (N * bool))) :
  concat (strip_quotes <$> pieces) = strip_quotes (concat pieces).
Proof.
  induction pieces as [|p pieces IH]; [done|].
  rewrite fmap_cons. cbn [concat]. rewrite IH.
  unfold strip_quotes. by rewrite fmap_app, filter_app.
Qed.

Lemma fst_mark (s : jsstring) : ∀ q, fst <$> mark q s = s.
Proof. induction s as [|c s IH]; intros q; [done|]. simpl. by rewrite IH. Qed.

Lemma mark_plain (s : jsstring) :
  QUOTE ∉ s → mark false s = (λ c, (c, false)) <$> s.
Proof.
  induction s as [|c s IH]; intros Hq; [done|].
  apply not_elem_of_cons in Hq as [Hc Hs]. simpl.
  replace (c =? QUOTE)%N with false by (symmetry; apply N.eqb_neq; congruence).
  by rewrite IH.
Qed.

Lemma parseArgs_text (s : jsstring) : concat (parseArgs s) = argument_text s.
Proof.
  rewrite parseArgs_split. unfold split_outside_quotes, argument_text.
  rewrite concat_filter_truthy, concat_strip_quotes, concat_split_on. done.
Qed.

(** X17: parseArgs neither invents nor reorders text: the arguments, one after
    the other, spell the input without its quote characters and its
    separating spaces.  So they are a subsequence of the input, and when the
    input holds no quote they are the input with its spaces removed. *)
Theorem parseArgs_keeps_the_text (s : jsstring) :
  concat (parseArgs s) = argument_text s
  ∧ concat (parseArgs s) `sublist_of` s
  ∧ ((QUOTE ∉ s) → concat (parseArgs s) = filter (λ c, c ≠ SPACE) s).
Proof.
  split; [apply parseArgs_text|]. split.
  - rewrite parseArgs_text. unfold argument_text.
    etrans; [apply sublist_filter|].
    etrans; [apply fmap_sublist, sublist_filter|]. by rewrite fst_mark.
  - intros Hq. rewrite parseArgs_text. unfold argument_text. rewrite (mark_plain s Hq).
    induction s as [|c s IH]; [done|].
    apply not_elem_of_cons in Hq as [Hc Hs].
    assert (separator (c, false) = (c =? SPACE)%N) as Hsep by apply andb_true_r.
    rewrite fmap_cons, !filter_cons, Hsep.
    destruct (N.eqb_spec c SPACE) as [->|Hsp].
    + rewrite decide_False by (intros H; by apply H).
      rewrite decide_False by (intros H; by apply H). by apply IH.
    + rewrite decide_True by (exact (λ H, H)). rewrite decide_True by done.
      rewrite fmap_cons, filter_cons. simpl fst.
      rewrite decide_True by done. by rewrite IH.
Qed.

(* --- getFilenameFromPath ---------------------------------------------------- *)

Lemma split_on_plain {A} (sep : A → bool) (l : list A) :
  Forall (λ x, sep x = false) l → split_on sep l = [l].
Proof. induction 1 as [|x l Hx _ IH]; [done|]. simpl. by rewrite Hx, IH. Qed.

Lemma split_on_app_sep {A} (sep : A → bool) (a b : list A) (x : A) :
  sep x = true → split_on sep (a ++ x :: b) = split_on sep a ++ split_on sep b.
Proof.
  intros Hx. induction a as [|y a IH]; simpl; [by rewrite Hx|].
  rewrite IH. destruct (sep y); [done|].
  pose proof (split_on_nonempty sep a) as Hne.
  by destruct (split_on sep a).
Qed.

(* A list has no separator, or a last one. *)
Lemma last_separator {A} (sep : A → bool) (l : list A) :
  Forall (λ x, sep x = false) l
  ∨ ∃ a x b, l = a ++ x :: b ∧ sep x = true ∧ Forall (λ x, sep x = false) b.
Proof.
  induction l as [|y l [IH|(a & x & b & -> & Hx & Hb)]].
  - by left.
  - destruct (sep y) eqn:Hy.
    + right. by exists [], y, l.
    + left. by constructor.
  - right. by exists (y :: a), x, b.
Qed.

Lemma getFilenameFromPath_bare (name : jsstring) :
  plain_name name → getFilenameFromPath name = strip_extension name.
Proof.
  intros H. unfold getFilenameFromPath. rewrite (split_on_plain _ _ H).
  by destruct name.
Qed.

Lemma getFilenameFromPath_after_separator (dir name : jsstring) (sep : N) :
  is_path_separator sep = true →
  plain_name name →
  getFilenameFromPath (dir ++ sep :: name) = strip_extension name.
Proof.
  intros Hsep H. unfold getFilenameFromPath.
  rewrite (split_on_app_sep _ _ _ _ Hsep), (split_on_plain _ _ H), last_snoc.
  by destruct name.
Qed.

Lemma matches_word (word ext : jsstring) :
  Forall2 (λ letter c, c = letter ∨ c = (letter - 32)%N) word ext →
  matches_extension word (DOT :: ext) = true.
Proof.
  intros H. unfold matches_extension.
  rewrite N.eqb_refl, <- (Forall2_length _ _ _ H), Nat.eqb_refl. simpl.
  induction H as [|letter c word ext [->| ->] _ IH]; [done| |]; simpl; rewrite IH.
  - unfold matches_letter. by rewrite N.eqb_refl.
  - unfold matches_letter. by rewrite N.eqb_refl, orb_true_r.
Qed.

Lemma strip_extension_script (stem ext : jsstring) :
  script_extension ext → strip_extension (stem ++ DOT :: ext) = stem.
Proof.
  intros (word & Hword & Hext). unfold strip_extension.
  assert (length ext = 3%nat) as Hlen.
  { rewrite <- (Forall2_length _ _ _ Hext). unfold script_extensions in Hword.
    repeat (apply elem_of_cons in Hword as [->|Hword]; [reflexivity|]).
    by apply elem_of_nil in Hword. }
  replace (length (stem ++ DOT :: ext) - 4)%nat with (length stem)
    by (rewrite length_app; simpl; lia).
  rewrite drop_app_length, take_app_length.
  assert (existsb (λ e, matches_extension e (DOT :: ext)) script_extensions = true) as ->;
    [|done].
  apply existsb_exists. exists word. split; [by apply list_elem_of_In|].
  by apply matches_word.
Qed.

Lemma strip_extension_prefix (name : jsstring) :
  ∃ rest, name = strip_extension name ++ rest.
Proof.
  unfold strip_extension. destruct (existsb _ _).
  - eexists. symmetry. apply take_drop.
  - exists []. by rewrite app_nil_r.
Qed.

Lemma script_extension_plain (ext : jsstring) :
  script_extension ext → plain_name ext.
Proof.
  intros (word & Hword & Hext).
  assert (Forall (λ letter, is_path_separator letter = false
                            ∧ is_path_separator (letter - 32) = false) word) as Hletters.
  { unfold script_extensions in Hword.
    repeat (apply elem_of_cons in Hword as [->|Hword]; [by repeat constructor|]).
    by apply elem_of_nil in Hword. }
  clear Hword. unfold plain_name.
  induction Hext as [|letter c word ext [->| ->] _ IH]; [constructor| |];
    apply Forall_cons in Hletters as [[H1 H2] Hletters]; constructor; auto.
Qed.

(** X18: getFilenameFromPath gives back the stem of a launcher file: for a
    path that ends, after its last separator if it has one, in
    stem.exe, stem.bat or stem.cmd (the extension in any letter case), the
    result is stem - whatever the directory part, and with one extension
    removed only. *)
Theorem getFilenameFromPath_stem (dir stem ext : jsstring) :
  plain_name stem →
  script_extension ext →
  dir = [] ∨ (∃ d sep, dir = d ++ [sep] ∧ is_path_separator sep = true) →
  getFilenameFromPath (dir ++ stem ++ DOT :: ext) = stem.
Proof.
  intros Hstem Hext Hdir.
  assert (plain_name (stem ++ DOT :: ext)) as Hname.
  { apply Forall_app. split; [done|]. constructor; [done|].
    by apply script_extension_plain. }
  destruct Hdir as [->|(d & sep & -> & Hsep)].
  - rewrite app_nil_l, (getFilenameFromPath_bare _ Hname).
    by apply strip_extension_script.
  - rewrite <- app_assoc. simpl.
    rewrite (getFilenameFromPath_after_separator _ _ _ Hsep Hname).
    by apply strip_extension_script.
Qed.

Lemma getFilenameFromPath_stem_witness :
  getFilenameFromPath (js "C:\Games\Elden Ring\start.v2.BAT") = js "start.v2"
  ∧ getFilenameFromPath (js "tool.exe.exe") = js "tool.exe".
Proof.
  split.
  - apply (getFilenameFromPath_stem (js "C:\Games\Elden Ring\") (js "start.v2") (js "BAT")).
    + by repeat constructor.
    + exists (js "bat"). split; [apply (bool_decide_unpack _); exact I|].
      repeat constructor; by right.
    + right. exists (js "C:\Games\Elden Ring"), BACKSLASH. by split.
  - apply (getFilenameFromPath_stem [] (js "tool.exe") (js "exe")).
    + by repeat constructor.
    + exists (js "exe"). split; [apply (bool_decide_unpack _); exact I|].
      repeat constructor; by left.
    + by left.
Defined.

(** X19: the result of getFilenameFromPath is a piece of the path that holds
    no separator: the path is some text, the result, and some text after it.
    A path that ends in a separator gives the empty name, and a name with
    another extension is given back whole. *)
Theorem getFilenameFromPath_is_a_plain_piece (path : jsstring) :
  plain_name (getFilenameFromPath path)
  ∧ (∃ before after, path = before ++ getFilenameFromPath path ++ after)
  ∧ (∀ sep, is_path_separator sep = true → getFilenameFromPath (path ++ [sep]) = [])
  ∧ (∀ name, plain_name name →
       existsb (λ ext, matches_extension ext (drop (length name - 4) name))
         script_extensions = false →
       getFilenameFromPath (path ++ [SLASH] ++ name) = name).
Proof.
  assert (∃ before name, path = before ++ name ∧ plain_name name
                         ∧ getFilenameFromPath path = strip_extension name)
    as (before & name & Hpath & Hname & Hget).
  { destruct (last_separator is_path_separator path) as [H|(a & x & b & -> & Hx & Hb)].
    - exists [], path. split; [done|]. split; [done|]. by apply getFilenameFromPath_bare.
    - exists (a ++ [x]), b. split; [by rewrite <- app_assoc|]. split; [done|].
      by apply getFilenameFromPath_after_separator. }
  destruct (strip_extension_prefix name) as [rest Hrest].
  split; [|split; [|split]].
  - rewrite Hget. unfold plain_name in *. rewrite Hrest in Hname.
    by apply Forall_app in Hname as [? _].
  - exists before, rest. rewrite Hget, <- Hrest. done.
  - intros sep Hsep.
    by rewrite (getFilenameFromPath_after_separator path [] sep Hsep) by constructor.
  - intros other Hother Hnone.
    change (path ++ [SLASH] ++ other) with (path ++ SLASH :: other).
    rewrite (getFilenameFromPath_after_separator path other SLASH) by done.
    unfold strip_extension. by rewrite Hnone.
Qed.

(* ========================================================================= *)
(* The page                                                                  *)
(* ========================================================================= *)

(* --- handleSaveEntry: the validation ---------------------------------------- *)

Lemma truthy_empty (s : jsstring) : truthy s = false ↔ s = [].
Proof. by destruct s. Qed.

Lemma getDataFieldError_shown (p : page) :
  formLaunchType p ∈ launch_types → Boolean (getDataFieldError p) = true.
Proof.
  intros Hin. unfold launch_types in Hin. unfold getDataFieldError.
  repeat (apply elem_of_cons in Hin as [->|Hin]; [reflexivity|]).
  by apply elem_of_nil in Hin.
Qed.

(** X20: handleSaveEntry turns an incomplete form down before it reaches the
    store: with a blank name, blank launch data, no image, or a Steam id that
    is not all digits, it returns without any statement run - the store and
    the lists are as they were, only formError is set - and for a launch type
    of the four the message set is one the page displays. *)
Theorem handleSaveEntry_rejects_incomplete_forms (p : page) (st : state) :
  incomplete p →
  ∃ message,
    handleSaveEntry p st = (Returned (Some (set_formError message p, [])), st)
    ∧ (formLaunchType p ∈ launch_types → Boolean message = true).
Proof.
  intros Hbad. unfold handleSaveEntry.
  destruct (truthy (trim (formName p))) eqn:Hname; simpl.
  2:{ eexists. split; [reflexivity|]. done. }
  destruct (truthy (trim (formLaunchData p))) eqn:Hdata; simpl.
  2:{ eexists. split; [reflexivity|]. apply getDataFieldError_shown. }
  destruct (truthy (formImage p)) eqn:Himage; simpl.
  2:{ eexists. split; [reflexivity|]. done. }
  destruct (bool_decide (formLaunchType p = js "steam")
            && negb (all_digits (trim (formLaunchData p)))) eqn:Hsteam.
  { eexists. split; [reflexivity|]. done. }
  exfalso. destruct Hbad as [H|[H|[H|[H1 H2]]]].
  - apply truthy_empty in H. congruence.
  - apply truthy_empty in H. congruence.
  - apply truthy_empty in H. congruence.
  - by rewrite (bool_decide_eq_true_2 _ H1), H2 in Hsteam.
Qed.

Lemma handleSaveEntry_rejects_incomplete_forms_witness :
  incomplete (set_formLaunchData (js "12a4") filled_page)
  ∧ ∃ message,
      handleSaveEntry (set_formLaunchData (js "12a4") filled_page) library_state
      = (Returned (Some (set_formError message (set_formLaunchData (js "12a4") filled_page),
                         [])),
         library_state)
      ∧ ((formLaunchType (set_formLaunchData (js "12a4") filled_page) ∈ launch_types)
         → Boolean message = true).
Proof.
  assert (incomplete (set_formLaunchData (js "12a4") filled_page)) as H.
  { right. right. right. by split. }
  split; [exact H|].
  exact (handleSaveEntry_rejects_incomplete_forms _ library_state H).
Defined.

(* --- the page and the store ------------------------------------------------- *)

Lemma as_Entry_object (e : Entry) : as_Entry (Entry_object e) = Some e.
Proof. by destruct e. Qed.

Lemma Entry_object_id (e : Entry) : obj_get (Entry_object e) "id" = JNumber (id e).
Proof. reflexivity. Qed.

(* On an initialized store the page shows the store when each of its lists
   is, up to order, the rows of its category. *)
Lemma shows_initialized (p : page) (st : state) (t : table) :
  initialized st t →
  shows p st
  ↔ Entry_object <$> games p ≡ₚ entry_object <$> of_category (js "game") (t_rows t)
    ∧ Entry_object <$> apps p ≡ₚ entry_object <$> of_category (js "app") (t_rows t).
Proof.
  intros Hinit.
  destruct (getEntries_of_category st t (js "game") Hinit) as (gs & Hgs & Hpg & _).
  destruct (getEntries_of_category st t (js "app") Hinit) as (ps & Hps & Hpa & _).
  split.
  - intros (gs' & ps' & Hgs' & Hps' & Hg & Ha).
    unfold getGames in Hgs'. unfold getApps in Hps'.
    rewrite Hgs in Hgs'. rewrite Hps in Hps'.
    injection Hgs' as <-. injection Hps' as <-.
    split; [by rewrite Hg|by rewrite Ha].
  - intros [Hg Ha]. exists gs, ps.
    split; [exact Hgs|]. split; [exact Hps|]. split; [by rewrite Hg|by rewrite Ha].
Qed.

Lemma Entry_object_without_id (i : Z) (l : list Entry) :
  Entry_object <$> filter (λ e, id e ≠ i) l = without_id i (Entry_object <$> l).
Proof.
  unfold without_id. induction l as [|e l IH]; [done|].
  rewrite fmap_cons, !filter_cons, Entry_object_id.
  destruct (decide (id e = i)) as [Heq|Hne].
  - rewrite decide_False by (intros H; by apply H).
    rewrite decide_False by (intros H; apply H; by rewrite Heq). exact IH.
  - rewrite decide_True by done.
    rewrite decide_True by (intros [= H]; by apply Hne). by rewrite fmap_cons, IH.
Qed.

Lemma filter_all {A} (P : A → Prop) `{∀ x, Decision (P x)} (l : list A) :
  Forall P l → filter P l = l.
Proof.
  induction 1 as [|x l Hx _ IH]; [done|]. by rewrite filter_cons, decide_True, IH.
Qed.

Lemma of_category_new (cat : jsstring) (rows : list row) (new : row) :
  of_category cat (rows ++ [new])
  = of_category cat rows
    ++ (if sql_eq (cell entries_columns new "type") (SText cat) then [new] else []).
Proof.
  unfold of_category. rewrite filter_app, filter_cons, filter_nil.
  by destruct (sql_eq _ _).
Qed.

Lemma complete_passes (p : page) :
  complete p →
  truthy (trim (formName p)) = true
  ∧ truthy (trim (formLaunchData p)) = true
  ∧ truthy (formImage p) = true
  ∧ bool_decide (formLaunchType p = js "steam")
    && negb (all_digits (trim (formLaunchData p))) = false.
Proof.
  intros (Hname & Hdata & Himage & Hsteam).
  split; [by destruct (trim (formName p))|].
  split; [by destruct (trim (formLaunchData p))|].
  split; [by destruct (formImage p)|].
  case_bool_decide as Hs; [|done]. by rewrite (Hsteam Hs).
Qed.

Lemma handleSaveEntry_add_initialized (p : page) (st : state) (t : table) :
  initialized st t →
  complete p →
  editingEntry p = None →
  formEntryType p ∈ categories →
  formLaunchType p ∈ launch_types →
  handleSaveEntry p st
  = (Returned
       (Some (clearForm
                (if bool_decide (formEntryType p = js "game")
                 then set_activeTab TabGames
                        (set_games (form_entry p t (unixepoch st) :: games p) p)
                 else set_activeTab TabApps
                        (set_apps (form_entry p t (unixepoch st) :: apps p) p)),
              page_sound "switch")),
     with_entries st
       {| t_columns := entries_columns;
          t_rows := t_rows t ++ [form_row p t (unixepoch st)];
          t_sequence := Z.max (t_sequence t) (next_rowid t) |}).
Proof.
  intros Hinit Hcomplete Hnew Hcat Hlt.
  destruct (complete_passes p Hcomplete) as (Hname & Hdata & Himage & Hsteam).
  unfold handleSaveEntry. rewrite Hname, Hdata, Himage, Hsteam. cbn [negb].
  unfold Store_try. rewrite Hnew.
  erewrite bind_returned; [|by apply addEntry_initialized].
  change (as_Entry _) with (Some (form_entry p t (unixepoch st))). reflexivity.
Qed.

(** X21: a complete form for a new entry is stored and shown: on an
    initialized store, with nothing being edited, handleSaveEntry adds an
    entry with the trimmed name, launch data and arguments of the form, puts
    the entry the store returned at the head of the list of its category,
    opens that tab and clears the form; and a page that showed the store
    before shows it afterwards. *)
Theorem handleSaveEntry_adds_and_shows (p : page) (st : state) (t : table) :
  initialized st t →
  shows p st →
  complete p →
  editingEntry p = None →
  formEntryType p ∈ categories →
  formLaunchType p ∈ launch_types →
  ∃ newEntry p' st',
    handleSaveEntry p st = (Returned (Some (p', page_sound "switch")), st')
    ∧ shows p' st'
    ∧ (type newEntry = formEntryType p
       ∧ name newEntry = trim (formName p)
       ∧ launch_type newEntry = formLaunchType p
       ∧ launch_data newEntry = trim (formLaunchData p)
       ∧ launch_args newEntry = trim (formLaunchArgs p)
       ∧ image_data newEntry = formImage p
       ∧ deprecated newEntry = false)
    ∧ (if bool_decide (formEntryType p = js "game")
       then games p' = newEntry :: games p ∧ apps p' = apps p ∧ activeTab p' = TabGames
       else apps p' = newEntry :: apps p ∧ games p' = games p ∧ activeTab p' = TabApps)
    ∧ (formName p' = [] ∧ formLaunchData p' = [] ∧ formLaunchArgs p' = []
       ∧ formImage p' = [] ∧ editingEntry p' = None).
Proof.
  intros Hinit Hshows Hcomplete Hnew Hcat Hlt.
  pose proof Hinit as (_ & _ & _ & Hlen).
  assert (Forall (λ r : row, length r = length entries_columns)
            (t_rows t ++ [form_row p t (unixepoch st)])) as Hlen'.
  { apply Forall_app. split; [done|]. by apply Forall_singleton. }
  pose proof (initialized_with_entries st t _ (Z.max (t_sequence t) (next_rowid t))
                Hinit Hlen') as Hinit'.
  apply (shows_initialized p st t Hinit) in Hshows as [Hgames Happs].
  exists (form_entry p t (unixepoch st)). eexists. eexists.
  split; [|split; [|split; [|split]]].
  - by apply handleSaveEntry_add_initialized.
  - apply (shows_initialized _ _ _ Hinit'). cbn [t_rows].
    rewrite !of_category_new.
    change (cell entries_columns (form_row p t (unixepoch st)) "type")
      with (SText (formEntryType p)).
    unfold categories in Hcat.
    apply elem_of_cons in Hcat as [Hcat|Hcat];
      [|apply elem_of_cons in Hcat as [Hcat|Hcat]; [|by apply elem_of_nil in Hcat]];
      rewrite Hcat; split; simpl; rewrite ?app_nil_r, ?fmap_app; try done.
    + rewrite Hgames, Permutation_app_comm. simpl. unfold form_entry, form_row.
      by rewrite <- Hcat.
    + rewrite Happs, Permutation_app_comm. simpl. unfold form_entry, form_row.
      by rewrite <- Hcat.
  - done.
  - by destruct (bool_decide (formEntryType p = js "game")).
  - by destruct (bool_decide (formEntryType p = js "game")).
Qed.

Lemma library_page_shows : shows library_page library_state.
Proof.
  apply (shows_initialized _ _ _ library_initialized). split.
  - apply perm_swap.
  - reflexivity.
Qed.

Lemma filled_page_shows : shows filled_page library_state.
Proof.
  apply (shows_initialized _ _ _ library_initialized). split.
  - apply perm_swap.
  - reflexivity.
Qed.

Lemma filled_page_complete : complete filled_page.
Proof. repeat split; try discriminate. Qed.

Lemma handleSaveEntry_adds_and_shows_witness :
  initialized library_state library_table
  ∧ shows filled_page library_state
  ∧ complete filled_page
  ∧ ∃ newEntry p' st',
      handleSaveEntry filled_page library_state
      = (Returned (Some (p', page_sound "switch")), st')
      ∧ shows p' st'
      ∧ name newEntry = js "Hades"
      ∧ launch_data newEntry = js "1145360"
      ∧ games p' = newEntry :: games filled_page.
Proof.
  split; [exact library_initialized|]. split; [exact filled_page_shows|].
  split; [exact filled_page_complete|].
  assert (js "game" ∈ categories) as Hcat by (apply (bool_decide_unpack _); exact I).
  assert (js "steam" ∈ launch_types) as Hlt by (apply (bool_decide_unpack _); exact I).
  destruct (handleSaveEntry_adds_and_shows filled_page library_state library_table
              library_initialized filled_page_shows filled_page_complete eq_refl Hcat Hlt)
    as (newEntry & p' & st' & Hrun & Hshows & Hfields & Hlists & _).
  exists newEntry, p', st'.
  destruct Hfields as (_ & Hname & _ & Hdata & _).
  destruct Hlists as (Hgames & _).
  split; [exact Hrun|]. split; [exact Hshows|].
  split; [exact Hname|]. split; [exact Hdata|]. exact Hgames.
Defined.

Lemma clamp_in_bounds (selected len : Z) :
  (0 ≤ selected)%Z → (0 ≤ len)%Z →
  (0 ≤ (if (len <=? selected)%Z then Z.max 0 (len - 1) else selected)
     ≤ Z.max 0 (len - 1))%Z.
Proof. intros Hs Hl. destruct (Z.leb_spec len selected); lia. Qed.

(** X22: handleDelete keeps the page and the store together.  When the user
    confirms, the entry is deleted from the store and filtered out of the
    list of its category; a page that showed the store still shows it, no
    listed entry has the deleted id, and the selected indices still point into
    their lists.  (The entry's id must not occur in the list of the other
    category, which the handler does not filter.)  When the user declines,
    nothing happens at all. *)
Theorem handleDelete_keeps_page_and_store_together
    (p : page) (st : state) (t : table) (entry : Entry) :
  initialized st t →
  shows p st →
  selection_in_bounds p →
  (if bool_decide (type entry = js "game")
   then Forall (λ a, id a ≠ id entry) (apps p)
   else Forall (λ g, id g ≠ id entry) (games p)) →
  (∃ p' st',
     handleDelete true entry p st = (Returned (p', page_sound "launch"), st')
     ∧ shows p' st'
     ∧ selection_in_bounds p'
     ∧ Forall (λ e, id e ≠ id entry) (games p' ++ apps p'))
  ∧ handleDelete false entry p st = (Returned (p, []), st).
Proof.
  intros Hinit Hshows [Hg Ha] Hother. split; [|reflexivity].
  pose proof Hinit as (_ & _ & _ & Hlen).
  set (rows' := filter (λ r, ¬ Is_true (sql_eq (cell entries_columns r "id")
                                          (SInt (id entry)))) (t_rows t)).
  assert (Forall (λ r : row, length r = length entries_columns) rows') as Hlen'.
  { apply Forall_forall. intros r [_ Hr]%list_elem_of_filter.
    by apply (proj1 (Forall_forall _ _) Hlen). }
  pose proof (initialized_with_entries st t rows' (t_sequence t) Hinit Hlen') as Hinit'.
  apply (shows_initialized p st t Hinit) in Hshows as [Hgames Happs].
  assert (∀ cat l,
            Entry_object <$> l ≡ₚ entry_object <$> of_category cat (t_rows t) →
            Entry_object <$> filter (λ e, id e ≠ id entry) l
            ≡ₚ entry_object <$> of_category cat rows') as Hfiltered.
  { intros cat l Hl. unfold rows'.
    rewrite of_category_without, entry_object_without_id by (by apply of_category_wide).
    rewrite Entry_object_without_id. unfold without_id. by rewrite Hl. }
  eexists. eexists. split.
  { unfold handleDelete. cbn [negb].
    erewrite bind_returned; [reflexivity|by apply deleteEntry_initialized]. }
  assert (∀ l : list Entry, Forall (λ e, id e ≠ id entry) (filter (λ e, id e ≠ id entry) l))
    as Hgone.
  { intros l. apply Forall_forall. by intros e [He _]%list_elem_of_filter. }
  revert Hother. destruct (bool_decide (type entry = js "game")); intros Hother.
  - match goal with |- shows ?q' _ ∧ _ => set (q := q') end.
    assert (games q = filter (λ e, id e ≠ id entry) (games p)) as Eg
      by (unfold q; by destruct (_ <=? _)%Z).
    assert (apps q = apps p) as Ea by (unfold q; by destruct (_ <=? _)%Z).
    assert (selectedAppIndex q = selectedAppIndex p) as Esa
      by (unfold q; by destruct (_ <=? _)%Z).
    assert (selectedGameIndex q
            = if (Z.of_nat (length (filter (λ e, id e ≠ id entry) (games p)))
                  <=? selectedGameIndex p)%Z
              then Z.max 0 (Z.of_nat (length (filter (λ e, id e ≠ id entry) (games p))) - 1)
              else selectedGameIndex p) as Esg
      by (unfold q; cbn; by destruct (_ <=? _)%Z).
    split; [|split].
    + apply (shows_initialized _ _ _ Hinit'). cbn [t_rows]. fold rows'. rewrite Eg, Ea.
      split; [by apply Hfiltered|].
      rewrite <- (filter_all _ _ Hother). by apply Hfiltered.
    + unfold selection_in_bounds. rewrite Ea, Esa, Esg, Eg.
      split; [apply clamp_in_bounds; lia|done].
    + rewrite Eg, Ea. apply Forall_app. by split.
  - match goal with |- shows ?q' _ ∧ _ => set (q := q') end.
    assert (apps q = filter (λ e, id e ≠ id entry) (apps p)) as Ea
      by (unfold q; by destruct (_ <=? _)%Z).
    assert (games q = games p) as Eg by (unfold q; by destruct (_ <=? _)%Z).
    assert (selectedGameIndex q = selectedGameIndex p) as Esg
      by (unfold q; by destruct (_ <=? _)%Z).
    assert (selectedAppIndex q
            = if (Z.of_nat (length (filter (λ e, id e ≠ id entry) (apps p)))
                  <=? selectedAppIndex p)%Z
              then Z.max 0 (Z.of_nat (length (filter (λ e, id e ≠ id entry) (apps p))) - 1)
              else selectedAppIndex p) as Esa
      by (unfold q; cbn; by destruct (_ <=? _)%Z).
    split; [|split].
    + apply (shows_initialized _ _ _ Hinit'). cbn [t_rows]. fold rows'. rewrite Eg, Ea.
      split; [|by apply Hfiltered].
      rewrite <- (filter_all _ _ Hother). by apply Hfiltered.
    + unfold selection_in_bounds. rewrite Eg, Esg, Esa, Ea.
      split; [done|apply clamp_in_bounds; lia].
    + rewrite Eg, Ea. apply Forall_app. by split.
Qed.

Lemma library_page_in_bounds : selection_in_bounds library_page.
Proof. split; simpl; lia. Qed.

Lemma handleDelete_keeps_page_and_store_together_witness :
  initialized library_state library_table
  ∧ shows library_page library_state
  ∧ selection_in_bounds library_page
  ∧ (∃ p' st',
       handleDelete true steam_entry library_page library_state
       = (Returned (p', page_sound "launch"), st')
       ∧ shows p' st'
       ∧ selection_in_bounds p'
       ∧ Forall (λ e, id e ≠ id steam_entry) (games p' ++ apps p'))
  ∧ handleDelete false steam_entry library_page library_state
    = (Returned (library_page, []), library_state).
Proof.
  split; [exact library_initialized|]. split; [exact library_page_shows|].
  split; [exact library_page_in_bounds|].
  apply (handleDelete_keeps_page_and_store_together library_page library_state
           library_table steam_entry library_initialized library_page_shows
           library_page_in_bounds).
  apply Forall_singleton. discriminate.
Defined.

(* --- the selection ---------------------------------------------------------- *)

Lemma getGridColumns_positive (p : page) : (1 ≤ getGridColumns p)%Z.
Proof.
  unfold getGridColumns. destruct (if bool_decide _ then _ else _) as [style|]; [|lia].
  pose proof (split_on_nonempty (λ c, (c =? SPACE)%N) style) as Hne.
  destruct (split_on _ style) as [|piece pieces]; [done|].
  destruct (_ =? _)%Z; simpl length; lia.
Qed.

Lemma clearForm_lists (p : page) :
  games (clearForm p) = games p ∧ apps (clearForm p) = apps p
  ∧ selectedGameIndex (clearForm p) = selectedGameIndex p
  ∧ selectedAppIndex (clearForm p) = selectedAppIndex p.
Proof. done. Qed.

Lemma handleKeyDown_in_bounds (e : KeyboardEvent) (p : page) :
  selection_in_bounds p → selection_in_bounds (fst (handleKeyDown e p)).
Proof.
  intros Hb. pose proof Hb as [Hg Ha]. pose proof (getGridColumns_positive p) as Hcols.
  unfold handleKeyDown.
  destruct (target e); [done|done|].
  destruct (showSettings p); [done|].
  destruct (String.eqb (key e) "Escape"); [by destruct (isOpen p)|].
  destruct (String.eqb (key e) "Tab" && negb (bool_decide (activeTab p = TabAdd)));
    [by destruct (shiftKey e)|].
  destruct (bool_decide (activeTab p = TabAdd)); [done|].
  destruct (bool_decide (activeTab p = TabGames)).
  - destruct (length (games p) =? 0)%nat; [done|].
    destruct (String.eqb (key e) "ArrowRight").
    { destruct (Z.ltb_spec (selectedGameIndex p) (Z.of_nat (length (games p)) - 1));
        [|done]. split; [cbn; lia|done]. }
    destruct (String.eqb (key e) "ArrowLeft").
    { destruct (Z.ltb_spec 0 (selectedGameIndex p)); [|done]. split; [cbn; lia|done]. }
    destruct (String.eqb (key e) "ArrowDown").
    { destruct (Z.ltb_spec (selectedGameIndex p + getGridColumns p)
                  (Z.of_nat (length (games p)))); [|done].
      split; [cbn; lia|done]. }
    destruct (String.eqb (key e) "ArrowUp").
    { destruct (Z.leb_spec 0 (selectedGameIndex p - getGridColumns p)); [|done].
      split; [cbn; lia|done]. }
    destruct (String.eqb (key e) "Enter"); [|done].
    destruct (item_at _ _); [|done]. by destruct (nothing_launching p).
  - destruct (length (apps p) =? 0)%nat; [done|].
    destruct (String.eqb (key e) "ArrowRight").
    { destruct (Z.ltb_spec (selectedAppIndex p) (Z.of_nat (length (apps p)) - 1));
        [|done]. split; [done|cbn; lia]. }
    destruct (String.eqb (key e) "ArrowLeft").
    { destruct (Z.ltb_spec 0 (selectedAppIndex p)); [|done]. split; [done|cbn; lia]. }
    destruct (String.eqb (key e) "ArrowDown").
    { destruct (Z.ltb_spec (selectedAppIndex p + getGridColumns p)
                  (Z.of_nat (length (apps p)))); [|done].
      split; [done|cbn; lia]. }
    destruct (String.eqb (key e) "ArrowUp").
    { destruct (Z.leb_spec 0 (selectedAppIndex p - getGridColumns p)); [|done].
      split; [done|cbn; lia]. }
    destruct (String.eqb (key e) "Enter"); [|done].
    destruct (item_at _ _); [|done]. by destruct (nothing_launching p).
Qed.

Lemma switchTab_in_bounds (t : tab) (p : page) :
  selection_in_bounds p → selection_in_bounds (fst (switchTab t p)).
Proof.
  intros [Hg Ha]. unfold switchTab.
  destruct (bool_decide (activeTab p = TabAdd) && negb (bool_decide (t = TabAdd))
            && isEditing p);
    destruct t; repeat case_bool_decide; try done; split; cbn; lia.
Qed.

Lemma handleSaveEntry_in_bounds (p p' : page) (st st' : state) (events : list page_event) :
  selection_in_bounds p →
  handleSaveEntry p st = (Returned (Some (p', events)), st') →
  selection_in_bounds p'.
Proof.
  intros [Hg Ha] Hrun. unfold handleSaveEntry in Hrun.
  destruct (negb (truthy (trim (formName p)))); [by injection Hrun as <- _ _|].
  destruct (negb (truthy (trim (formLaunchData p)))); [by injection Hrun as <- _ _|].
  destruct (negb (truthy (formImage p))); [by injection Hrun as <- _ _|].
  destruct (bool_decide (formLaunchType p = js "steam")
            && negb (all_digits (trim (formLaunchData p))));
    [by injection Hrun as <- _ _|].
  unfold Store_try in Hrun.
  destruct (editingEntry p) as [editing|].
  - match type of Hrun with
    | match ?m ?s with _ => _ end = _ => destruct (m s) as [[r|e] st1] eqn:Hbody
    end; [|by injection Hrun as <- _ _].
    injection Hrun as -> ->.
    apply bind_returned_inv in Hbody as ([] & st2 & _ & Hret).
    injection Hret as <- _ _.
    destruct (bool_decide (type editing = js "game"));
      split; cbn; rewrite ?length_fmap; lia.
  - match type of Hrun with
    | match ?m ?s with _ => _ end = _ => destruct (m s) as [[r|e] st1] eqn:Hbody
    end; [|by injection Hrun as <- _ _].
    injection Hrun as -> ->.
    apply bind_returned_inv in Hbody as (o & st2 & _ & Hret).
    destruct (as_Entry o) as [newEntry|]; [|discriminate].
    injection Hret as <- _ _.
    destruct (bool_decide (formEntryType p = js "game"));
      split; cbn; lia.
Qed.

(** X23: the selected indices always point into their lists (or are 0 when a
    list is empty): whatever key is pressed, whatever tab is opened, and
    whatever handleSaveEntry does to the lists, a selection that was in bounds
    stays in bounds; so on a list that is not empty there is a selected
    item. *)
Theorem selection_stays_in_bounds (p : page) :
  selection_in_bounds p →
  (∀ e, selection_in_bounds (fst (handleKeyDown e p)))
  ∧ (∀ t, selection_in_bounds (fst (switchTab t p)))
  ∧ (∀ st p' events st',
       handleSaveEntry p st = (Returned (Some (p', events)), st') →
       selection_in_bounds p')
  ∧ (games p ≠ [] → is_Some (item_at (games p) (selectedGameIndex p)))
  ∧ (apps p ≠ [] → is_Some (item_at (apps p) (selectedAppIndex p))).
Proof.
  intros Hb. split; [|split; [|split; [|split]]].
  - intros e. by apply handleKeyDown_in_bounds.
  - intros t. by apply switchTab_in_bounds.
  - intros st p' events st' Hrun. by apply (handleSaveEntry_in_bounds p p' st st' events).
  - destruct Hb as [Hg _]. intros Hne. unfold item_at.
    destruct (Z.ltb_spec (selectedGameIndex p) 0); [lia|].
    apply lookup_lt_is_Some. destruct (games p); [done|]. simpl length in *. lia.
  - destruct Hb as [_ Ha]. intros Hne. unfold item_at.
    destruct (Z.ltb_spec (selectedAppIndex p) 0); [lia|].
    apply lookup_lt_is_Some. destruct (apps p); [done|]. simpl length in *. lia.
Qed.

Lemma selection_stays_in_bounds_witness :
  selection_in_bounds library_page
  ∧ selection_in_bounds
      (fst (handleKeyDown {| target := OtherTarget; key := "ArrowRight"; shiftKey := false |}
              library_page))
  ∧ is_Some (item_at (games library_page) (selectedGameIndex library_page)).
Proof.
  split; [exact library_page_in_bounds|].
  destruct (selection_stays_in_bounds library_page library_page_in_bounds)
    as (Hkey & _ & _ & Hgame & _).
  split; [apply Hkey|]. apply Hgame. discriminate.
Defined.

(* --- the keyboard ----------------------------------------------------------- *)



(* --- handleLaunch and the file helpers --------------------------------------- *)

Lemma mime_type_listed (ext : jsstring) : mime_type ext ∈ mime_types.
Proof.
  unfold mime_type, mime_types.
  destruct (bool_decide (ext = js "gif")); [set_solver|].
  destruct (bool_decide (ext = js "webp")); [set_solver|].
  destruct (bool_decide (ext = js "jpg") || bool_decide (ext = js "jpeg")); set_solver.
Qed.

Section PageAndLogicFacts.

Variable shell : jsstring → list jsstring → bool.
Variable openDialog : dialog_options → completion (option jsstring).
Variable readFile : jsstring → completion (list N).
Variable btoa : jsstring → jsstring.
Variable toLowerCase : jsstring → jsstring.

Lemma launchEntry_returns (entry : Entry) :
  ∃ b, launchEntry shell entry = (trace (launchEntry shell entry), Returned b).
Proof.
  destruct (launchEntry_cases shell entry) as [[argv ->]| ->].
  - unfold launched. destruct (shell _ _); by eexists.
  - by eexists.
Qed.

(** X25: handleLaunch does what launchEntry does and then marks the window
    closed and nothing launching - also when launchEntry returned false,
    where no hiding of the window has been scheduled: after a launch that
    failed the page holds isOpen = false although nothing hides the
    window. *)
Theorem handleLaunch_marks_the_window_closed (item : Entry) (p : page) :
  handleLaunch shell item p
  = (trace (launchEntry shell item),
     Returned (set_isOpen false (set_launchingItem None p)))
  ∧ (result (launchEntry shell item) = Returned false →
     timers (handleLaunch shell item p) = []
     ∧ (WindowHide ∉ trace (handleLaunch shell item p))
     ∧ ∃ p', result (handleLaunch shell item p) = Returned p' ∧ isOpen p' = false).
Proof.
  assert (handleLaunch shell item p
          = (trace (launchEntry shell item),
             Returned (set_isOpen false (set_launchingItem None p)))) as Hrun.
  { unfold handleLaunch. destruct (launchEntry_returns item) as [b ->].
    unfold mbind, Action_bind. simpl. by rewrite app_nil_r. }
  split; [exact Hrun|]. rewrite Hrun. intros Hfalse.
  unfold timers, trace, result. cbn [fst snd].
  destruct (launchEntry_cases shell item) as [[argv Hl]|Hl]; rewrite Hl in *.
  - unfold launched in *. destruct (shell _ _); [discriminate Hfalse|].
    split; [done|]. split; [|by eexists]. cbn [fst].
    intros Hin. by repeat (apply elem_of_cons in Hin as [?|Hin]; [done|]);
      apply elem_of_nil in Hin.
  - split; [done|]. split; [|by eexists]. unfold not_launched. cbn [fst].
    intros Hin. by repeat (apply elem_of_cons in Hin as [?|Hin]; [done|]);
      apply elem_of_nil in Hin.
Qed.

(** X26: browsing for an executable or a script fills in the launch data and
    names the entry after the file only when no name has been typed: with a
    file dir/stem.exe (or .bat, .cmd) picked, formLaunchData becomes the path
    and formName becomes stem when it was empty and stays what it was
    otherwise; nothing else on the page changes. *)
Theorem handleBrowse_names_the_entry (p : page) (dir stem ext : jsstring) (sep : N) :
  is_path_separator sep = true →
  plain_name stem →
  script_extension ext →
  let path := dir ++ sep :: stem ++ DOT :: ext in
  let p' := set_formName (if truthy (formName p) then formName p else stem)
              (set_formLaunchData path p) in
  (openDialog exe_dialog = Returned (Some path) →
   handleBrowseExe openDialog p = ([AudioPlay "hover"], Returned p'))
  ∧ (openDialog script_dialog = Returned (Some path) →
     handleBrowseScript openDialog p = ([AudioPlay "hover"], Returned p')).
Proof.
  intros Hsep Hstem Hext path p'.
  assert (getFilenameFromPath path = stem) as Hname.
  { unfold path.
    change (dir ++ sep :: stem ++ DOT :: ext) with (dir ++ [sep] ++ stem ++ DOT :: ext).
    rewrite app_assoc.
    apply getFilenameFromPath_stem; [done|done|]. right. by exists dir, sep. }
  assert (∃ c s, path = c :: s) as (c & s & Hpath).
  { unfold path. destruct dir; by eexists _, _. }
  assert (p' = if negb (truthy (formName p))
               then set_formName (getFilenameFromPath path) (set_formLaunchData path p)
               else set_formLaunchData path p) as Hp'.
  { unfold p'. rewrite Hname. destruct (truthy (formName p)); [|done]. by destruct p. }
  split; intros Hpick.
  - unfold handleBrowseExe, pickExeFile. fold exe_dialog. rewrite Hpick, Hp', Hpath.
    unfold await, mbind, Action_bind. simpl.
    by destruct (truthy (formName p)).
  - unfold handleBrowseScript, pickScriptFile. fold script_dialog. rewrite Hpick, Hp', Hpath.
    unfold await, mbind, Action_bind. simpl.
    by destruct (truthy (formName p)).
Qed.

(** X27: once a file has been chosen, pickImageFile does not throw: a file
    that cannot be read gives null and one logged error, and a file that can
    be read gives a data URL made of one of the four MIME types and the
    base-64 text of exactly the bytes read; a dismissed dialog gives null and
    logs nothing.  handleBrowseImage puts the URL into formImage, and leaves
    the page as it is when there is none. *)
Theorem pickImageFile_gives_a_data_url_or_null (p : page) :
  (openDialog image_dialog = Returned None →
     pickImageFile openDialog readFile btoa toLowerCase
     = ([AudioPlay "hover"], Returned None)
     ∧ handleBrowseImage openDialog readFile btoa toLowerCase p
       = ([AudioPlay "hover"], Returned p))
  ∧ (∀ path, openDialog image_dialog = Returned (Some path) →
       (∀ e, readFile path = Threw e →
          pickImageFile openDialog readFile btoa toLowerCase
          = ([AudioPlay "hover"; ConsoleError "Image read failed:" (LoggedError e)],
             Returned None)
          ∧ handleBrowseImage openDialog readFile btoa toLowerCase p
            = ([AudioPlay "hover"; ConsoleError "Image read failed:" (LoggedError e)],
               Returned p))
       ∧ (∀ bytes, readFile path = Returned bytes →
            ∃ mime,
              mime ∈ mime_types
              ∧ pickImageFile openDialog readFile btoa toLowerCase
                = ([AudioPlay "hover"],
                   Returned (Some (js "data:" ++ mime ++ js ";base64," ++ btoa bytes)))
              ∧ handleBrowseImage openDialog readFile btoa toLowerCase p
                = ([AudioPlay "hover"],
                   Returned (set_formImage
                               (js "data:" ++ mime ++ js ";base64," ++ btoa bytes) p)))).
Proof.
  split.
  - intros Hnone. unfold handleBrowseImage, pickImageFile. fold image_dialog.
    by rewrite Hnone.
  - intros path Hpick. split.
    + intros e Hread. unfold handleBrowseImage, pickImageFile. fold image_dialog.
      rewrite Hpick. unfold await, mbind, Action_bind. simpl. by rewrite Hread.
    + intros bytes Hread. exists (mime_type (image_extension toLowerCase path)).
      split; [apply mime_type_listed|].
      unfold handleBrowseImage, pickImageFile. fold image_dialog.
      rewrite Hpick. unfold await, mbind, Action_bind. simpl. by rewrite Hread.
Qed.

End PageAndLogicFacts.

Lemma handleBrowse_names_the_entry_witness :
  handleBrowseExe (picking (js "C:\Games\Hades\Hades.exe")) initial_page
  = ([AudioPlay "hover"],
     Returned (set_formName (js "Hades")
                 (set_formLaunchData (js "C:\Games\Hades\Hades.exe") initial_page)))
  ∧ handleBrowseExe (picking (js "C:\Games\Hades\Hades.exe"))
      (set_formName (js "My game") initial_page)
    = ([AudioPlay "hover"],
       Returned (set_formLaunchData (js "C:\Games\Hades\Hades.exe")
                   (set_formName (js "My game") initial_page))).
Proof.
  assert (script_extension (js "exe")) as Hext.
  { exists (js "exe"). split; [apply (bool_decide_unpack _); exact I|].
    repeat constructor; by left. }
  assert (plain_name (js "Hades")) as Hstem by (by repeat constructor).
  split.
  - exact (proj1 (handleBrowse_names_the_entry (picking (js "C:\Games\Hades\Hades.exe"))
                    initial_page (js "C:\Games\Hades") (js "Hades") (js "exe") BACKSLASH
                    eq_refl Hstem Hext) eq_refl).
  - exact (proj1 (handleBrowse_names_the_entry (picking (js "C:\Games\Hades\Hades.exe"))
                    (set_formName (js "My game") initial_page)
                    (js "C:\Games\Hades") (js "Hades") (js "exe") BACKSLASH
                    eq_refl Hstem Hext) eq_refl).
Defined.

Lemma pickImageFile_gives_a_data_url_or_null_witness :
  ∃ mime,
    mime ∈ mime_types
    ∧ pickImageFile (picking (js "C:\Pictures\cover.gif")) (λ _, Returned [71; 73; 70]%N)
        (λ binary, binary) (λ s, s)
      = ([AudioPlay "hover"],
         Returned (Some (js "data:" ++ mime ++ js ";base64," ++ [71; 73; 70]%N))).
Proof.
  destruct (proj2 (proj2 (pickImageFile_gives_a_data_url_or_null
                            (picking (js "C:\Pictures\cover.gif"))
                            (λ _, Returned [71; 73; 70]%N) (λ binary, binary) (λ s, s)
                            initial_page)
                     (js "C:\Pictures\cover.gif") eq_refl)
              [71; 73; 70]%N eq_refl) as (mime & Hmime & Hpick & _).
  exists mime. by split.
Defined.

(* --- handleSaveEntry: an entry that is edited -------------------------------- *)

Section Edited.

Variable i : Z.
Variables n lt ld la im : jsstring.

Lemma updated_row_object (r : row) :
  length r = length entries_columns →
  length (updated_row i n lt ld la im r) = length entries_columns
  ∧ cell entries_columns (updated_row i n lt ld la im r) "type" = cell entries_columns r "type"
  ∧ entry_object (updated_row i n lt ld la im r) = updated_object i n lt ld la im (entry_object r).
Proof.
  intros H. nine_values r H. unfold updated_row, updated_object.
  change (cell entries_columns _ "id") with s.
  change (obj_get _ "id") with (to_js s).
  destruct s as [|k|txt]; simpl sql_eq; cbv iota.
  - rewrite bool_decide_eq_false_2 by done. by repeat split.
  - destruct (Z.eqb_spec k i) as [->|Hne].
    + rewrite bool_decide_eq_true_2 by done. by repeat split.
    + rewrite bool_decide_eq_false_2 by (intros [= H]; by apply Hne). by repeat split.
  - rewrite bool_decide_eq_false_2 by done. by repeat split.
Qed.

Lemma updated_rows_objects (cat : jsstring) (rows : list row) :
  Forall (λ r : row, length r = length entries_columns) rows →
  Forall (λ r : row, length r = length entries_columns) (updated_row i n lt ld la im <$> rows)
  ∧ entry_object <$> of_category cat (updated_row i n lt ld la im <$> rows)
    = updated_object i n lt ld la im <$> (entry_object <$> of_category cat rows).
Proof.
  unfold of_category. induction 1 as [|r rows Hr _ [IHlen IH]]; [done|].
  destruct (updated_row_object r Hr) as (Hlen & Hty & Hobj).
  split; [by constructor|].
  rewrite fmap_cons, !filter_cons, Hty.
  destruct (decide _); [|exact IH]. by rewrite !fmap_cons, IH, Hobj.
Qed.

Lemma updated_object_Entry (editing e : Entry) :
  id editing = i →
  (id e = id editing → e = editing) →
  Entry_object
    (if bool_decide (id e = id editing)
     then {| id := id editing; type := type editing; name := n; launch_type := lt;
             launch_data := ld; launch_args := la; image_data := im;
             deprecated := deprecated editing; created_at := created_at editing |}
     else e)
  = updated_object i n lt ld la im (Entry_object e).
Proof.
  intros Hi Hsame. unfold updated_object. rewrite Entry_object_id.
  case_bool_decide as Hid.
  - rewrite (Hsame Hid). rewrite bool_decide_eq_true_2 by (by rewrite Hi). reflexivity.
  - rewrite bool_decide_eq_false_2; [done|]. intros [= H]. apply Hid. by rewrite H, Hi.
Qed.

Lemma updated_object_other (e : Entry) :
  id e ≠ i → updated_object i n lt ld la im (Entry_object e) = Entry_object e.
Proof.
  intros Hne. unfold updated_object. rewrite Entry_object_id.
  rewrite bool_decide_eq_false_2; [done|]. intros [= H]. by apply Hne.
Qed.

End Edited.

(** X28: saving an entry that is being edited updates the store and the list
    alike: on an initialized store, with a complete form and a launch type of
    the four, handleSaveEntry updates the row of the edited entry, replaces
    the entry in the list of its category by the edited one with the trimmed
    values of the form, and ends the edit; a page that showed the store still
    shows it.  (The edited entry is the one the lists hold under its id, and
    the list of the other category holds no entry with that id.) *)
Theorem handleSaveEntry_updates_and_shows (p : page) (st : state) (t : table)
    (editing : Entry) :
  initialized st t →
  shows p st →
  complete p →
  editingEntry p = Some editing →
  formLaunchType p ∈ launch_types →
  Forall (λ e, id e = id editing → e = editing) (games p ++ apps p) →
  (if bool_decide (type editing = js "game")
   then Forall (λ a, id a ≠ id editing) (apps p)
   else Forall (λ g, id g ≠ id editing) (games p)) →
  ∃ p' st',
    handleSaveEntry p st = (Returned (Some (p', page_sound "launch")), st')
    ∧ shows p' st'
    ∧ editingEntry p' = None
    ∧ (∀ e, e ∈ games p' ++ apps p' → id e = id editing →
         type e = type editing
         ∧ name e = trim (formName p)
         ∧ launch_type e = formLaunchType p
         ∧ launch_data e = trim (formLaunchData p)
         ∧ launch_args e = trim (formLaunchArgs p)
         ∧ image_data e = formImage p
         ∧ deprecated e = deprecated editing
         ∧ created_at e = created_at editing)
    ∧ length (games p') = length (games p)
    ∧ length (apps p') = length (apps p).
Proof.
  intros Hinit Hshows Hcomplete Hedit Hlt Hsame Hother.
  pose proof Hinit as (_ & _ & _ & Hlen).
  destruct (complete_passes p Hcomplete) as (Hname & Hdata & Himage & Hsteam).
  apply Forall_app in Hsame as [Hsame_games Hsame_apps].
  set (i := id editing).
  set (n := trim (formName p)). set (lt := formLaunchType p).
  set (ld := trim (formLaunchData p)). set (la := trim (formLaunchArgs p)).
  set (im := formImage p).
  set (rows' := updated_row i n lt ld la im <$> t_rows t).
  assert (Forall (λ r : row, length r = length entries_columns) rows') as Hlen'.
  { by apply (updated_rows_objects i n lt ld la im (js "game")). }
  pose proof (initialized_with_entries st t rows' (t_sequence t) Hinit Hlen') as Hinit'.
  apply (shows_initialized p st t Hinit) in Hshows as [Hgames Happs].
  set (updatedEntry :=
         {| id := id editing; type := type editing; name := n; launch_type := lt;
            launch_data := ld; launch_args := la; image_data := im;
            deprecated := deprecated editing; created_at := created_at editing |}).
  assert (∀ l, Forall (λ e, id e = id editing → e = editing) l →
               Entry_object <$> ((λ e, if bool_decide (id e = id editing)
                                       then updatedEntry else e) <$> l)
               = updated_object i n lt ld la im <$> (Entry_object <$> l)) as Hmapped.
  { intros l Hl. induction Hl as [|e l He _ IH]; [done|].
    rewrite !fmap_cons, IH. f_equal. by apply updated_object_Entry. }
  assert (∀ l, Forall (λ e, id e ≠ id editing) l →
               updated_object i n lt ld la im <$> (Entry_object <$> l)
               = Entry_object <$> l) as Hkept.
  { intros l Hl. induction Hl as [|e l He _ IH]; [done|].
    rewrite !fmap_cons, IH. f_equal. by apply updated_object_other. }
  assert (∀ l, Forall (λ e, id e = id editing → e = editing) l →
               ∀ e, e ∈ (λ e, if bool_decide (id e = id editing)
                              then updatedEntry else e) <$> l →
                    id e = id editing → e = updatedEntry) as Hnew.
  { intros l Hl e (e0 & -> & Hin)%list_elem_of_fmap Hid.
    case_bool_decide as Hid0; [done|]. by destruct Hid0. }
  eexists. eexists. split.
  { unfold handleSaveEntry. rewrite Hname, Hdata, Himage, Hsteam. cbn [negb].
    unfold Store_try. rewrite Hedit.
    erewrite bind_returned; [reflexivity|by apply updateEntry_initialized]. }
  fold i n lt ld la im updatedEntry.
  revert Hother. destruct (bool_decide (type editing = js "game")); intros Hother.
  - split; [|split; [done|split; [|split]]].
    + apply (shows_initialized _ _ _ Hinit'). cbn [t_rows games apps clearForm].
      fold rows'. unfold rows'.
      rewrite !(proj2 (updated_rows_objects i n lt ld la im _ _ Hlen)).
      split.
      * match goal with |- _ ≡ₚ ?rhs => change (Entry_object <$> ((λ e, if bool_decide (id e = id editing)
                                          then updatedEntry else e) <$> games p) ≡ₚ rhs) end.
        rewrite (Hmapped _ Hsame_games). by rewrite Hgames.
      * match goal with |- _ ≡ₚ ?rhs => change (Entry_object <$> apps p ≡ₚ rhs) end.
        rewrite <- Happs. by rewrite (Hkept _ Hother).
    + cbn. intros e [Hin|Hin]%elem_of_app Hid.
      * by rewrite (Hnew _ Hsame_games e Hin Hid).
      * by destruct (proj1 (Forall_forall _ _) Hother e Hin).
    + cbn. by rewrite length_fmap.
    + done.
  - split; [|split; [done|split; [|split]]].
    + apply (shows_initialized _ _ _ Hinit'). cbn [t_rows games apps clearForm].
      fold rows'. unfold rows'.
      rewrite !(proj2 (updated_rows_objects i n lt ld la im _ _ Hlen)).
      split.
      * match goal with |- _ ≡ₚ ?rhs => change (Entry_object <$> games p ≡ₚ rhs) end.
        rewrite <- Hgames. by rewrite (Hkept _ Hother).
      * match goal with |- _ ≡ₚ ?rhs => change (Entry_object <$> ((λ e, if bool_decide (id e = id editing)
                                          then updatedEntry else e) <$> apps p) ≡ₚ rhs) end.
        rewrite (Hmapped _ Hsame_apps). by rewrite Happs.
    + cbn. intros e [Hin|Hin]%elem_of_app Hid.
      * by destruct (proj1 (Forall_forall _ _) Hother e Hin).
      * by rewrite (Hnew _ Hsame_apps e Hin Hid).
    + done.
    + cbn. by rewrite length_fmap.
Qed.

Lemma handleSaveEntry_updates_and_shows_witness :
  initialized library_state library_table
  ∧ shows editing_page library_state
  ∧ complete editing_page
  ∧ ∃ p' st',
      handleSaveEntry editing_page library_state
      = (Returned (Some (p', page_sound "launch")), st')
      ∧ shows p' st'
      ∧ editingEntry p' = None
      ∧ (∀ e, e ∈ games p' ++ apps p' → id e = 1%Z →
           name e = js "Sekiro: Shadows Die Twice" ∧ launch_data e = js "814380").
Proof.
  assert (shows editing_page library_state) as Hshows.
  { apply (shows_initialized _ _ _ library_initialized). split; [apply perm_swap|done]. }
  assert (complete editing_page) as Hcomplete by (repeat split; discriminate).
  assert (js "steam" ∈ launch_types) as Hlt by (apply (bool_decide_unpack _); exact I).
  assert (Forall (λ a, id a ≠ 1%Z) (apps editing_page)) as Hother.
  { apply Forall_singleton. discriminate. }
  split; [exact library_initialized|]. split; [exact Hshows|]. split; [exact Hcomplete|].
  destruct (handleSaveEntry_updates_and_shows editing_page library_state library_table _
              library_initialized Hshows Hcomplete eq_refl Hlt)
    as (p' & st' & Hrun & Hshows' & Hended & Hvalues & _).
  - repeat constructor; try discriminate.
  - exact Hother.
  - exists p', st'. split; [exact Hrun|]. split; [exact Hshows'|]. split; [exact Hended|].
    intros e Hin Hid. destruct (Hvalues e Hin Hid) as (_ & Hname & _ & Hdata & _).
    by split.
Defined.

(* --- handleSaveEntry: the errors of the store --------------------------------- *)

(** X29: handleSaveEntry never throws: whatever the form and the store, it
    returns.  An error of the store is caught: on a store that has not been
    initialized a complete form is answered with the message "Database error:
    Could not save." and the logged error, and the lists, the form and the
    store are as they were. *)
Theorem handleSaveEntry_never_throws (p : page) (st : state) :
  (∃ outcome st', handleSaveEntry p st = (Returned outcome, st'))
  ∧ (complete p → db st = None →
     handleSaveEntry p st
     = (Returned (Some (set_formError (JString (js "Database error: Could not save.")) p,
                        [PageConsoleError (Error "Database not initialized")])),
        st)).
Proof.
  split.
  - unfold handleSaveEntry.
    destruct (negb (truthy (trim (formName p)))); [by eexists _, _|].
    destruct (negb (truthy (trim (formLaunchData p)))); [by eexists _, _|].
    destruct (negb (truthy (formImage p))); [by eexists _, _|].
    destruct (bool_decide (formLaunchType p = js "steam")
              && negb (all_digits (trim (formLaunchData p)))); [by eexists _, _|].
    unfold Store_try.
    match goal with
    | |- ∃ _ _, match ?m ?s with _ => _ end = _ => destruct (m s) as [[r|e] st1]
    end; by eexists _, _.
  - intros Hcomplete Hdb.
    destruct (complete_passes p Hcomplete) as (Hname & Hdata & Himage & Hsteam).
    unfold handleSaveEntry. rewrite Hname, Hdata, Himage, Hsteam. cbn [negb].
    unfold Store_try.
    assert (require_db st = (Threw (Error "Database not initialized"), st)) as Hguard.
    { unfold require_db. by rewrite Hdb. }
    destruct (editingEntry p) as [editing|].
    + erewrite bind_threw; [reflexivity|]. by apply bind_threw.
    + erewrite bind_threw; [reflexivity|]. by apply bind_threw.
Qed.

(* --- from the form to the command --------------------------------------------- *)

Lemma all_digits_spec (s : jsstring) :
  all_digits s = true → s ≠ [] ∧ Forall (λ c, is_digit c = true) s.
Proof.
  unfold all_digits. intros [Hs Hd]%andb_true_iff. split; [by destruct s|].
  apply Forall_forall. intros c Hc.
  by apply (proj1 (forallb_forall _ _) Hd), list_elem_of_In.
Qed.

Section FormToCommand.

Variable shell : jsstring → list jsstring → bool.

(** X30: a Steam entry saved through the form is launched by its number: on
    an initialized store, a complete form with the launch type steam is saved
    as an entry whose launch data is a non-empty run of decimal digits - the
    text typed, trimmed - and the one command launchEntry issues for that
    entry is cmd /c start steam://rungameid/ followed by those digits. *)
Theorem saved_steam_entry_launches_its_number (p : page) (st : state) (t : table) :
  initialized st t →
  complete p →
  editingEntry p = None →
  formEntryType p ∈ categories →
  formLaunchType p = js "steam" →
  ∃ newEntry p' st',
    handleSaveEntry p st = (Returned (Some (p', page_sound "switch")), st')
    ∧ (newEntry ∈ games p' ++ apps p')
    ∧ launch_data newEntry = trim (formLaunchData p)
    ∧ launch_data newEntry ≠ []
    ∧ Forall (λ c, is_digit c = true) (launch_data newEntry)
    ∧ commands (launchEntry shell newEntry)
      = [CommandExecute (js "cmd")
           [js "/c"; js "start"; js "steam://rungameid/" ++ launch_data newEntry]].
Proof.
  intros Hinit Hcomplete Hnew Hcat Hsteam.
  assert (formLaunchType p ∈ launch_types) as Hlt.
  { rewrite Hsteam. apply (bool_decide_unpack _). exact I. }
  destruct Hcomplete as (Hname & Hdata & Himage & Hdigits).
  destruct (all_digits_spec _ (Hdigits Hsteam)) as [Hne Hall].
  exists (form_entry p t (unixepoch st)). eexists. eexists.
  split; [by apply handleSaveEntry_add_initialized|].
  split; [|split; [done|split; [done|split; [done|]]]].
  - destruct (bool_decide (formEntryType p = js "game")).
    + apply elem_of_app. left. apply elem_of_cons. by left.
    + apply elem_of_app. right. apply elem_of_cons. by left.
  - rewrite (launchEntry_steam shell (form_entry p t (unixepoch st)) Hsteam).
    apply launched_commands.
Qed.

End FormToCommand.

Lemma saved_steam_entry_launches_its_number_witness :
  initialized library_state library_table
  ∧ complete filled_page
  ∧ ∃ newEntry p' st',
      handleSaveEntry filled_page library_state
      = (Returned (Some (p', page_sound "switch")), st')
      ∧ (newEntry ∈ games p' ++ apps p')
      ∧ commands (launchEntry accepting newEntry)
        = [CommandExecute (js "cmd") [js "/c"; js "start"; js "steam://rungameid/1145360"]].
Proof.
  split; [exact library_initialized|]. split; [exact filled_page_complete|].
  assert (js "game" ∈ categories) as Hcat by (apply (bool_decide_unpack _); exact I).
  destruct (saved_steam_entry_launches_its_number accepting filled_page library_state
              library_table library_initialized filled_page_complete eq_refl Hcat eq_refl)
    as (newEntry & p' & st' & Hrun & Hin & Hdata & _ & _ & Hcommands).
  exists newEntry, p', st'. split; [exact Hrun|]. split; [exact Hin|].
  rewrite Hcommands, Hdata. reflexivity.
Defined.
